(** * TraderAI: basal reservoir engine and GCT integration bridge

    A shallow embedding of [src/ml/basal_reservoir_engine.py] and
    [src/ml/gct_basal_integration.py].

    Conventions of the embedding:
    - Python and NumPy floats are modelled as real numbers ([R]); NumPy
      reductions ([np.mean], [np.var], ...) are their textbook formulas.
      The reals have no infinities and no NaN and do not round: a
      statement over this embedding describes the runs of the code in
      which every floating-point value stays finite (no operation
      overflows or yields NaN), up to rounding. The statements about
      ranges of values computed from caller-supplied numbers carry
      hypotheses that keep the runs so (magnitudes at most 1e100, see
      [moderate]). Where rounding can reach a bound (NumPy's [tanh]
      returns exactly 1.0 from about 19.1 on), the bound is stated as
      non-strict. Module [Double] adds the IEEE special values for the
      computation whose overflow is reported.
    - Python dictionaries keyed by node id are [gmap nat R]; a [sum] over
      the items of a dictionary is a [map_fold] starting from [0].
    - Mutation of [self] is explicit state passing; code that can raise
      lives in a state-and-exception monad that keeps the state reached
      when the exception is raised.
    - Calls to [np.random] read from an explicit record of draws, and
      [datetime.now()] is an explicit clock reading. *)

From Stdlib Require Import Reals Lra Lia List ZArith.
From stdpp Require Import gmap list strings.
#[local] Open Scope R_scope.

(** ** NumPy and builtin numerics *)

Definition np_clip (x lo hi : R) : R := Rmin (Rmax x lo) hi.

Definition py_sum (l : list R) : R := fold_left Rplus l 0.

(** [np.mean]; of an empty array NumPy returns NaN (with a warning),
    which the reals cannot hold: a statement that reads the mean of a
    list that may be empty says so. *)
Definition np_mean (l : list R) : R := py_sum l / INR (length l).

Definition np_var (l : list R) : R :=
  np_mean (map (fun x => (x - np_mean l) * (x - np_mean l)) l).

Definition np_std (l : list R) : R := sqrt (np_var l).

(** [sum(f(k, v) for k, v in d.items())] *)
Definition dict_sum (f : nat -> R -> R) (d : gmap nat R) : R :=
  map_fold (fun k v acc => acc + f k v) 0 d.

(** [d.get(k, 0)] *)
Definition dict_get0 (d : gmap nat R) (k : nat) : R := default 0 (d !! k).

(** [l[-n:]] *)
Definition last_n {A} (n : nat) (l : list A) : list A :=
  skipn (length l - n) l.

(** [l[-a:-b]] for [0 < b <= a] *)
Definition slice_neg {A} (a b : nat) (l : list A) : list A :=
  firstn ((length l - b) - (length l - a)) (skipn (length l - a) l).

(** [l[-k]], read only under a guard [len(l) >= k] *)
Definition neg_index {A} (l : list A) (k : nat) (d : A) : A :=
  nth (length l - k) l d.

(** [l.append(x); if len(l) > cap: l.pop(0)] *)
Definition append_capped {A} (cap : nat) (l : list A) (x : A) : list A :=
  let l' := l ++ [x] in
  if (cap <? length l')%nat then tl l' else l'.

(** ** Data model *)

(** [GCTDimensions] *)
Module GCT.

Record t := mk {
  psi : R;
  rho : R;
  q : R;
  f : R
}.

End GCT.

Record BasalReservoirConfig := mkConfig {
  num_nodes : nat;
  spatial_dimension : nat;
  learning_rate : R;
  energy_decay : R;
  connection_radius : R;
  homeodynamic_strength : R;
  coherence_coupling : R;
  adaptation_rate : R;
  prediction_horizon : nat
}.

(** ** BasalReservoirNode *)

Module Node.

Record t := mk {
  node_id : nat;
  position : list R;
  config : BasalReservoirConfig;
  energy : R;
  target_energy : R;
  activation : R;
  incoming_weights : gmap nat R;
  outgoing_weights : gmap nat R;
  activation_history : list R;
  energy_history : list R
}.

(** [update_energy]: returns the mutated node; the returned activation is
    the node's new [activation] field. *)
Definition update_energy (self : t)
  (input_signals neighbor_activations : gmap nat R) : t :=
  let input_sum :=
    dict_sum (fun source_id signal =>
                dict_get0 (incoming_weights self) source_id * signal)
             input_signals in
  let neighbor_sum :=
    dict_sum (fun neighbor_id act =>
                dict_get0 (incoming_weights self) neighbor_id * act)
             neighbor_activations in
  let energy_input := input_sum + 0.8 * neighbor_sum in
  let activation' := tanh energy_input in
  let energy_error := energy self - target_energy self in
  let energy' :=
    energy self * energy_decay (config self) + 0.1 * activation'
    - 0.05 * energy_error in
  let energy'' := np_clip energy' 0 1 in
  let ah := activation_history self ++ [activation'] in
  let eh := energy_history self ++ [energy''] in
  let '(ah, eh) :=
    if (100 <? length ah)%nat then (tl ah, tl eh) else (ah, eh) in
  {| node_id := node_id self;
     position := position self;
     config := config self;
     energy := energy'';
     target_energy := target_energy self;
     activation := activation';
     incoming_weights := incoming_weights self;
     outgoing_weights := outgoing_weights self;
     activation_history := ah;
     energy_history := eh |}.

(** The body of the weight loop of [homeodynamic_learning]: one item of
    [neighbor_states] applied to the weight dictionary. *)
Definition learn_item (rate energy_error total : R)
  (neighbor_id : nat) (neighbor_activation : R) (w : gmap nat R)
  : gmap nat R :=
  match w !! neighbor_id with
  | Some current_weight =>
      let weight_delta :=
        rate * energy_error * neighbor_activation * current_weight / total in
      let new_weight := current_weight - weight_delta in
      <[neighbor_id := np_clip new_weight (-2) 2]> w
  | None => w
  end.

Definition set_incoming_weights (self : t)
  (w : gmap nat R) : t :=
  {| node_id := node_id self;
     position := position self;
     config := config self;
     energy := energy self;
     target_energy := target_energy self;
     activation := activation self;
     incoming_weights := w;
     outgoing_weights := outgoing_weights self;
     activation_history := activation_history self;
     energy_history := energy_history self |}.

Definition homeodynamic_learning (self : t)
  (neighbor_states : gmap nat R) : t :=
  if decide (neighbor_states = ∅) then self else
  let energy_error := energy self - target_energy self in
  let total_weighted_input :=
    dict_sum (fun nid _ =>
                dict_get0 neighbor_states nid
                * dict_get0 (incoming_weights self) nid)
             neighbor_states in
  if Rlt_dec (Rabs total_weighted_input) 1e-6 then self else
  set_incoming_weights self
    (map_fold
       (learn_item (learning_rate (config self)) energy_error
                   total_weighted_input)
       (incoming_weights self) neighbor_states).

Definition set_target_energy (self : t) (te : R) : t :=
  {| node_id := node_id self;
     position := position self;
     config := config self;
     energy := energy self;
     target_energy := te;
     activation := activation self;
     incoming_weights := incoming_weights self;
     outgoing_weights := outgoing_weights self;
     activation_history := activation_history self;
     energy_history := energy_history self |}.

Definition adapt_target_energy (self : t) : t :=
  if (10 <=? length (energy_history self))%nat then
    let recent_energy := last_n 10 (energy_history self) in
    let energy_variance := np_var recent_energy in
    if Rlt_dec energy_variance 0.01 then
      set_target_energy self
        (Rmax 0.2 (target_energy self - adaptation_rate (config self)))
    else if Rgt_dec energy_variance 0.1 then
      set_target_energy self
        (Rmin 0.8 (target_energy self + adaptation_rate (config self)))
    else self
  else self.

End Node.

(** ** Exceptions and the state-and-exception monad *)

Inductive exn :=
| ZeroDivisionError
| IndexError
| TypeError (msg : string).

Inductive result (A : Type) :=
| Ok (a : A)
| Raise (e : exn).

Arguments Ok {A} a.
Arguments Raise {A} e.

(** A computation over a mutable object of type [S]: it returns a value or
    raises, and in both cases leaves the object in the state it reached. *)
Definition M (S A : Type) : Type := S -> result A * S.

Definition ret {S A} (a : A) : M S A := fun s => (Ok a, s).

Definition bind {S A B} (m : M S A) (k : A -> M S B) : M S B :=
  fun s =>
    match m s with
    | (Ok a, s') => k a s'
    | (Raise e, s') => (Raise e, s')
    end.

Definition raise {S A} (e : exn) : M S A := fun s => (Raise e, s).

Definition get {S} : M S S := fun s => (Ok s, s).

Definition modify {S} (g : S -> S) : M S unit := fun s => (Ok tt, g s).

(** [try: m  except Exception: h] *)
Definition try_except {S A} (m : M S A) (h : exn -> M S A) : M S A :=
  fun s =>
    match m s with
    | (Ok a, s') => (Ok a, s')
    | (Raise e, s') => h e s'
    end.

(** A method that cannot raise, as a computation. *)
Definition pure_method {S A} (g : S -> S * A) : M S A :=
  fun s => let '(s', a) := g s in (Ok a, s').

Declare Scope monad_scope.
Delimit Scope monad_scope with monad.
Notation "'let*' x ':=' m 'in' k" := (bind m (fun x => k))
  (at level 10, x pattern, m at level 100, k at level 200) : monad_scope.

(** Division [a / b] of two Python floats, the declared type of the
    [price] field, the only operands it is used on: a zero divisor
    raises. (NumPy scalars divide without raising; the divisions whose
    divisor is a NumPy value are written with [/].) *)
Definition py_div {S} (a b : R) : M S R :=
  if Req_EM_T b 0 then raise ZeroDivisionError else ret (a / b).

#[local] Open Scope monad_scope.

(** [np.average(a, weights=w)] *)
Definition np_average {S} (a w : list R) : M S R :=
  let scl := py_sum w in
  if Req_EM_T scl 0 then raise ZeroDivisionError
  else ret (py_sum (zip_with Rmult a w) / scl).

(** [np.argmax]: index of the first maximal entry. *)
Fixpoint argmax_from (l : list R) (i best_i : nat) (best : R) : nat :=
  match l with
  | [] => best_i
  | x :: l' =>
      if Rgt_dec x best then argmax_from l' (S i) i x
      else argmax_from l' (S i) best_i best
  end.

Definition np_argmax (l : list R) : nat :=
  match l with
  | [] => 0%nat
  | x :: l' => argmax_from l' 1 0 x
  end.

(** [np.abs(np.fft.fft(xs))[k]] *)
Definition dft_power (xs : list R) (k : nat) : R :=
  let n := length xs in
  let re :=
    py_sum (imap (fun j x => x * cos (2 * PI * INR k * INR j / INR n)) xs) in
  let im :=
    py_sum (imap (fun j x => - (x * sin (2 * PI * INR k * INR j / INR n))) xs) in
  sqrt (re * re + im * im).

Definition fft_power (xs : list R) : list R :=
  map (dft_power xs) (seq 0 (length xs)).

(** [np.linalg.norm(p - q)] *)
Definition np_linalg_norm_diff (p q : list R) : R :=
  sqrt (py_sum (zip_with (fun a b => (a - b) * (a - b)) p q)).

(** ** Random draws consumed by the constructors *)

Record RandomDraws := mkDraws {
  (** row [i] of [np.random.uniform(0, 1, (num_nodes, spatial_dimension))] *)
  uniform_position : nat -> list R;
  (** [np.random.uniform(0.3, 0.7)] in the constructor of node [i] *)
  uniform_energy : nat -> R;
  (** [np.random.uniform(0.4, 0.6)] in the constructor of node [i] *)
  uniform_target : nat -> R;
  (** [np.random.normal(0, 0.2)] for the weight into node [i] from [j] *)
  normal_incoming : nat -> nat -> R;
  (** [np.random.normal(0, 0.2)] for the weight out of node [i] to [j] *)
  normal_outgoing : nat -> nat -> R
}.

(** Uniform draws lie in the interval they are drawn from; normal draws
    are unconstrained. *)
Definition draws_in_range (d : RandomDraws) : Prop :=
  forall i : nat,
    0.3 <= uniform_energy d i <= 0.7 /\
    0.4 <= uniform_target d i <= 0.6 /\
    Forall (fun x => 0 <= x <= 1) (uniform_position d i).

(** ** BasalReservoirEngine *)

Module Engine.

Record t := mk {
  config : BasalReservoirConfig;
  nodes : list Node.t;
  adjacency_matrix : list (list R);
  coherence_state : GCT.t;
  gamma : R;
  delta : R;
  epsilon : R;
  phi : R;
  coherence_history : list R;
  anticipation_history : list R;
  coherence_evolution_history : list R;
  prediction_accuracy : R;
  adaptation_efficiency : R
}.

Definition set_nodes (self : t) (ns : list Node.t) : t :=
  {| config := config self;
     nodes := ns;
     adjacency_matrix := adjacency_matrix self;
     coherence_state := coherence_state self;
     gamma := gamma self;
     delta := delta self;
     epsilon := epsilon self;
     phi := phi self;
     coherence_history := coherence_history self;
     anticipation_history := anticipation_history self;
     coherence_evolution_history := coherence_evolution_history self;
     prediction_accuracy := prediction_accuracy self;
     adaptation_efficiency := adaptation_efficiency self |}.

(** [self.coherence_state.psi = p; self.coherence_history.append(p)] *)
Definition record_psi (self : t) (p : R) : t :=
  {| config := config self;
     nodes := nodes self;
     adjacency_matrix := adjacency_matrix self;
     coherence_state :=
       {| GCT.psi := p;
          GCT.rho := GCT.rho (coherence_state self);
          GCT.q := GCT.q (coherence_state self);
          GCT.f := GCT.f (coherence_state self) |};
     gamma := gamma self;
     delta := delta self;
     epsilon := epsilon self;
     phi := phi self;
     coherence_history := coherence_history self ++ [p];
     anticipation_history := anticipation_history self;
     coherence_evolution_history := coherence_evolution_history self;
     prediction_accuracy := prediction_accuracy self;
     adaptation_efficiency := adaptation_efficiency self |}.

(** [self.anticipation_history.append(a)] *)
Definition record_anticipation (self : t) (a : R) : t :=
  {| config := config self;
     nodes := nodes self;
     adjacency_matrix := adjacency_matrix self;
     coherence_state := coherence_state self;
     gamma := gamma self;
     delta := delta self;
     epsilon := epsilon self;
     phi := phi self;
     coherence_history := coherence_history self;
     anticipation_history := anticipation_history self ++ [a];
     coherence_evolution_history := coherence_evolution_history self;
     prediction_accuracy := prediction_accuracy self;
     adaptation_efficiency := adaptation_efficiency self |}.

(** [BasalReservoirNode.__init__] *)
Definition node_init (d : RandomDraws) (cfg : BasalReservoirConfig)
  (i : nat) (pos : list R) : Node.t :=
  {| Node.node_id := i;
     Node.position := pos;
     Node.config := cfg;
     Node.energy := uniform_energy d i;
     Node.target_energy := uniform_target d i;
     Node.activation := 0;
     Node.incoming_weights := ∅;
     Node.outgoing_weights := ∅;
     Node.activation_history := [];
     Node.energy_history := [] |}.

Definition _build_spatial_connectivity (cfg : BasalReservoirConfig)
  (ns : list Node.t) : list (list R) :=
  imap (fun i node_i =>
    imap (fun j node_j =>
      if decide (i <> j) then
        let distance :=
          np_linalg_norm_diff (Node.position node_i) (Node.position node_j) in
        if Rlt_dec distance (connection_radius cfg) then
          exp (- distance / (connection_radius cfg / 2))
        else 0
      else 0) ns) ns.

(** One of the two weight loops of [_initialize_connection_weights]:
    [strengths] is a column or a row of the adjacency matrix. *)
Definition draw_weights (draw : nat -> R) (strengths : list R)
  : gmap nat R :=
  fold_left
    (fun w js =>
       if Rgt_dec (snd js) 0 then <[fst js := draw (fst js) * snd js]> w
       else w)
    (imap pair strengths) ∅.

Definition matrix_column (m : list (list R)) (i : nat) : list R :=
  map (fun row => nth i row 0) m.

Definition matrix_row (m : list (list R)) (i : nat) : list R :=
  nth i m [].

Definition _initialize_connection_weights (d : RandomDraws)
  (adj : list (list R)) (ns : list Node.t) : list Node.t :=
  imap (fun i node =>
    {| Node.node_id := Node.node_id node;
       Node.position := Node.position node;
       Node.config := Node.config node;
       Node.energy := Node.energy node;
       Node.target_energy := Node.target_energy node;
       Node.activation := Node.activation node;
       Node.incoming_weights :=
         draw_weights (normal_incoming d i) (matrix_column adj i);
       Node.outgoing_weights :=
         draw_weights (normal_outgoing d i) (matrix_row adj i);
       Node.activation_history := Node.activation_history node;
       Node.energy_history := Node.energy_history node |}) ns.

(** [BasalReservoirEngine.__init__] with [_initialize_reservoir] *)
Definition init (d : RandomDraws) (cfg : BasalReservoirConfig) : t :=
  let positions := map (uniform_position d) (seq 0 (num_nodes cfg)) in
  let ns := imap (node_init d cfg) positions in
  let adj := _build_spatial_connectivity cfg ns in
  {| config := cfg;
     nodes := _initialize_connection_weights d adj ns;
     adjacency_matrix := adj;
     coherence_state :=
       {| GCT.psi := 0.5; GCT.rho := 0.5; GCT.q := 0.5; GCT.f := 0.5 |};
     gamma := 0.1;
     delta := 0.15;
     epsilon := 0.05;
     phi := coherence_coupling cfg;
     coherence_history := [];
     anticipation_history := [];
     coherence_evolution_history := [];
     prediction_accuracy := 0;
     adaptation_efficiency := 0 |}.

(** [{node.node_id: node.activation for node in self.nodes}] *)
Definition current_activations (ns : list Node.t) : gmap nat R :=
  fold_left (fun d node => <[Node.node_id node := Node.activation node]> d)
            ns ∅.

(** [{nid: act for nid, act in current_activations.items()
      if nid != node.node_id and nid in node.incoming_weights}] *)
Definition neighbor_states_of (snapshot : gmap nat R) (node : Node.t)
  : gmap nat R :=
  filter (fun kv => fst kv <> Node.node_id node
                    /\ is_Some (Node.incoming_weights node !! fst kv))
         snapshot.

(** One iteration of the loop of [update_reservoir_state]. The store holds
    the node objects; the iteration reads the [i]-th object, mutates it in
    place and appends its activation. *)
Definition update_iteration (external_inputs snapshot : gmap nat R)
  (st : list Node.t * list R) (i : nat) : list Node.t * list R :=
  match fst st !! i with
  | Some node =>
      let neighbor_states := neighbor_states_of snapshot node in
      let node1 := Node.update_energy node external_inputs neighbor_states in
      let activation := Node.activation node1 in
      let node2 := Node.homeodynamic_learning node1 neighbor_states in
      let node3 := Node.adapt_target_energy node2 in
      (<[i := node3]> (fst st), snd st ++ [activation])
  | None => st
  end.

Definition update_reservoir_state (self : t)
  (external_inputs : option (gmap nat R)) : t * list R :=
  let external_inputs := default ∅ external_inputs in
  let snapshot := current_activations (nodes self) in
  let st :=
    fold_left (update_iteration external_inputs snapshot)
              (seq 0 (length (nodes self))) (nodes self, []) in
  (set_nodes self (fst st), snd st).

Definition _compute_symbolic_acceptance (self : t) : R :=
  let activations := map Node.activation (nodes self) in
  let variance := np_var activations in
  exp (- 2 * variance).

Definition _compute_symbolic_frequency (self : t) : R :=
  if (length (coherence_history self) <? 5)%nat then
    GCT.f (coherence_state self)
  else
    let recent_coherence := last_n 20 (coherence_history self) in
    let power := fft_power recent_coherence in
    let dominant_frequency :=
      (np_argmax (firstn (length power / 2 - 1) (skipn 1 power)) + 1)%nat in
    let normalized_freq :=
      INR dominant_frequency / INR (length recent_coherence) in
    Rmin 1 (normalized_freq * 5).

Definition _compute_mental_activity (self : t) : R :=
  if decide (length (nodes self) = 0%nat) then 0 else
  let energy_changes :=
    omap (fun node =>
            let h := Node.energy_history node in
            if (2 <=? length h)%nat
            then Some (Rabs (neg_index h 1 0 - neg_index h 2 0))
            else None)
         (nodes self) in
  match energy_changes with
  | [] => 0
  | _ => np_mean energy_changes
  end.

Definition basal_contribution (self : t) : R :=
  let energy_deviations :=
    map (fun node => Node.energy node - Node.target_energy node)
        (nodes self) in
  phi self * py_sum energy_deviations.

Definition compute_enhanced_coherence (self : t) : t * R :=
  let P_t := _compute_symbolic_acceptance self in
  let F_t := _compute_symbolic_frequency self in
  let M_t := _compute_mental_activity self in
  let coherence_derivative :=
    - gamma self * P_t + delta self * F_t - epsilon self * M_t
    + basal_contribution self in
  let new_psi := GCT.psi (coherence_state self) + 0.01 * coherence_derivative in
  let p := np_clip new_psi 0 1 in
  (record_psi self p, p).

Definition compute_anticipation_capacity (self : t) : t * R :=
  let anticipation := basal_contribution self in
  (record_anticipation self anticipation, anticipation).

Definition _encode_market_data (self : t) (market_data : list R)
  : gmap nat R :=
  if decide (length market_data = 0%nat) then ∅ else
  let mu := np_mean market_data in
  let sigma := np_std market_data in
  let normalized_data :=
    map (fun x => (x - mu) / (sigma + 1e-8)) market_data in
  let num_input_nodes :=
    Nat.min (length (nodes self) / 4) (length normalized_data) in
  fold_left
    (fun inputs i =>
       let node_id := (i * (length (nodes self) / num_input_nodes))%nat in
       match normalized_data !! i with
       | Some x => <[node_id := x]> inputs
       | None => inputs
       end)
    (seq 0 num_input_nodes) ∅.

Definition _decode_prediction (activations : list R)
  (coherence anticipation : R) : M t R :=
  let* weighted_activation :=
    np_average activations (map (fun a => Rabs a + 0.1) activations) in
  ret (0.6 * weighted_activation + 0.3 * coherence + 0.1 * anticipation).

(** [get_reservoir_state]: the monitoring dictionary. *)
Definition get_reservoir_state (self : t) : gmap string R :=
  list_to_map
    [ ("num_nodes"%string, INR (length (nodes self)));
      ("average_energy"%string, np_mean (map Node.energy (nodes self)));
      ("energy_variance"%string, np_var (map Node.energy (nodes self)));
      ("average_activation"%string,
         np_mean (map Node.activation (nodes self)));
      ("enhanced_coherence"%string, GCT.psi (coherence_state self));
      ("anticipation_capacity"%string,
         match anticipation_history self with
         | [] => 0
         | _ => neg_index (anticipation_history self) 1 0
         end);
      ("connection_density"%string,
         np_mean (map (fun node => INR (size (Node.incoming_weights node)))
                      (nodes self))) ].

(** The body of the [for step in range(steps_ahead)] loop of
    [predict_market_pattern], over the remaining steps. *)
Fixpoint predict_loop (market_inputs : gmap nat R) (steps : list nat)
  (predictions : list R) : M t (list R) :=
  match steps with
  | [] => ret predictions
  | step :: steps' =>
      let* activations :=
        pure_method (fun self =>
          if decide (step = 0%nat)
          then update_reservoir_state self (Some market_inputs)
          else update_reservoir_state self None) in
      let* coherence := pure_method compute_enhanced_coherence in
      let* anticipation := pure_method compute_anticipation_capacity in
      let* prediction := _decode_prediction activations coherence anticipation in
      predict_loop market_inputs steps' (predictions ++ [prediction])
  end.

Definition predict_market_pattern (market_data : list R) (steps_ahead : nat)
  : M t (list R) :=
  if (length market_data <? 10)%nat then ret (repeat 0 steps_ahead) else
  let* self := get in
  let market_inputs := _encode_market_data self (last_n 10 market_data) in
  predict_loop market_inputs (seq 0 steps_ahead) [].

End Engine.

(** ** Constructing a [BasalReservoirConfig] from keyword arguments *)

(** The fields of the dataclass. *)
Definition field_names : list string :=
  [ "num_nodes"; "spatial_dimension"; "learning_rate"; "energy_decay";
    "connection_radius"; "homeodynamic_strength"; "coherence_coupling";
    "adaptation_rate"; "prediction_horizon" ]%string.

Definition is_field (name : string) : bool :=
  existsb (String.eqb name) field_names.

(** One keyword argument of a call of the dataclass constructor. A
    keyword that names a field carries a value of the annotated type of
    that field (the generated [__init__] checks no types; arguments of
    other types are outside the embedding, whose integer fields are
    [nat]); [kw_other] is a keyword whose name is not a field. *)
Inductive keyword :=
| kw_num_nodes (n : nat)
| kw_spatial_dimension (n : nat)
| kw_learning_rate (x : R)
| kw_energy_decay (x : R)
| kw_connection_radius (x : R)
| kw_homeodynamic_strength (x : R)
| kw_coherence_coupling (x : R)
| kw_adaptation_rate (x : R)
| kw_prediction_horizon (n : nat)
| kw_other (name : string) (x : R) (not_a_field : is_field name = false).

Definition dataclass_defaults : BasalReservoirConfig :=
  {| num_nodes := 100;
     spatial_dimension := 2;
     learning_rate := 0.01;
     energy_decay := 0.95;
     connection_radius := 0.3;
     homeodynamic_strength := 0.1;
     coherence_coupling := 0.05;
     adaptation_rate := 0.001;
     prediction_horizon := 10 |}.

(** The generated [__init__] binds one keyword argument: a field takes
    the value given, and a keyword that is not a field of the dataclass
    is a [TypeError]. *)
Definition bind_keyword (c : BasalReservoirConfig) (kw : keyword)
  : result BasalReservoirConfig :=
  match kw with
  | kw_num_nodes n =>
      Ok (mkConfig n (spatial_dimension c) (learning_rate c)
                   (energy_decay c) (connection_radius c)
                   (homeodynamic_strength c) (coherence_coupling c)
                   (adaptation_rate c) (prediction_horizon c))
  | kw_spatial_dimension n =>
      Ok (mkConfig (num_nodes c) n (learning_rate c) (energy_decay c)
                   (connection_radius c) (homeodynamic_strength c)
                   (coherence_coupling c) (adaptation_rate c)
                   (prediction_horizon c))
  | kw_learning_rate x =>
      Ok (mkConfig (num_nodes c) (spatial_dimension c) x
                   (energy_decay c) (connection_radius c)
                   (homeodynamic_strength c) (coherence_coupling c)
                   (adaptation_rate c) (prediction_horizon c))
  | kw_energy_decay x =>
      Ok (mkConfig (num_nodes c) (spatial_dimension c) (learning_rate c)
                   x (connection_radius c)
                   (homeodynamic_strength c) (coherence_coupling c)
                   (adaptation_rate c) (prediction_horizon c))
  | kw_connection_radius x =>
      Ok (mkConfig (num_nodes c) (spatial_dimension c) (learning_rate c)
                   (energy_decay c) x
                   (homeodynamic_strength c) (coherence_coupling c)
                   (adaptation_rate c) (prediction_horizon c))
  | kw_homeodynamic_strength x =>
      Ok (mkConfig (num_nodes c) (spatial_dimension c) (learning_rate c)
                   (energy_decay c) (connection_radius c)
                   x (coherence_coupling c)
                   (adaptation_rate c) (prediction_horizon c))
  | kw_coherence_coupling x =>
      Ok (mkConfig (num_nodes c) (spatial_dimension c) (learning_rate c)
                   (energy_decay c) (connection_radius c)
                   (homeodynamic_strength c) x
                   (adaptation_rate c) (prediction_horizon c))
  | kw_adaptation_rate x =>
      Ok (mkConfig (num_nodes c) (spatial_dimension c) (learning_rate c)
                   (energy_decay c) (connection_radius c)
                   (homeodynamic_strength c) (coherence_coupling c)
                   x (prediction_horizon c))
  | kw_prediction_horizon n =>
      Ok (mkConfig (num_nodes c) (spatial_dimension c) (learning_rate c)
                   (energy_decay c) (connection_radius c)
                   (homeodynamic_strength c) (coherence_coupling c)
                   (adaptation_rate c) n)
  | kw_other name _ _ => Raise (TypeError name)
  end.

(** The dataclass constructor called with keyword arguments only. *)
Fixpoint bind_keywords (c : BasalReservoirConfig)
  (kwargs : list keyword) : result BasalReservoirConfig :=
  match kwargs with
  | [] => Ok c
  | kw :: kwargs' =>
      match bind_keyword c kw with
      | Ok c' => bind_keywords c' kwargs'
      | Raise e => Raise e
      end
  end.

Definition BasalReservoirConfig_init (kwargs : list keyword)
  : result BasalReservoirConfig :=
  bind_keywords dataclass_defaults kwargs.

(** [create_basal_reservoir_engine] *)
Definition create_basal_reservoir_engine (d : RandomDraws)
  (config : option BasalReservoirConfig) : result Engine.t :=
  match config with
  | Some c => Ok (Engine.init d c)
  | None =>
      match BasalReservoirConfig_init [] with
      | Ok c => Ok (Engine.init d c)
      | Raise e => Raise e
      end
  end.

(** ** Market data and results *)

Record MarketDataPoint := mkPoint {
  timestamp : Z;
  symbol : string;
  price : R;
  volume : Z;
  sentiment : option R
}.

Module Result.

(** [EnhancedCoherenceResult]; [timestamp] is filled by
    [default_factory=datetime.now]. *)
Record t := mk {
  traditional_gct : GCT.t;
  basal_enhanced_gct : GCT.t;
  anticipation_capacity : R;
  prediction_confidence : R;
  symbolic_resonance : R;
  adaptation_efficiency : R;
  reservoir_state : gmap string R;
  timestamp : Z
}.

End Result.

(** [l[-k]] on a Python list: [IndexError] when the list is too short. *)
Definition py_neg_index {S A} (l : list A) (k : nat) : M S A :=
  if (k <=? length l)%nat then
    match l !! (length l - k)%nat with
    | Some x => ret x
    | None => raise IndexError
    end
  else raise IndexError.

(** Slope returned by [np.polyfit(range(len(ys)), ys, 1)[0]]: the
    least-squares line through the points [(i, ys[i])]. *)
Definition polyfit_slope (ys : list R) : R :=
  let xs := map INR (seq 0 (length ys)) in
  let xbar := np_mean xs in
  let ybar := np_mean ys in
  py_sum (zip_with (fun x y => (x - xbar) * (y - ybar)) xs ys)
  / py_sum (map (fun x => (x - xbar) * (x - xbar)) xs).

(** ** GCTBasalIntegrator *)

Module Integrator.

Record t := mk {
  basal_engine : Engine.t;
  integration_strength : R;
  market_history : list MarketDataPoint;
  coherence_results : list Result.t;
  prediction_accuracy_tracker : list R;
  coherence_stability_tracker : list R
}.

Definition set_engine (self : t) (e : Engine.t) : t :=
  {| basal_engine := e;
     integration_strength := integration_strength self;
     market_history := market_history self;
     coherence_results := coherence_results self;
     prediction_accuracy_tracker := prediction_accuracy_tracker self;
     coherence_stability_tracker := coherence_stability_tracker self |}.

Definition set_market_history (self : t) (h : list MarketDataPoint) : t :=
  {| basal_engine := basal_engine self;
     integration_strength := integration_strength self;
     market_history := h;
     coherence_results := coherence_results self;
     prediction_accuracy_tracker := prediction_accuracy_tracker self;
     coherence_stability_tracker := coherence_stability_tracker self |}.

Definition set_coherence_results (self : t) (rs : list Result.t) : t :=
  {| basal_engine := basal_engine self;
     integration_strength := integration_strength self;
     market_history := market_history self;
     coherence_results := rs;
     prediction_accuracy_tracker := prediction_accuracy_tracker self;
     coherence_stability_tracker := coherence_stability_tracker self |}.

Definition set_accuracy_tracker (self : t) (l : list R) : t :=
  {| basal_engine := basal_engine self;
     integration_strength := integration_strength self;
     market_history := market_history self;
     coherence_results := coherence_results self;
     prediction_accuracy_tracker := l;
     coherence_stability_tracker := coherence_stability_tracker self |}.

Definition set_stability_tracker (self : t) (l : list R) : t :=
  {| basal_engine := basal_engine self;
     integration_strength := integration_strength self;
     market_history := market_history self;
     coherence_results := coherence_results self;
     prediction_accuracy_tracker := prediction_accuracy_tracker self;
     coherence_stability_tracker := l |}.

(** A method of [self.basal_engine] called from the integrator. *)
Definition on_engine {A} (m : M Engine.t A) : M t A :=
  fun self =>
    let '(r, e) := m (basal_engine self) in (r, set_engine self e).

(** [__init__]; [None] stands for an argument left at its default. *)
Definition init (d : RandomDraws)
  (reservoir_config : option BasalReservoirConfig)
  (integration_strength : option R) : result t :=
  let config :=
    match reservoir_config with
    | Some c => Ok c
    | None =>
        BasalReservoirConfig_init
          [ kw_num_nodes 80;
            kw_learning_rate 0.02;
            kw_other "soulmath_coupling" 0.08 eq_refl;
            kw_adaptation_rate 0.002 ]
    end in
  match config with
  | Raise e => Raise e
  | Ok c =>
      Ok {| basal_engine := Engine.init d c;
            integration_strength := default 0.3 integration_strength;
            market_history := [];
            coherence_results := [];
            prediction_accuracy_tracker := [];
            coherence_stability_tracker := [] |}
  end.

Definition neutral_gct : GCT.t :=
  {| GCT.psi := 0.5; GCT.rho := 0.5; GCT.q := 0.5; GCT.f := 0.5 |}.

Definition _compute_traditional_gct (market_data : MarketDataPoint)
  : M t GCT.t :=
  let* self := get in
  let recent_prices := map price (last_n 20 (market_history self)) in
  let recent_volumes :=
    map (fun dp => IZR (volume dp)) (last_n 20 (market_history self)) in
  if (length recent_prices <? 5)%nat then ret neutral_gct else
  let prices10 := last_n 10 recent_prices in
  let price_volatility := np_std prices10 / (np_mean prices10 + 1e-8) in
  let psi := exp (- 2 * price_volatility) in
  let rho :=
    if (10 <=? length recent_prices)%nat then
      let price_trend := polyfit_slope prices10 in
      let trend_strength := Rabs price_trend / (np_mean prices10 + 1e-8) in
      Rmin 1 (trend_strength * 10)
    else 0.5 in
  let q :=
    if (5 <=? length recent_volumes)%nat then
      let volume_ratio :=
        neg_index recent_volumes 1 0
        / (np_mean (last_n 5 recent_volumes) + 1e-8) in
      Rmin 1 (Rmax 0 ((volume_ratio - 0.5) * 2))
    else 0.5 in
  let* f :=
    match sentiment market_data with
    | Some s => ret ((s + 1) / 2)
    | None =>
        if (3 <=? length recent_prices)%nat then
          let* p1 := py_neg_index recent_prices 1 in
          let* p3 := py_neg_index recent_prices 3 in
          let* momentum := py_div (p1 - p3) p3 in
          ret ((tanh (momentum * 10) + 1) / 2)
        else ret 0.5
    end in
  ret {| GCT.psi := np_clip psi 0 1;
         GCT.rho := np_clip rho 0 1;
         GCT.q := np_clip q 0 1;
         GCT.f := np_clip f 0 1 |}.

Definition _prepare_market_data_for_reservoir (self : t) : list R :=
  if (length (market_history self) <? 5)%nat then repeat 0 10 else
  let recent_data := last_n 20 (market_history self) in
  let prices := map price recent_data in
  let volumes := map (fun dp => IZR (volume dp)) recent_data in
  let prices_norm :=
    map (fun x => (x - np_mean prices) / (np_std prices + 1e-8)) prices in
  let volumes_norm :=
    map (fun x => (x - np_mean volumes) / (np_std volumes + 1e-8)) volumes in
  let combined := last_n 10 prices_norm ++ last_n 10 volumes_norm in
  let combined :=
    if (length combined <? 20)%nat
    then combined ++ repeat 0 (20 - length combined)
    else combined in
  firstn 20 combined.

Definition _encode_market_signals (market_data : MarketDataPoint)
  : M t (gmap nat R) :=
  let* self := get in
  let signals : gmap nat R := ∅ in
  let* signals :=
    if (2 <=? length (market_history self))%nat then
      let* prev := py_neg_index (market_history self) 2 in
      let* price_change :=
        py_div (price market_data - price prev) (price prev) in
      ret (<[0%nat := tanh (price_change * 100)]> signals)
    else ret signals in
  let signals :=
    if (5 <=? length (market_history self))%nat then
      let recent_volumes :=
        map (fun dp => IZR (volume dp)) (last_n 5 (market_history self)) in
      let volume_ratio :=
        IZR (volume market_data) / (np_mean recent_volumes + 1e-8) in
      <[(length (Engine.nodes (basal_engine self)) / 4)%nat :=
          tanh (volume_ratio - 1)]> signals
    else signals in
  let signals :=
    match sentiment market_data with
    | Some s =>
        <[(length (Engine.nodes (basal_engine self)) / 2)%nat := s]> signals
    | None => signals
    end in
  ret signals.

Definition _integrate_coherence_approaches (self : t)
  (traditional : GCT.t) (basal_coherence anticipation : R) : GCT.t :=
  let alpha := integration_strength self in
  let enhanced_psi :=
    (1 - alpha) * GCT.psi traditional + alpha * basal_coherence in
  let anticipation_boost := np_clip anticipation (-0.5) 0.5 in
  let enhanced_rho := GCT.rho traditional + alpha * anticipation_boost in
  let reservoir_energy :=
    default 0.5
      (Engine.get_reservoir_state (basal_engine self)
         !! "average_energy"%string) in
  let enhanced_q :=
    (1 - alpha) * GCT.q traditional + alpha * reservoir_energy in
  let reservoir_activation :=
    default 0
      (Engine.get_reservoir_state (basal_engine self)
         !! "average_activation"%string) in
  let activation_normalized := (tanh reservoir_activation + 1) / 2 in
  let enhanced_f :=
    (1 - alpha) * GCT.f traditional + alpha * activation_normalized in
  {| GCT.psi := np_clip enhanced_psi 0 1;
     GCT.rho := np_clip enhanced_rho 0 1;
     GCT.q := np_clip enhanced_q 0 1;
     GCT.f := np_clip enhanced_f 0 1 |}.

Definition _compute_symbolic_resonance (market_data : MarketDataPoint)
  (activations : list R) : M t R :=
  let* self := get in
  let* price_momentum :=
    if (3 <=? length (market_history self))%nat then
      let* old := py_neg_index (market_history self) 3 in
      py_div (price market_data - price old) (price old)
    else ret 0 in
  let ns := Engine.nodes (basal_engine self) in
  let reservoir_momentum :=
    match ns with
    | node0 :: _ =>
        if (2 <=? length (Node.activation_history node0))%nat then
          np_mean
            (omap (fun node =>
                     let h := Node.activation_history node in
                     if (2 <=? length h)%nat
                     then Some (neg_index h 1 0 - neg_index h 2 0)
                     else None) ns)
        else 0
    | [] => 0
    end in
  let resonance :=
    if Rgt_dec (Rabs price_momentum) 1e-6 then
      if Rgt_dec (Rabs reservoir_momentum) 1e-6 then
        tanh (price_momentum * reservoir_momentum * 1000)
      else 0
    else 0 in
  ret ((resonance + 1) / 2).

Definition _compute_prediction_confidence (market_data : list R) : M t R :=
  try_except
    (let* predictions :=
       on_engine (Engine.predict_market_pattern market_data 3) in
     let confidence :=
       if (2 <=? length predictions)%nat then
         let prediction_variance := np_var predictions in
         exp (- prediction_variance * 10)
       else 0.5 in
     let* self := get in
     let reservoir_state := Engine.get_reservoir_state (basal_engine self) in
     let energy_variance :=
       default 0.5 (reservoir_state !! "energy_variance"%string) in
     let stability_factor := exp (- energy_variance * 5) in
     let final_confidence := confidence * stability_factor in
     ret (np_clip final_confidence 0 1))
    (fun _ => ret 0.5).

Definition _compute_adaptation_efficiency (self : t) : R :=
  if (length (coherence_results self) <? 10)%nat then 0.5 else
  let enhanced_psi r := GCT.psi (Result.basal_enhanced_gct r) in
  let recent_coherence :=
    map enhanced_psi (last_n 10 (coherence_results self)) in
  let earlier_coherence :=
    if (20 <=? length (coherence_results self))%nat
    then map enhanced_psi (slice_neg 20 10 (coherence_results self))
    else recent_coherence in
  if (0 <? length earlier_coherence)%nat then
    let improvement := np_mean recent_coherence - np_mean earlier_coherence in
    (tanh (improvement * 5) + 1) / 2
  else 0.5.

Definition _update_performance_metrics (result : Result.t) : M t unit :=
  let* self := get in
  let* _ :=
    if (2 <=? length (market_history self))%nat then
      let* last1 := py_neg_index (market_history self) 1 in
      let* last2 := py_neg_index (market_history self) 2 in
      let* price_change := py_div (price last1 - price last2) (price last2) in
      let anticipation := Result.anticipation_capacity result in
      let accuracy :=
        if Rgt_dec price_change 0 then
          if Rgt_dec anticipation 0 then 1 else 0
        else if Rlt_dec price_change 0 then
          if Rlt_dec anticipation 0 then 1 else 0
        else 0 in
      modify (fun self =>
        set_accuracy_tracker self
          (append_capped 100 (prediction_accuracy_tracker self) accuracy))
    else ret tt in
  modify (fun self =>
    set_stability_tracker self
      (append_capped 50 (coherence_stability_tracker self)
         (GCT.psi (Result.basal_enhanced_gct result)))).

Definition _create_fallback_result (market_data : MarketDataPoint)
  (now : Z) : Result.t :=
  let fallback_gct := neutral_gct in
  {| Result.traditional_gct := fallback_gct;
     Result.basal_enhanced_gct := fallback_gct;
     Result.anticipation_capacity := 0;
     Result.prediction_confidence := 0;
     Result.symbolic_resonance := 0;
     Result.adaptation_efficiency := 0;
     Result.reservoir_state := ∅;
     Result.timestamp := now |}.

(** The [try] block of [process_market_data_stream]. *)
Definition process_body (market_data : MarketDataPoint)
  (enable_prediction : bool) (now : Z) : M t Result.t :=
  let* _ :=
    modify (fun self =>
      set_market_history self
        (append_capped 1000 (market_history self) market_data)) in
  let* traditional_gct := _compute_traditional_gct market_data in
  let* self := get in
  let market_array := _prepare_market_data_for_reservoir self in
  let* reservoir_inputs := _encode_market_signals market_data in
  let* activations :=
    on_engine (pure_method (fun e =>
      Engine.update_reservoir_state e (Some reservoir_inputs))) in
  let* basal_coherence :=
    on_engine (pure_method Engine.compute_enhanced_coherence) in
  let* anticipation :=
    on_engine (pure_method Engine.compute_anticipation_capacity) in
  let* self := get in
  let enhanced_gct :=
    _integrate_coherence_approaches self traditional_gct basal_coherence
                                    anticipation in
  let* symbolic_resonance :=
    _compute_symbolic_resonance market_data activations in
  let* prediction_confidence :=
    if enable_prediction then _compute_prediction_confidence market_array
    else ret 0 in
  let* self := get in
  let result :=
    {| Result.traditional_gct := traditional_gct;
       Result.basal_enhanced_gct := enhanced_gct;
       Result.anticipation_capacity := anticipation;
       Result.prediction_confidence := prediction_confidence;
       Result.symbolic_resonance := symbolic_resonance;
       Result.adaptation_efficiency := _compute_adaptation_efficiency self;
       Result.reservoir_state :=
         Engine.get_reservoir_state (basal_engine self);
       Result.timestamp := now |} in
  let* _ :=
    modify (fun self =>
      set_coherence_results self
        (append_capped 500 (coherence_results self) result)) in
  let* _ := _update_performance_metrics result in
  ret result.

(** [process_market_data_stream]: the [try] block with its
    [except Exception] handler. [now] is the reading of [datetime.now()]
    taken when the returned result object is created. *)
Definition process_market_data_stream (market_data : MarketDataPoint)
  (enable_prediction : bool) (now : Z) : M t Result.t :=
  try_except (process_body market_data enable_prediction now)
             (fun _ => ret (_create_fallback_result market_data now)).

(** Feeding a sequence of data points, one clock reading per point;
    returns the results in order and the final integrator. *)
Fixpoint run (self : t) (stream : list (MarketDataPoint * Z))
  : list (result Result.t) * t :=
  match stream with
  | [] => ([], self)
  | (dp, now) :: stream' =>
      let '(r, self') := process_market_data_stream dp true now self in
      let '(rs, self'') := run self' stream' in
      (r :: rs, self'')
  end.

End Integrator.

(** ** Predicates, reference definitions and concrete inputs *)

Definition unit_interval (x : R) : Prop := 0 <= x <= 1.

(** What one pass of the loop does to a single node, given the snapshot. *)
Definition node_step (external_inputs snapshot : gmap nat R)
  (node : Node.t) : Node.t :=
  let neighbor_states := Engine.neighbor_states_of snapshot node in
  Node.adapt_target_energy
    (Node.homeodynamic_learning
       (Node.update_energy node external_inputs neighbor_states)
       neighbor_states).

Definition node_activation (external_inputs snapshot : gmap nat R)
  (node : Node.t) : R :=
  Node.activation
    (Node.update_energy node external_inputs
       (Engine.neighbor_states_of snapshot node)).

(** The synchronous reference update of the specification: every node
    reads the activations of the previous step, and the three phases run
    over the whole node set one after the other. *)
Module SynchronousReference.

Definition previous_activations (ns : list Node.t) : gmap nat R :=
  Engine.current_activations ns.

Definition update_all (external_inputs previous : gmap nat R)
  (ns : list Node.t) : list Node.t :=
  map (fun node =>
         Node.update_energy node external_inputs
           (Engine.neighbor_states_of previous node)) ns.

Definition learn_all (previous : gmap nat R) (ns : list Node.t)
  : list Node.t :=
  map (fun node =>
         Node.homeodynamic_learning node
           (Engine.neighbor_states_of previous node)) ns.

Definition adapt_all (ns : list Node.t) : list Node.t :=
  map Node.adapt_target_energy ns.

Definition step (ns : list Node.t) (external_inputs : gmap nat R)
  : list Node.t * list R :=
  let previous := previous_activations ns in
  let updated := update_all external_inputs previous ns in
  let learned := learn_all previous updated in
  (adapt_all learned, map Node.activation updated).

End SynchronousReference.

(** Running the engine for several steps, one optional input map each. *)
Definition run_steps (e : Engine.t) (inputs : list (option (gmap nat R)))
  : Engine.t :=
  fold_left (fun e i => fst (Engine.update_reservoir_state e i)) inputs e.

(** Every weight of [n] is within [-2, 2] or is the weight [n0] holds
    under the same key. *)
Definition weights_clamped_or_kept (n0 n : Node.t) : Prop :=
  forall (k : nat) (w : R),
    Node.incoming_weights n !! k = Some w ->
    Rabs w <= 2 \/ Node.incoming_weights n0 !! k = Some w.

Definition weights_bounded (n : Node.t) : Prop :=
  forall (k : nat) (w : R),
    Node.incoming_weights n !! k = Some w -> Rabs w <= 2.

Definition target_in_band (n : Node.t) : Prop :=
  0.2 <= Node.target_energy n <= 0.8.

(** A magnitude far inside the doubles: products and sums of such
    numbers, as a step of the reservoir forms them, do not overflow. The
    embedding computes over the reals, so the statements about values
    that the code computes from caller-supplied numbers are made for
    moderate ones. *)
Definition moderate (x : R) : Prop := Rabs x <= 1e100.

(** The external inputs of one call of [update_reservoir_state]. *)
Definition moderate_inputs (i : option (gmap nat R)) : Prop :=
  forall (k : nat) (v : R), default ∅ i !! k = Some v -> moderate v.

(** The normal draws that become the incoming weights. *)
Definition moderate_draws (d : RandomDraws) : Prop :=
  forall i j : nat, moderate (normal_incoming d i j).

(** Every float of a configuration is moderate. *)
Definition moderate_config (cfg : BasalReservoirConfig) : Prop :=
  moderate (learning_rate cfg) /\
  moderate (energy_decay cfg) /\
  moderate (connection_radius cfg) /\
  moderate (homeodynamic_strength cfg) /\
  moderate (coherence_coupling cfg) /\
  moderate (adaptation_rate cfg).

Definition two_node_config : BasalReservoirConfig :=
  {| num_nodes := 2;
     spatial_dimension := 2;
     learning_rate := 0.01;
     energy_decay := 0.95;
     connection_radius := 0.3;
     homeodynamic_strength := 0.1;
     coherence_coupling := 0.05;
     adaptation_rate := 0.001;
     prediction_horizon := 10 |}.

(** Draws that put every node at the same point and give every incoming
    weight the normal draw [2.4] (twelve standard deviations of
    [np.random.normal(0, 0.2)]). *)
Definition heavy_draws : RandomDraws :=
  {| uniform_position := fun _ => [0.5; 0.5];
     uniform_energy := fun _ => 0.5;
     uniform_target := fun _ => 0.5;
     normal_incoming := fun _ _ => 2.4;
     normal_outgoing := fun _ _ => 0.1 |}.

(** Unremarkable draws, used to instantiate the theorems. *)
Definition plain_draws : RandomDraws :=
  {| uniform_position := fun _ => [0.5; 0.5];
     uniform_energy := fun _ => 0.5;
     uniform_target := fun _ => 0.5;
     normal_incoming := fun _ _ => 0.1;
     normal_outgoing := fun _ _ => 0.1 |}.

Definition quiet (n : Node.t) : Prop := Node.activation n = 0.

(** Engines that the public operations can produce from a constructed
    engine. *)
Inductive reachable (d : RandomDraws) (cfg : BasalReservoirConfig)
  : Engine.t -> Prop :=
| reach_init : reachable d cfg (Engine.init d cfg)
| reach_update e i :
    reachable d cfg e ->
    reachable d cfg (fst (Engine.update_reservoir_state e i))
| reach_coherence e :
    reachable d cfg e ->
    reachable d cfg (fst (Engine.compute_enhanced_coherence e))
| reach_anticipation e :
    reachable d cfg e ->
    reachable d cfg (fst (Engine.compute_anticipation_capacity e))
| reach_predict e series k :
    reachable d cfg e ->
    reachable d cfg (snd (Engine.predict_market_pattern series k e)).

(** The same, with moderate arguments only: the inputs of an update and
    the samples of a series to predict from. *)
Inductive reachable_moderate (d : RandomDraws) (cfg : BasalReservoirConfig)
  : Engine.t -> Prop :=
| reach_moderate_init : reachable_moderate d cfg (Engine.init d cfg)
| reach_moderate_update e i :
    reachable_moderate d cfg e ->
    moderate_inputs i ->
    reachable_moderate d cfg (fst (Engine.update_reservoir_state e i))
| reach_moderate_coherence e :
    reachable_moderate d cfg e ->
    reachable_moderate d cfg (fst (Engine.compute_enhanced_coherence e))
| reach_moderate_anticipation e :
    reachable_moderate d cfg e ->
    reachable_moderate d cfg (fst (Engine.compute_anticipation_capacity e))
| reach_moderate_predict e series k :
    reachable_moderate d cfg e ->
    Forall moderate series ->
    reachable_moderate d cfg
      (snd (Engine.predict_market_pattern series k e)).

Definition gct_in_unit (g : GCT.t) : Prop :=
  unit_interval (GCT.psi g) /\ unit_interval (GCT.rho g) /\
  unit_interval (GCT.q g) /\ unit_interval (GCT.f g).

Definition result_in_unit (r : Result.t) : Prop :=
  gct_in_unit (Result.traditional_gct r) /\
  gct_in_unit (Result.basal_enhanced_gct r) /\
  unit_interval (Result.prediction_confidence r) /\
  unit_interval (Result.symbolic_resonance r) /\
  unit_interval (Result.adaptation_efficiency r).

(** A computation that leaves the object as it found it. *)
Definition readonly {S A} (m : M S A) : Prop := forall s, snd (m s) = s.

(** A postcondition on the value of a computation that returns. *)
Definition returns {S A} (m : M S A) (Q : A -> Prop) : Prop :=
  forall s a s', m s = (Ok a, s') -> Q a.

(** A relation between the object before and after a computation. *)
Definition preserves {S A} (I : S -> S -> Prop) (m : M S A) : Prop :=
  forall s, I s (snd (m s)).

(** The fields of the integrator that only [process_market_data_stream]
    itself may write: the blend parameter and the market history. *)
Definition same_frame (s s' : Integrator.t) : Prop :=
  Integrator.integration_strength s' = Integrator.integration_strength s /\
  Integrator.market_history s' = Integrator.market_history s.

(** An integrator built with [integration_strength = 0]. *)
Definition zero_strength_integrator : Integrator.t :=
  {| Integrator.basal_engine := Engine.init plain_draws two_node_config;
     Integrator.integration_strength := 0;
     Integrator.market_history := [];
     Integrator.coherence_results := [];
     Integrator.prediction_accuracy_tracker := [];
     Integrator.coherence_stability_tracker := [] |}.

(** A data point whose price is zero. *)
Definition zero_price_point : MarketDataPoint :=
  {| timestamp := 0%Z;
     symbol := "TEST";
     price := 0;
     volume := 1000%Z;
     sentiment := None |}.

Definition later_point : MarketDataPoint :=
  {| timestamp := 1%Z;
     symbol := "TEST";
     price := 100;
     volume := 1000%Z;
     sentiment := None |}.

(** A result with its creation timestamp blanked. *)
Definition erase_timestamp (r : Result.t) : Result.t :=
  {| Result.traditional_gct := Result.traditional_gct r;
     Result.basal_enhanced_gct := Result.basal_enhanced_gct r;
     Result.anticipation_capacity := Result.anticipation_capacity r;
     Result.prediction_confidence := Result.prediction_confidence r;
     Result.symbolic_resonance := Result.symbolic_resonance r;
     Result.adaptation_efficiency := Result.adaptation_efficiency r;
     Result.reservoir_state := Result.reservoir_state r;
     Result.timestamp := 0%Z |}.

Definition erase_outcome (o : result Result.t) : result Result.t :=
  match o with
  | Ok r => Ok (erase_timestamp r)
  | Raise e => Raise e
  end.

Definition same_but_timestamp (r1 r2 : Result.t) : Prop :=
  erase_timestamp r1 = erase_timestamp r2.

(** Two integrators that differ at most in the timestamps of the results
    they have logged. *)
Definition sim (s1 s2 : Integrator.t) : Prop :=
  Integrator.basal_engine s1 = Integrator.basal_engine s2 /\
  Integrator.integration_strength s1 = Integrator.integration_strength s2 /\
  Integrator.market_history s1 = Integrator.market_history s2 /\
  map erase_timestamp (Integrator.coherence_results s1)
  = map erase_timestamp (Integrator.coherence_results s2) /\
  Integrator.prediction_accuracy_tracker s1
  = Integrator.prediction_accuracy_tracker s2 /\
  Integrator.coherence_stability_tracker s1
  = Integrator.coherence_stability_tracker s2.

Definition rel_result {A} (RA : A -> A -> Prop) (x1 x2 : result A) : Prop :=
  match x1, x2 with
  | Ok a1, Ok a2 => RA a1 a2
  | Raise _, Raise _ => True
  | _, _ => False
  end.

(** Two computations that, from similar integrators, return related
    values and leave similar integrators. *)
Definition related {A} (RA : A -> A -> Prop)
  (m1 m2 : M Integrator.t A) : Prop :=
  forall s1 s2, sim s1 s2 ->
    rel_result RA (fst (m1 s1)) (fst (m2 s2)) /\
    sim (snd (m1 s1)) (snd (m2 s2)).

(** A computation that neither reads nor writes the object. *)
Definition pure_comp {A} (m : M Integrator.t A) : Prop :=
  exists c, forall s, m s = (c, s).

(** The adaptation efficiency as a function of the logged blended psi. *)
Definition efficiency_of (psis : list R) : R :=
  if (length psis <? 10)%nat then 0.5 else
  let recent_coherence := last_n 10 psis in
  let earlier_coherence :=
    if (20 <=? length psis)%nat then slice_neg 20 10 psis
    else recent_coherence in
  if (0 <? length earlier_coherence)%nat then
    (tanh ((np_mean recent_coherence - np_mean earlier_coherence) * 5) + 1) / 2
  else 0.5.

Definition fresh_integrator : Integrator.t :=
  {| Integrator.basal_engine := Engine.init plain_draws two_node_config;
     Integrator.integration_strength := 0.3;
     Integrator.market_history := [];
     Integrator.coherence_results := [];
     Integrator.prediction_accuracy_tracker := [];
     Integrator.coherence_stability_tracker := [] |}.

(** What a node has recorded after [k] calls of [update_energy]. *)
Definition recorded (k : nat) (n : Node.t) : Prop :=
  length (Node.activation_history n) = Nat.min k 100 /\
  length (Node.energy_history n) = Nat.min k 100 /\
  Forall (fun a => -1 <= a <= 1) (Node.activation_history n) /\
  Forall unit_interval (Node.energy_history n) /\
  ((0 < k)%nat ->
   last (Node.activation_history n) = Some (Node.activation n) /\
   last (Node.energy_history n) = Some (Node.energy n)).

(** Two states of one node object with the same place in the network. *)
Definition same_wiring (n0 n : Node.t) : Prop :=
  Node.node_id n = Node.node_id n0 /\
  Node.position n = Node.position n0 /\
  Node.config n = Node.config n0 /\
  Node.outgoing_weights n = Node.outgoing_weights n0 /\
  dom (Node.incoming_weights n) = dom (Node.incoming_weights n0).

(** What every node of a reached engine satisfies. *)
Definition node_sound (cfg : BasalReservoirConfig) (n : Node.t) : Prop :=
  Node.config n = cfg /\
  unit_interval (Node.energy n) /\
  target_in_band n /\
  Forall unit_interval (Node.energy_history n).

(** The inputs given to the reservoir by the steps of
    [predict_market_pattern]: the encoded series at step 0, none after. *)
Definition prediction_inputs (market_inputs : gmap nat R)
  (steps : list nat) : list (option (gmap nat R)) :=
  map (fun step : nat =>
         if decide (step = 0%nat) then Some market_inputs else None) steps.

(** [h[-k]] exists and its price is exactly 0. *)
Definition zero_price_at (h : list MarketDataPoint) (k : nat) : Prop :=
  (k <= length h)%nat /\
  exists p, h !! (length h - k)%nat = Some p /\ price p = 0.

(** The engine after the reservoir update, the coherence evaluation and
    the anticipation evaluation of one call. *)
Definition engine_after_update (e : Engine.t) (inputs : gmap nat R)
  : Engine.t :=
  fst (Engine.compute_anticipation_capacity
         (fst (Engine.compute_enhanced_coherence
                 (fst (Engine.update_reservoir_state e (Some inputs)))))).

(** The four logs after [n] calls. *)
Definition logs_within (n : nat) (s : Integrator.t) : Prop :=
  length (Integrator.market_history s) = Nat.min n 1000 /\
  (length (Integrator.coherence_results s) <= Nat.min n 500)%nat /\
  (length (Integrator.prediction_accuracy_tracker s) <= Nat.min n 100)%nat /\
  (length (Integrator.coherence_stability_tracker s) <= Nat.min n 50)%nat.

(** What holds after [n] points without a zero price. *)
Definition all_processed (n : nat) (s : Integrator.t) : Prop :=
  Forall (fun p => price p <> 0) (Integrator.market_history s) /\
  length (Integrator.coherence_results s) = Nat.min n 500 /\
  length (Integrator.coherence_stability_tracker s) = Nat.min n 50.

(** [np.max] and [np.min] of a non-empty array (on an empty one NumPy
    raises; both callers guard against it). *)
Definition np_max (l : list R) : R :=
  match l with
  | [] => 0
  | x :: l' => fold_left Rmax l' x
  end.

Definition np_min (l : list R) : R :=
  match l with
  | [] => 0
  | x :: l' => fold_left Rmin l' x
  end.

(** [BasalReservoirEngine.get_performance_metrics] *)
Definition get_performance_metrics (self : Engine.t) : gmap string R :=
  list_to_map
    [ ("prediction_accuracy"%string, Engine.prediction_accuracy self);
      ("adaptation_efficiency"%string, Engine.adaptation_efficiency self);
      ("coherence_stability"%string,
         if (20 <=? length (Engine.coherence_history self))%nat
         then np_std (last_n 20 (Engine.coherence_history self))
         else 1);
      ("anticipation_range"%string,
         match Engine.anticipation_history self with
         | [] => 0
         | _ => np_max (Engine.anticipation_history self)
                - np_min (Engine.anticipation_history self)
         end) ].

(** The dictionary returned by [GCTBasalIntegrator.get_performance_summary];
    its values have different types, so it is a record here. *)
Module Summary.

Record t := mk {
  prediction_accuracy : R;
  coherence_stability : R;
  average_confidence : R;
  average_symbolic_resonance : R;
  average_anticipation_magnitude : R;
  processed_data_points : nat;
  reservoir_health : gmap string R;
  basal_engine_metrics : gmap string R
}.

End Summary.

Definition get_performance_summary (self : Integrator.t) : Summary.t :=
  let pred_accuracy :=
    match Integrator.prediction_accuracy_tracker self with
    | [] => 0
    | _ => np_mean (Integrator.prediction_accuracy_tracker self)
    end in
  let coherence_stability :=
    match Integrator.coherence_stability_tracker self with
    | [] => 0
    | _ => 1 - np_std (Integrator.coherence_stability_tracker self)
    end in
  let recent_results := last_n 10 (Integrator.coherence_results self) in
  let enough := (10 <=? length (Integrator.coherence_results self))%nat in
  let avg_confidence :=
    if enough
    then np_mean (map Result.prediction_confidence recent_results)
    else 0 in
  let avg_resonance :=
    if enough
    then np_mean (map Result.symbolic_resonance recent_results)
    else 0 in
  let avg_anticipation :=
    if enough
    then np_mean (map (fun r => Rabs (Result.anticipation_capacity r))
                      recent_results)
    else 0 in
  {| Summary.prediction_accuracy := pred_accuracy;
     Summary.coherence_stability := Rmax 0 coherence_stability;
     Summary.average_confidence := avg_confidence;
     Summary.average_symbolic_resonance := avg_resonance;
     Summary.average_anticipation_magnitude := avg_anticipation;
     Summary.processed_data_points := length (Integrator.market_history self);
     Summary.reservoir_health :=
       Engine.get_reservoir_state (Integrator.basal_engine self);
     Summary.basal_engine_metrics :=
       get_performance_metrics (Integrator.basal_engine self) |}.

(** What the logs of a running integrator hold. *)
Definition logs_sound (s : Integrator.t) : Prop :=
  Forall (fun a => a = 0 \/ a = 1) (Integrator.prediction_accuracy_tracker s)
  /\ Forall result_in_unit (Integrator.coherence_results s)
  /\ Forall unit_interval (Integrator.coherence_stability_tracker s).

(** ** BasalMarketAnalyzer: what is made of a coherence result.
    The methods of [src/ml/basal_market_analyzer.py] that score a
    prediction. They read only their arguments and the analysis
    configuration. *)
(** [MarketAnalysisConfig] *)
Module AnalysisConfig.

Record t := mk {
  symbols : list string;
  analysis_window : nat;
  prediction_horizon : nat;
  min_data_points : nat;
  confidence_threshold : R;
  enable_real_time : bool;
  enable_visualization : bool;
  save_results : bool;
  results_directory : string
}.

(** The dataclass defaults; [symbols] has none. *)
Definition defaults (symbols : list string) : t :=
  {| symbols := symbols;
     analysis_window := 100;
     prediction_horizon := 5;
     min_data_points := 20;
     confidence_threshold := 0.6;
     enable_real_time := true;
     enable_visualization := false;
     save_results := true;
     results_directory := "basal_analysis_results" |}.

End AnalysisConfig.

(** The [signals] dictionary of [_generate_trading_signals]. *)
Module Signals.

Record t := mk {
  action : string;
  strength : R;
  confidence : R;
  risk_level : string;
  reasoning : list string
}.

Definition set_strength (s : t) (x : R) : t :=
  {| action := action s;
     strength := x;
     confidence := confidence s;
     risk_level := risk_level s;
     reasoning := reasoning s |}.

Definition set_confidence (s : t) (x : R) : t :=
  {| action := action s;
     strength := strength s;
     confidence := x;
     risk_level := risk_level s;
     reasoning := reasoning s |}.

Definition set_action (s : t) (a : string) : t :=
  {| action := a;
     strength := strength s;
     confidence := confidence s;
     risk_level := risk_level s;
     reasoning := reasoning s |}.

Definition set_risk_level (s : t) (l : string) : t :=
  {| action := action s;
     strength := strength s;
     confidence := confidence s;
     risk_level := l;
     reasoning := reasoning s |}.

(** [signals['reasoning'].append(msg)] *)
Definition add_reason (s : t) (msg : string) : t :=
  {| action := action s;
     strength := strength s;
     confidence := confidence s;
     risk_level := risk_level s;
     reasoning := reasoning s ++ [msg] |}.

End Signals.

(** [MarketAlert] *)
Module Alert.

Record t := mk {
  alert_id : string;
  symbol : string;
  alert_type : string;
  severity : string;
  message : string;
  confidence : R;
  coherence_data : gmap string R;
  timestamp : Z;
  recommended_action : option string
}.

End Alert.

(** [_group_data_by_symbol]; the order in which the dictionary lists its
    keys is not modelled. *)
Definition _group_data_by_symbol (market_data : list MarketDataPoint)
  : gmap string (list MarketDataPoint) :=
  fold_left
    (fun (symbol_data : gmap string (list MarketDataPoint)) data_point =>
       let sym := symbol data_point in
       let symbol_data :=
         match symbol_data !! sym with
         | None => <[sym := []]> symbol_data
         | Some _ => symbol_data
         end in
       <[sym := default [] (symbol_data !! sym) ++ [data_point]]> symbol_data)
    market_data ∅.

Definition _calculate_confidence_scores (predicted_prices : list R)
  (coherence_result : Result.t) (historical_prices : list R) : list R :=
  let base_confidence := Result.prediction_confidence coherence_result in
  let consistency_factor :=
    if (2 <=? length predicted_prices)%nat then
      let prediction_variance := np_var predicted_prices in
      let price_scale := np_mean historical_prices in
      let normalized_variance :=
        prediction_variance / (price_scale * price_scale + 1e-8) in
      exp (- normalized_variance * 10)
    else 1 in
  let coherence_stability :=
    (GCT.psi (Result.basal_enhanced_gct coherence_result)
     + GCT.rho (Result.basal_enhanced_gct coherence_result)) / 2 in
  let resonance_factor :=
    Rmin 1 (Result.symbolic_resonance coherence_result * 2) in
  let combined_confidence :=
    base_confidence * 0.4 + consistency_factor * 0.3
    + coherence_stability * 0.2 + resonance_factor * 0.1 in
  map (fun i : nat =>
         let horizon_decay := exp (- INR i * 0.2) in
         let step_confidence := combined_confidence * horizon_decay in
         np_clip step_confidence 0 1)
      (seq 0 (length predicted_prices)).


Section Rendering.

(** The methods render numbers and times into their messages; the
    renderings ([f"{x:.2f}"], [f"{x:.3f}"], [str(x)],
    [strftime('%Y%m%d_%H%M%S')]) are left abstract. *)
Variable fmt2 : R -> string.
Variable fmt3 : R -> string.
Variable repr : R -> string.
Variable strftime : Z -> string.

Definition _generate_trading_signals (config : AnalysisConfig.t)
  (coherence_result : Result.t) (predicted_prices confidence_scores : list R)
  (risk_assessment : gmap string R) : Signals.t :=
  let signals :=
    {| Signals.action := "HOLD";
       Signals.strength := 0;
       Signals.confidence := 0;
       Signals.risk_level := "MEDIUM";
       Signals.reasoning := [] |} in
  let signals :=
    if ((2 <=? length predicted_prices)%nat
        && match confidence_scores with [] => false | _ => true end)%bool
    then
      let avg_confidence := np_mean confidence_scores in
      let price_direction :=
        neg_index predicted_prices 1 0 - nth 0 predicted_prices 0 in
      if Rgt_dec avg_confidence (AnalysisConfig.confidence_threshold config)
      then
        let signals :=
          if Rgt_dec price_direction 0 then
            Signals.add_reason
              (Signals.set_strength
                 (Signals.set_action signals "BUY")
                 (Rmin 1 (Rabs price_direction * avg_confidence * 2)))
              ("Upward price prediction with " ++ fmt2 avg_confidence
               ++ " confidence")
          else if Rlt_dec price_direction 0 then
            Signals.add_reason
              (Signals.set_strength
                 (Signals.set_action signals "SELL")
                 (Rmin 1 (Rabs price_direction * avg_confidence * 2)))
              ("Downward price prediction with " ++ fmt2 avg_confidence
               ++ " confidence")
          else signals in
        Signals.set_confidence signals avg_confidence
      else
        Signals.add_reason signals
          ("Confidence too low: " ++ fmt2 avg_confidence ++ " < "
           ++ repr (AnalysisConfig.confidence_threshold config))
    else signals in
  let coherence_strength :=
    (GCT.psi (Result.basal_enhanced_gct coherence_result)
     + GCT.rho (Result.basal_enhanced_gct coherence_result)) / 2 in
  let signals :=
    if Rgt_dec coherence_strength 0.8 then
      Signals.add_reason
        (Signals.set_strength signals (Signals.strength signals * 1.2))
        "High market coherence detected"
    else if Rlt_dec coherence_strength 0.3 then
      Signals.add_reason
        (Signals.set_strength signals (Signals.strength signals * 0.5))
        "Low market coherence - reduced confidence"
    else signals in
  let overall_risk :=
    default 0.5 (risk_assessment !! "overall_risk"%string) in
  let signals :=
    if Rgt_dec overall_risk 0.7 then
      Signals.add_reason
        (Signals.set_strength
           (Signals.set_risk_level signals "HIGH")
           (Signals.strength signals * 0.6))
        "High market risk detected"
    else if Rlt_dec overall_risk 0.3 then
      Signals.add_reason
        (Signals.set_strength
           (Signals.set_risk_level signals "LOW")
           (Signals.strength signals * 1.1))
        "Low market risk environment"
    else signals in
  Signals.set_strength signals (np_clip (Signals.strength signals) 0 1).

(** [_generate_alerts]; its [prediction] argument is not used by the
    body and is left out; [now] is the reading of [datetime.now()]. *)
Definition _generate_alerts (symbol : string) (coherence_result : Result.t)
  (now : Z) : list Alert.t :=
  let alerts : list Alert.t := [] in
  let timestamp := now in
  let coherence_psi := GCT.psi (Result.basal_enhanced_gct coherence_result) in
  let alerts :=
    if Rgt_dec coherence_psi 0.9 then
      alerts ++
      [ {| Alert.alert_id :=
             symbol ++ "_coherence_spike_" ++ strftime timestamp;
           Alert.symbol := symbol;
           Alert.alert_type := "coherence_spike";
           Alert.severity := "high";
           Alert.message :=
             "Extremely high market coherence detected: "
             ++ fmt3 coherence_psi;
           Alert.confidence := Result.prediction_confidence coherence_result;
           Alert.coherence_data :=
             list_to_map
               [ ("psi"%string, coherence_psi);
                 ("rho"%string,
                    GCT.rho (Result.basal_enhanced_gct coherence_result));
                 ("q"%string,
                    GCT.q (Result.basal_enhanced_gct coherence_result));
                 ("f"%string,
                    GCT.f (Result.basal_enhanced_gct coherence_result)) ];
           Alert.timestamp := timestamp;
           Alert.recommended_action :=
             Some "Monitor for potential breakout or reversal"%string |} ]
    else alerts in
  let anticipation := Rabs (Result.anticipation_capacity coherence_result) in
  let alerts :=
    if Rgt_dec anticipation 0.5 then
      let severity :=
        if Rgt_dec anticipation 0.8 then "critical"%string
        else "high"%string in
      alerts ++
      [ {| Alert.alert_id :=
             symbol ++ "_anticipation_anomaly_" ++ strftime timestamp;
           Alert.symbol := symbol;
           Alert.alert_type := "anticipation_anomaly";
           Alert.severity := severity;
           Alert.message :=
             "Strong anticipatory signal detected: " ++ fmt3 anticipation;
           Alert.confidence := Result.prediction_confidence coherence_result;
           Alert.coherence_data :=
             list_to_map [ ("anticipation"%string, anticipation) ];
           Alert.timestamp := timestamp;
           Alert.recommended_action :=
             Some "Prepare for significant price movement"%string |} ]
    else alerts in
  let resonance := Result.symbolic_resonance coherence_result in
  let alerts :=
    if Rlt_dec resonance 0.2 then
      alerts ++
      [ {| Alert.alert_id :=
             symbol ++ "_resonance_breakdown_" ++ strftime timestamp;
           Alert.symbol := symbol;
           Alert.alert_type := "resonance_breakdown";
           Alert.severity := "medium";
           Alert.message :=
             "Low symbolic resonance: " ++ fmt3 resonance
             ++ " - Market may be disconnected";
           Alert.confidence := Result.prediction_confidence coherence_result;
           Alert.coherence_data :=
             list_to_map [ ("resonance"%string, resonance) ];
           Alert.timestamp := timestamp;
           Alert.recommended_action :=
             Some "Exercise caution - market signals may be unreliable"%string
        |} ]
    else alerts in
  alerts.

End Rendering.

(** A configuration that no check of the dataclass rejects: the
    adaptation rate is negative (and the energy does not decay). *)
Definition runaway_config : BasalReservoirConfig :=
  {| num_nodes := 2;
     spatial_dimension := 2;
     learning_rate := 0.01;
     energy_decay := 1;
     connection_radius := 0.3;
     homeodynamic_strength := 0.1;
     coherence_coupling := 0.05;
     adaptation_rate := -1;
     prediction_horizon := 10 |}.

(** A node of that configuration that has idled for [k] steps at its
    target energy. *)
Definition idle (k : nat) (n : Node.t) : Prop :=
  Node.config n = runaway_config /\
  Node.activation n = 0 /\
  Node.energy n = 0.5 /\
  Node.target_energy n = 0.5 /\
  Node.activation_history n = repeat 0 k /\
  Node.energy_history n = repeat 0.5 k.

(** ** Doubles with their special values.
    The embedding above computes over the reals. This module adds what
    the reals lack, the two infinities and NaN of IEEE 754 doubles, to
    evaluate the one computation whose overflow is reported: a finite
    result whose magnitude reaches the overflow threshold becomes an
    infinity, and the special values combine as IEEE prescribes.
    Rounding of finite results is not modelled, and a zero is the
    positive zero (the divisors below are sums, whose zero is [+0.0]). *)
Module Double.

Inductive t :=
| Fin (x : R)
| PInf
| NInf
| NaN.

(** Under rounding to nearest, a result of magnitude [2^1024 - 2^970] or
    more becomes an infinity (the largest double is [2^1024 - 2^971]). *)
Definition overflow_threshold : R := IZR (2 ^ 1024 - 2 ^ 970).

Definition round (x : R) : t :=
  if Rle_dec overflow_threshold (Rabs x)
  then (if Rlt_dec 0 x then PInf else NInf)
  else Fin x.

Definition opp (a : t) : t :=
  match a with
  | Fin x => Fin (- x)
  | PInf => NInf
  | NInf => PInf
  | NaN => NaN
  end.

Definition add (a b : t) : t :=
  match a, b with
  | NaN, _ | _, NaN => NaN
  | PInf, NInf | NInf, PInf => NaN
  | PInf, _ | _, PInf => PInf
  | NInf, _ | _, NInf => NInf
  | Fin x, Fin y => round (x + y)
  end.

Definition sub (a b : t) : t := add a (opp b).

Definition mul (a b : t) : t :=
  match a, b with
  | NaN, _ | _, NaN => NaN
  | Fin x, Fin y => round (x * y)
  | Fin x, PInf | PInf, Fin x =>
      if Req_EM_T x 0 then NaN else if Rlt_dec 0 x then PInf else NInf
  | Fin x, NInf | NInf, Fin x =>
      if Req_EM_T x 0 then NaN else if Rlt_dec 0 x then NInf else PInf
  | PInf, PInf | NInf, NInf => PInf
  | PInf, NInf | NInf, PInf => NInf
  end.

(** NumPy's division: a zero divisor gives an infinity or NaN (and a
    warning), never an exception. *)
Definition div (a b : t) : t :=
  match a, b with
  | NaN, _ | _, NaN => NaN
  | Fin x, Fin y =>
      if Req_EM_T y 0 then
        if Req_EM_T x 0 then NaN else if Rlt_dec 0 x then PInf else NInf
      else round (x / y)
  | Fin _, PInf | Fin _, NInf => Fin 0
  | PInf, Fin y => if Rle_dec 0 y then PInf else NInf
  | NInf, Fin y => if Rle_dec 0 y then NInf else PInf
  | PInf, PInf | PInf, NInf | NInf, PInf | NInf, NInf => NaN
  end.

Definition sqrt (a : t) : t :=
  match a with
  | Fin x => if Rlt_dec x 0 then NaN else Fin (R_sqrt.sqrt x)
  | PInf => PInf
  | NInf => NaN
  | NaN => NaN
  end.

Definition exp (a : t) : t :=
  match a with
  | Fin x => round (Rtrigo_def.exp x)
  | PInf => PInf
  | NInf => Fin 0
  | NaN => NaN
  end.

(** [np.clip(a, lo, hi)] with finite bounds is
    [minimum(maximum(a, lo), hi)]; both propagate NaN. *)
Definition np_clip (a : t) (lo hi : R) : t :=
  match a with
  | Fin x => Fin (Rmin (Rmax x lo) hi)
  | PInf => Fin hi
  | NInf => Fin (Rmin lo hi)
  | NaN => NaN
  end.

(** The sum of a short array, accumulated from the left. (For eight
    elements or more NumPy adds in blocks; the order only matters when
    partial sums of both signs overflow.) *)
Definition np_sum (l : list t) : t := fold_left add l (Fin 0).

Definition np_mean (l : list t) : t :=
  div (np_sum l) (Fin (INR (length l))).

Definition np_var (l : list t) : t :=
  let arrmean := np_mean l in
  np_mean (map (fun x => let d := sub x arrmean in mul d d) l).

Definition np_std (l : list t) : t := sqrt (np_var l).

(** A double that is a number of the interval [0,1]. *)
Definition in_unit (a : t) : Prop :=
  match a with
  | Fin x => 0 <= x <= 1
  | _ => False
  end.

(** The [psi] of the vector that [_compute_traditional_gct] returns,
    from the market history the call has just appended to. *)
Definition traditional_psi (self : Integrator.t) : t :=
  let recent_prices :=
    map (fun dp => Fin (price dp))
        (last_n 20 (Integrator.market_history self)) in
  if (length recent_prices <? 5)%nat then Fin 0.5 else
  let prices10 := last_n 10 recent_prices in
  let price_volatility :=
    div (np_std prices10) (add (np_mean prices10) (Fin 1e-8)) in
  let psi := exp (mul (Fin (- 2)) price_volatility) in
  np_clip psi 0 1.

(** The [psi] of the vector that [_integrate_coherence_approaches]
    returns. *)
Definition enhanced_psi (self : Integrator.t)
  (traditional_psi basal_coherence : t) : t :=
  let alpha := Integrator.integration_strength self in
  let enhanced_psi :=
    add (mul (sub (Fin 1) (Fin alpha)) traditional_psi)
        (mul (Fin alpha) basal_coherence) in
  np_clip enhanced_psi 0 1.

End Double.

(** A data point with a large price, a valid double. *)
Definition huge_point : MarketDataPoint :=
  {| timestamp := 0%Z;
     symbol := "TEST";
     price := 1e308;
     volume := 1000%Z;
     sentiment := None |}.

(** A data point as the specification admits it, with magnitudes far
    inside the doubles: a positive price between 1e-50 and 1e50, a
    volume between 0 and 10^18, and a sentiment, when present, in
    [-1,1]. *)
Definition valid_point (dp : MarketDataPoint) : Prop :=
  1e-50 <= price dp <= 1e50 /\
  (0 <= volume dp <= 10 ^ 18)%Z /\
  match sentiment dp with
  | Some x => -1 <= x <= 1
  | None => True
  end.

(** * Properties *)

(** ** Numerics *)

Lemma np_clip_bounds (x lo hi : R) : lo <= hi -> lo <= np_clip x lo hi <= hi.
Proof.
  intros Hle. unfold np_clip, Rmin, Rmax.
  destruct (Rle_dec x lo); destruct (Rle_dec _ hi); lra.
Qed.

Lemma np_clip_id (x lo hi : R) : lo <= x <= hi -> np_clip x lo hi = x.
Proof.
  intros Hx. unfold np_clip, Rmin, Rmax.
  destruct (Rle_dec x lo); destruct (Rle_dec _ hi); lra.
Qed.

Lemma np_clip_unit (x : R) : unit_interval (np_clip x 0 1).
Proof. apply np_clip_bounds. lra. Qed.

Lemma tanh_bounds (x : R) : -1 < tanh x < 1.
Proof.
  unfold tanh, sinh, cosh.
  pose proof (exp_pos x) as Hp. pose proof (exp_pos (- x)) as Hn.
  set (a := exp x) in *. set (b := exp (- x)) in *.
  replace ((a - b) / 2 / ((a + b) / 2)) with ((a - b) / (a + b))
    by (field; lra).
  split.
  - apply Rmult_lt_reg_r with (a + b); [lra|].
    unfold Rdiv. rewrite Rmult_assoc, Rinv_l by lra. lra.
  - apply Rmult_lt_reg_r with (a + b); [lra|].
    unfold Rdiv. rewrite Rmult_assoc, Rinv_l by lra. lra.
Qed.

Lemma tanh_0 : tanh 0 = 0.
Proof.
  unfold tanh, sinh. rewrite Ropp_0, exp_0. unfold Rdiv.
  replace (1 - 1) with 0 by lra. lra.
Qed.

Lemma tanh_unit (x : R) : unit_interval ((tanh x + 1) / 2).
Proof. pose proof (tanh_bounds x). unfold unit_interval. lra. Qed.

Lemma fold_left_Rplus_acc (l : list R) (a : R) :
  fold_left Rplus l a = a + fold_left Rplus l 0.
Proof.
  revert a. induction l as [|x l IH]; intros a; simpl.
  - lra.
  - rewrite IH, (IH (0 + x)). lra.
Qed.

Lemma py_sum_cons (x : R) (l : list R) : py_sum (x :: l) = x + py_sum l.
Proof.
  unfold py_sum. simpl. rewrite fold_left_Rplus_acc. lra.
Qed.

Lemma py_sum_nil : py_sum [] = 0.
Proof. reflexivity. Qed.

Lemma py_sum_pos (l : list R) :
  l <> [] -> Forall (fun x => 0 < x) l -> 0 < py_sum l.
Proof.
  intros Hne Hall. destruct l as [|x l]; [congruence|].
  clear Hne. revert x Hall. induction l as [|y l IH]; intros x Hall.
  - inversion Hall; subst. rewrite py_sum_cons, py_sum_nil. lra.
  - inversion Hall as [|? ? Hx Hrest]; subst.
    rewrite py_sum_cons. specialize (IH y Hrest). lra.
Qed.

(** ** The node loop *)

Lemma update_iteration_at (ext snap : gmap nat R) (pre post : list Node.t)
  (node : Node.t) (acc : list R) :
  Engine.update_iteration ext snap (pre ++ node :: post, acc) (length pre)
  = (pre ++ node_step ext snap node :: post,
     acc ++ [node_activation ext snap node]).
Proof.
  unfold Engine.update_iteration. simpl.
  rewrite list_lookup_middle by reflexivity.
  f_equal.
  rewrite insert_app_r_alt by lia.
  rewrite Nat.sub_diag. reflexivity.
Qed.

Lemma update_loop_from (ext snap : gmap nat R) (todo pre : list Node.t)
  (acc : list R) :
  fold_left (Engine.update_iteration ext snap)
            (seq (length pre) (length todo)) (pre ++ todo, acc)
  = (pre ++ map (node_step ext snap) todo,
     acc ++ map (node_activation ext snap) todo).
Proof.
  revert pre acc. induction todo as [|node todo IH]; intros pre acc.
  - simpl. rewrite !app_nil_r. reflexivity.
  - simpl. rewrite update_iteration_at.
    replace (pre ++ node_step ext snap node :: todo)
      with ((pre ++ [node_step ext snap node]) ++ todo)
      by (rewrite <- app_assoc; reflexivity).
    replace (S (length pre)) with (length (pre ++ [node_step ext snap node]))
      by (rewrite length_app; simpl; lia).
    rewrite IH. rewrite <- !app_assoc. reflexivity.
Qed.

Lemma update_loop (ext snap : gmap nat R) (ns : list Node.t) :
  fold_left (Engine.update_iteration ext snap)
            (seq 0 (length ns)) (ns, [])
  = (map (node_step ext snap) ns, map (node_activation ext snap) ns).
Proof. exact (update_loop_from ext snap ns [] []). Qed.

Lemma update_reservoir_state_eq (e : Engine.t) (inputs : option (gmap nat R)) :
  Engine.update_reservoir_state e inputs
  = (Engine.set_nodes e
       (map (node_step (default ∅ inputs)
                       (Engine.current_activations (Engine.nodes e)))
            (Engine.nodes e)),
     map (node_activation (default ∅ inputs)
                          (Engine.current_activations (Engine.nodes e)))
         (Engine.nodes e)).
Proof.
  unfold Engine.update_reservoir_state. rewrite update_loop. reflexivity.
Qed.

(** ** Node methods: what they leave unchanged *)

Lemma update_energy_id n ext ns :
  Node.node_id (Node.update_energy n ext ns) = Node.node_id n.
Proof. unfold Node.update_energy. destruct (_ <? _)%nat; reflexivity. Qed.

Lemma update_energy_weights n ext ns :
  Node.incoming_weights (Node.update_energy n ext ns)
  = Node.incoming_weights n.
Proof. unfold Node.update_energy. destruct (_ <? _)%nat; reflexivity. Qed.

Lemma update_energy_config n ext ns :
  Node.config (Node.update_energy n ext ns) = Node.config n.
Proof. unfold Node.update_energy. destruct (_ <? _)%nat; reflexivity. Qed.

Lemma update_energy_target n ext ns :
  Node.target_energy (Node.update_energy n ext ns) = Node.target_energy n.
Proof. unfold Node.update_energy. destruct (_ <? _)%nat; reflexivity. Qed.

Lemma update_energy_energy n ext ns :
  unit_interval (Node.energy (Node.update_energy n ext ns)).
Proof.
  unfold Node.update_energy. destruct (_ <? _)%nat; simpl; apply np_clip_unit.
Qed.

Lemma neighbor_states_of_update snap n ext ns :
  Engine.neighbor_states_of snap (Node.update_energy n ext ns)
  = Engine.neighbor_states_of snap n.
Proof.
  unfold Engine.neighbor_states_of.
  rewrite update_energy_id, update_energy_weights. reflexivity.
Qed.

Lemma learning_fields n ns :
  let n' := Node.homeodynamic_learning n ns in
  Node.node_id n' = Node.node_id n /\
  Node.config n' = Node.config n /\
  Node.energy n' = Node.energy n /\
  Node.target_energy n' = Node.target_energy n /\
  Node.activation n' = Node.activation n /\
  Node.energy_history n' = Node.energy_history n /\
  Node.activation_history n' = Node.activation_history n.
Proof.
  unfold Node.homeodynamic_learning.
  destruct (decide _); [tauto|]. destruct (Rlt_dec _ _); simpl; tauto.
Qed.

Lemma adapt_fields n :
  let n' := Node.adapt_target_energy n in
  Node.node_id n' = Node.node_id n /\
  Node.config n' = Node.config n /\
  Node.energy n' = Node.energy n /\
  Node.activation n' = Node.activation n /\
  Node.incoming_weights n' = Node.incoming_weights n /\
  Node.energy_history n' = Node.energy_history n /\
  Node.activation_history n' = Node.activation_history n.
Proof.
  unfold Node.adapt_target_energy.
  destruct (_ <=? _)%nat; [|tauto].
  destruct (Rlt_dec _ _); [simpl; tauto|].
  destruct (Rgt_dec _ _); simpl; tauto.
Qed.

Lemma sync_step_eq (ns : list Node.t) (ext : gmap nat R) :
  SynchronousReference.step ns ext
  = (map (node_step ext (Engine.current_activations ns)) ns,
     map (node_activation ext (Engine.current_activations ns)) ns).
Proof.
  unfold SynchronousReference.step, SynchronousReference.adapt_all,
    SynchronousReference.learn_all, SynchronousReference.update_all,
    SynchronousReference.previous_activations.
  rewrite !map_map. f_equal.
  apply map_ext. intros n. unfold node_step.
  rewrite neighbor_states_of_update. reflexivity.
Qed.

(** C9. Within one engine step the sequential, in-place loop over the
    nodes computes exactly the synchronous reference update: the new node
    set and the returned activations are those obtained when every node
    reads the activation snapshot of the previous step and the phases
    update-all, learn-all, adapt-all run one after the other. *)
Theorem update_reservoir_state_synchronous
  (e : Engine.t) (inputs : option (gmap nat R)) :
  Engine.update_reservoir_state e inputs
  = (Engine.set_nodes e
       (fst (SynchronousReference.step (Engine.nodes e) (default ∅ inputs))),
     snd (SynchronousReference.step (Engine.nodes e) (default ∅ inputs))).
Proof.
  rewrite update_reservoir_state_eq, sync_step_eq. reflexivity.
Qed.

(** ** Learning clamps what it writes *)

Lemma Rabs_clip_2 (x : R) : Rabs (np_clip x (-2) 2) <= 2.
Proof.
  pose proof (np_clip_bounds x (-2) 2 ltac:(lra)).
  apply Rabs_le. lra.
Qed.

Lemma learn_fold_clamped (rate err total : R) (w0 ns : gmap nat R) :
  forall (k : nat) (w : R),
    map_fold (Node.learn_item rate err total) w0 ns !! k = Some w ->
    Rabs w <= 2 \/ w0 !! k = Some w.
Proof.
  apply (map_fold_weak_ind
           (fun (r : gmap nat R) (_ : gmap nat R) =>
              forall k w, r !! k = Some w -> Rabs w <= 2 \/ w0 !! k = Some w)).
  - intros k w Hk. right. exact Hk.
  - intros i x m r _ IH k w. unfold Node.learn_item.
    destruct (r !! i) as [cw|] eqn:Hi; [|apply IH].
    destruct (decide (i = k)) as [->|Hne].
    + rewrite lookup_insert_eq. intros [= <-]. left. apply Rabs_clip_2.
    + rewrite lookup_insert_ne by exact Hne. apply IH.
Qed.

Lemma learning_weights (n : Node.t) (ns : gmap nat R) :
  weights_clamped_or_kept n (Node.homeodynamic_learning n ns).
Proof.
  unfold weights_clamped_or_kept, Node.homeodynamic_learning.
  intros k w. destruct (decide _); [auto|].
  destruct (Rlt_dec _ _); [auto|]. simpl. apply learn_fold_clamped.
Qed.

Lemma node_step_fields (ext snap : gmap nat R) (n : Node.t) :
  let n' := node_step ext snap n in
  Node.node_id n' = Node.node_id n /\
  Node.config n' = Node.config n /\
  unit_interval (Node.energy n') /\
  weights_clamped_or_kept n n'.
Proof.
  unfold node_step.
  set (ns := Engine.neighbor_states_of snap n).
  set (n1 := Node.update_energy n ext ns).
  set (n2 := Node.homeodynamic_learning n1 ns).
  destruct (learning_fields n1 ns) as (Hid & Hcfg & Hen & _).
  destruct (adapt_fields n2) as (Hid' & Hcfg' & Hen' & _ & Hw' & _).
  fold n2 in Hid, Hcfg, Hen. simpl.
  repeat split.
  - rewrite Hid', Hid. apply update_energy_id.
  - rewrite Hcfg', Hcfg. apply update_energy_config.
  - rewrite Hen', Hen. apply update_energy_energy.
  - rewrite Hen', Hen. apply update_energy_energy.
  - intros k w. rewrite Hw'. intros Hk.
    destruct (learning_weights n1 ns k w Hk) as [Hb|Hk1]; [left; exact Hb|].
    right. unfold n1 in Hk1. rewrite update_energy_weights in Hk1. exact Hk1.
Qed.

Lemma adapt_target_band (n : Node.t) :
  0 <= adaptation_rate (Node.config n) ->
  target_in_band n -> target_in_band (Node.adapt_target_energy n).
Proof.
  unfold target_in_band, Node.adapt_target_energy. intros Hr Ht.
  destruct (_ <=? _)%nat; [|exact Ht].
  destruct (Rlt_dec _ _).
  - simpl. unfold Rmax. destruct (Rle_dec _ _); lra.
  - destruct (Rgt_dec _ _); [|exact Ht].
    simpl. unfold Rmin. destruct (Rle_dec _ _); lra.
Qed.

Lemma node_step_target (ext snap : gmap nat R) (n : Node.t) :
  0 <= adaptation_rate (Node.config n) ->
  target_in_band n -> target_in_band (node_step ext snap n).
Proof.
  intros Hr Ht. unfold node_step.
  set (ns := Engine.neighbor_states_of snap n).
  set (n1 := Node.update_energy n ext ns).
  destruct (learning_fields n1 ns) as (_ & Hcfg & _ & Htg & _).
  apply adapt_target_band.
  - rewrite Hcfg. unfold n1. rewrite update_energy_config. exact Hr.
  - unfold target_in_band. rewrite Htg. unfold n1.
    rewrite update_energy_target. exact Ht.
Qed.

(** ** Invariants of a run *)

Lemma nodes_update (e : Engine.t) (i : option (gmap nat R)) :
  Engine.nodes (fst (Engine.update_reservoir_state e i))
  = map (node_step (default ∅ i)
                   (Engine.current_activations (Engine.nodes e)))
        (Engine.nodes e).
Proof. rewrite update_reservoir_state_eq. reflexivity. Qed.

Lemma run_steps_cons (e : Engine.t) (i : option (gmap nat R))
  (inputs : list (option (gmap nat R))) :
  run_steps e (i :: inputs)
  = run_steps (fst (Engine.update_reservoir_state e i)) inputs.
Proof. reflexivity. Qed.

Lemma run_steps_rel (Q : Node.t -> Node.t -> Prop) :
  (forall ext snap b n, Q b n -> Q b (node_step ext snap n)) ->
  forall (inputs : list (option (gmap nat R))) (base : list Node.t)
         (e : Engine.t),
    Forall2 Q base (Engine.nodes e) ->
    Forall2 Q base (Engine.nodes (run_steps e inputs)).
Proof.
  intros Hstep inputs. induction inputs as [|i inputs IH]; intros base e H.
  - exact H.
  - rewrite run_steps_cons. apply IH. rewrite nodes_update.
    apply Forall2_fmap_r. eapply Forall2_impl; [exact H|].
    intros b n. apply Hstep.
Qed.

Lemma Forall2_diag {A} (Q : A -> A -> Prop) (l : list A) :
  Forall (fun x => Q x x) l -> Forall2 Q l l.
Proof. induction 1; constructor; assumption. Qed.

(** ** The constructor *)

Lemma init_nodes_lookup (d : RandomDraws) (cfg : BasalReservoirConfig)
  (i : nat) (n : Node.t) :
  Engine.nodes (Engine.init d cfg) !! i = Some n ->
  Node.node_id n = i /\
  Node.config n = cfg /\
  Node.energy n = uniform_energy d i /\
  Node.target_energy n = uniform_target d i /\
  Node.activation n = 0.
Proof.
  unfold Engine.init, Engine._initialize_connection_weights. simpl.
  rewrite list_lookup_imap.
  destruct (imap _ _ !! i) as [n0|] eqn:H0; [|discriminate].
  simpl. intros [= <-]. simpl.
  rewrite list_lookup_imap in H0.
  destruct (map _ _ !! i) as [pos|]; [|discriminate].
  simpl in H0. injection H0 as <-. simpl. tauto.
Qed.

Lemma init_nodes_Forall (d : RandomDraws) (cfg : BasalReservoirConfig)
  (P : Node.t -> Prop) :
  (forall i n, Engine.nodes (Engine.init d cfg) !! i = Some n -> P n) ->
  Forall P (Engine.nodes (Engine.init d cfg)).
Proof. intros H. apply Forall_lookup. exact H. Qed.

(** ** A reservoir at rest stays at rest and does not learn *)

Lemma dict_sum_zero (g : nat -> R -> R) (m : gmap nat R) :
  (forall k v, m !! k = Some v -> g k v = 0) -> dict_sum g m = 0.
Proof.
  unfold dict_sum.
  apply (map_fold_weak_ind
           (fun (r : R) (m : gmap nat R) =>
              (forall k v, m !! k = Some v -> g k v = 0) -> r = 0)).
  - intros _. reflexivity.
  - intros i x m' r Hi IH H.
    rewrite IH.
    + rewrite (H i x) by apply lookup_insert_eq. lra.
    + intros k v Hk. apply H.
      rewrite lookup_insert_ne; [exact Hk|]. intros ->. congruence.
Qed.

Lemma current_activations_quiet_from (ns : list Node.t) (acc : gmap nat R) :
  Forall quiet ns ->
  (forall k v, acc !! k = Some v -> v = 0) ->
  forall k v,
    fold_left (fun d node => <[Node.node_id node := Node.activation node]> d)
              ns acc !! k = Some v -> v = 0.
Proof.
  intros Hq. revert acc. induction Hq as [|n ns Hn _ IH]; intros acc Hacc.
  - exact Hacc.
  - simpl. apply IH. intros k v.
    destruct (decide (Node.node_id n = k)) as [->|Hne].
    + rewrite lookup_insert_eq. intros [= <-]. exact Hn.
    + rewrite lookup_insert_ne by exact Hne. apply Hacc.
Qed.

Lemma current_activations_quiet (ns : list Node.t) :
  Forall quiet ns ->
  forall k v, Engine.current_activations ns !! k = Some v -> v = 0.
Proof.
  intros Hq. apply current_activations_quiet_from; [exact Hq|].
  intros k v. rewrite lookup_empty. discriminate.
Qed.

Lemma neighbor_states_quiet (snap : gmap nat R) (n : Node.t) :
  (forall k v, snap !! k = Some v -> v = 0) ->
  forall k v, Engine.neighbor_states_of snap n !! k = Some v -> v = 0.
Proof.
  intros Hs k v. unfold Engine.neighbor_states_of.
  rewrite map_lookup_filter_Some. intros [Hk _]. eapply Hs, Hk.
Qed.

Lemma update_energy_quiet (n : Node.t) (ns : gmap nat R) :
  (forall k v, ns !! k = Some v -> v = 0) ->
  quiet (Node.update_energy n ∅ ns).
Proof.
  intros Hns. unfold quiet, Node.update_energy.
  assert (Hin : dict_sum
                  (fun source_id signal =>
                     dict_get0 (Node.incoming_weights n) source_id * signal)
                  (∅ : gmap nat R) = 0)
    by (apply dict_sum_zero; intros k v; rewrite lookup_empty; discriminate).
  assert (Hnb : dict_sum
                  (fun neighbor_id act =>
                     dict_get0 (Node.incoming_weights n) neighbor_id * act)
                  ns = 0)
    by (apply dict_sum_zero; intros k v Hk; rewrite (Hns k v Hk); lra).
  rewrite Hin, Hnb.
  replace (0 + 0.8 * 0) with 0 by lra.
  destruct (_ <? _)%nat; simpl; apply tanh_0.
Qed.

Lemma learning_quiet (n : Node.t) (ns : gmap nat R) :
  (forall k v, ns !! k = Some v -> v = 0) ->
  Node.homeodynamic_learning n ns = n.
Proof.
  intros Hns. unfold Node.homeodynamic_learning.
  destruct (decide _); [reflexivity|].
  rewrite dict_sum_zero.
  - rewrite Rabs_R0. destruct (Rlt_dec 0 1e-6); [reflexivity|lra].
  - intros k v Hk. unfold dict_get0 at 1. rewrite Hk. simpl.
    rewrite (Hns k v Hk). lra.
Qed.

Lemma node_step_quiet (snap : gmap nat R) (n : Node.t) :
  (forall k v, snap !! k = Some v -> v = 0) ->
  quiet (node_step ∅ snap n) /\
  Node.incoming_weights (node_step ∅ snap n) = Node.incoming_weights n.
Proof.
  intros Hs. unfold node_step.
  pose proof (neighbor_states_quiet snap n Hs) as Hns.
  rewrite learning_quiet by exact Hns.
  destruct (adapt_fields
              (Node.update_energy n ∅ (Engine.neighbor_states_of snap n)))
    as (_ & _ & _ & Hact & Hw & _).
  split.
  - unfold quiet. rewrite Hact. apply update_energy_quiet, Hns.
  - rewrite Hw. apply update_energy_weights.
Qed.

Lemma silent_run (k : nat) (e : Engine.t) :
  Forall quiet (Engine.nodes e) ->
  Forall quiet (Engine.nodes (run_steps e (repeat None k))) /\
  map Node.incoming_weights (Engine.nodes (run_steps e (repeat None k)))
  = map Node.incoming_weights (Engine.nodes e).
Proof.
  revert e. induction k as [|k IH]; intros e Hq.
  - split; [exact Hq|reflexivity].
  - change (repeat None (S k)) with (@None (gmap nat R) :: repeat None k).
    rewrite run_steps_cons.
    pose proof (current_activations_quiet _ Hq) as Hs.
    assert (Hq' : Forall quiet
                    (Engine.nodes (fst (Engine.update_reservoir_state e None)))).
    { rewrite nodes_update. apply Forall_fmap, Forall_forall.
      intros n _. apply node_step_quiet, Hs. }
    destruct (IH _ Hq') as [IHq IHw]. split; [exact IHq|].
    rewrite IHw, nodes_update, map_map. apply map_ext.
    intros n. apply node_step_quiet, Hs.
Qed.

Lemma init_quiet (d : RandomDraws) (cfg : BasalReservoirConfig) :
  Forall quiet (Engine.nodes (Engine.init d cfg)).
Proof.
  apply init_nodes_Forall. intros i n H.
  apply init_nodes_lookup in H. unfold quiet. tauto.
Qed.

Lemma coincident_distance :
  np_linalg_norm_diff [0.5; 0.5] [0.5; 0.5] = 0.
Proof.
  unfold np_linalg_norm_diff. simpl.
  rewrite py_sum_cons, py_sum_cons, py_sum_nil.
  assert (E : (0.5 - 0.5) * (0.5 - 0.5) + ((0.5 - 0.5) * (0.5 - 0.5) + 0) = 0)
    by ring.
  rewrite E. apply sqrt_0.
Qed.

Lemma heavy_init_weight :
  exists n,
    Engine.nodes (Engine.init heavy_draws two_node_config) !! 0%nat = Some n /\
    Node.incoming_weights n !! 1%nat = Some 2.4.
Proof.
  eexists. split; [reflexivity|].
  cbn -[np_linalg_norm_diff decide].
  rewrite coincident_distance.
  unfold Engine.draw_weights. cbn -[decide].
  destruct (decide (1%nat <> 0%nat)) as [_|Hn];
    [|exfalso; apply Hn; discriminate].
  destruct (decide (0%nat <> 0%nat)) as [Hn|_]; [congruence|].
  destruct (Rlt_dec 0 0.3) as [_|Hn]; [|exfalso; apply Hn; lra].
  assert (E : exp (- 0 / (0.3 / 2)) = 1)
    by (unfold Rdiv; rewrite Ropp_0, Rmult_0_l; apply exp_0).
  rewrite E.
  destruct (Rgt_dec 1 0) as [_|Hn]; [|exfalso; apply Hn; lra].
  rewrite lookup_insert_eq. f_equal. ring.
Qed.

Lemma plain_draws_in_range : draws_in_range plain_draws.
Proof.
  intros i. unfold plain_draws; cbn [uniform_energy uniform_target uniform_position].
  repeat split; try lra. repeat constructor; lra.
Qed.

Lemma heavy_draws_in_range : draws_in_range heavy_draws.
Proof.
  intros i. unfold heavy_draws; cbn [uniform_energy uniform_target uniform_position].
  repeat split; try lra. repeat constructor; lra.
Qed.

Lemma weights_clamped_or_kept_refl (n : Node.t) : weights_clamped_or_kept n n.
Proof. intros k w H. right. exact H. Qed.

Lemma weights_clamped_or_kept_trans (a b c : Node.t) :
  weights_clamped_or_kept a b -> weights_clamped_or_kept b c ->
  weights_clamped_or_kept a c.
Proof.
  intros Hab Hbc k w Hk.
  destruct (Hbc k w Hk) as [Hw|Hb]; [left; exact Hw|].
  apply Hab, Hb.
Qed.

Lemma init_energy (d : RandomDraws) (cfg : BasalReservoirConfig) :
  draws_in_range d ->
  Forall (fun n => unit_interval (Node.energy n))
         (Engine.nodes (Engine.init d cfg)).
Proof.
  intros Hd. apply init_nodes_Forall. intros i n H.
  apply init_nodes_lookup in H. destruct H as (_ & _ & He & _).
  destruct (Hd i) as (Hen & _). unfold unit_interval. rewrite He. lra.
Qed.

(** C2 (amended). From construction on, after any number of steps, for
    inputs, drawn weights and configuration floats of magnitude at most
    1e100 (so that no step produces a NaN; the embedding computes over
    the reals), every node's energy lies in [0,1], and every
    incoming weight either has magnitude at most 2 or is still the value
    drawn at construction under that key; so if the drawn weights of a
    node are within [-2,2], its weights stay within [-2,2]. *)
Theorem energy_and_weight_bounds (d : RandomDraws)
  (cfg : BasalReservoirConfig) (inputs : list (option (gmap nat R))) :
  draws_in_range d ->
  moderate_draws d ->
  moderate_config cfg ->
  Forall moderate_inputs inputs ->
  Forall2
    (fun n0 n =>
       unit_interval (Node.energy n) /\
       weights_clamped_or_kept n0 n /\
       (weights_bounded n0 -> weights_bounded n))
    (Engine.nodes (Engine.init d cfg))
    (Engine.nodes (run_steps (Engine.init d cfg) inputs)).
Proof.
  intros Hd _ _ _.
  eapply Forall2_impl.
  - apply (run_steps_rel
             (fun n0 n => unit_interval (Node.energy n)
                          /\ weights_clamped_or_kept n0 n)).
    + intros ext snap b n [_ Hw].
      destruct (node_step_fields ext snap n) as (_ & _ & He & Hw').
      split; [exact He|].
      eapply weights_clamped_or_kept_trans; eassumption.
    + apply Forall2_diag. eapply Forall_impl; [apply init_energy, Hd|].
      intros n He. split; [exact He|apply weights_clamped_or_kept_refl].
  - intros n0 n [He Hw]. repeat split; try apply He; [exact Hw|].
    intros Hb k w Hk. destruct (Hw k w Hk) as [H|H]; [exact H|].
    eapply Hb, H.
Qed.

Lemma plain_draws_moderate : moderate_draws plain_draws.
Proof.
  intros i j. unfold moderate. cbn [normal_incoming plain_draws].
  rewrite Rabs_right by lra. lra.
Qed.

Lemma two_node_config_moderate : moderate_config two_node_config.
Proof.
  unfold moderate_config, moderate, two_node_config.
  cbn [learning_rate energy_decay connection_radius homeodynamic_strength
       coherence_coupling adaptation_rate].
  repeat split; rewrite Rabs_right by lra; lra.
Qed.

Lemma no_inputs_moderate (k : nat) :
  Forall moderate_inputs (repeat (@None (gmap nat R)) k).
Proof.
  apply List.Forall_forall. intros i Hi. apply repeat_spec in Hi. subst i.
  intros j v H. simpl in H. rewrite lookup_empty in H. discriminate.
Qed.

Lemma empty_inputs_moderate : moderate_inputs (Some ∅).
Proof.
  intros j v H. simpl in H. rewrite lookup_empty in H. discriminate.
Qed.

Lemma energy_and_weight_bounds_witness :
  draws_in_range plain_draws /\
  moderate_draws plain_draws /\
  moderate_config two_node_config /\
  Forall moderate_inputs [None; Some ∅] /\
  Forall2
    (fun n0 n =>
       unit_interval (Node.energy n) /\
       weights_clamped_or_kept n0 n /\
       (weights_bounded n0 -> weights_bounded n))
    (Engine.nodes (Engine.init plain_draws two_node_config))
    (Engine.nodes
       (run_steps (Engine.init plain_draws two_node_config)
                  [None; Some ∅])).
Proof.
  assert (Hi : Forall moderate_inputs [@None (gmap nat R); Some ∅]).
  { constructor; [exact (Forall_inv (no_inputs_moderate 1))|].
    constructor; [exact empty_inputs_moderate | constructor]. }
  split; [exact plain_draws_in_range|].
  split; [exact plain_draws_moderate|].
  split; [exact two_node_config_moderate|]. split; [exact Hi|].
  apply (energy_and_weight_bounds plain_draws two_node_config [None; Some ∅]
           plain_draws_in_range plain_draws_moderate
           two_node_config_moderate Hi).
Defined.

(** C2, as stated, fails: with draws in range, a weight drawn at 2.4 is
    still 2.4 after three steps of the engine, because a reservoir whose
    activations are all zero skips the learning update. *)
Lemma weight_bound_counterexample :
  draws_in_range heavy_draws /\
  ~ Forall (fun n => unit_interval (Node.energy n) /\ weights_bounded n)
      (Engine.nodes
         (run_steps (Engine.init heavy_draws two_node_config)
                    [None; None; None])).
Proof.
  split; [exact heavy_draws_in_range|].
  intros Hall.
  destruct heavy_init_weight as (n0 & Hn0 & Hw0).
  destruct (silent_run 3 (Engine.init heavy_draws two_node_config)
              (init_quiet _ _)) as [_ Hw].
  change (repeat None 3) with [@None (gmap nat R); None; None] in Hw.
  assert (Hl : map Node.incoming_weights
                 (Engine.nodes
                    (run_steps (Engine.init heavy_draws two_node_config)
                               [None; None; None])) !! 0%nat
               = Some (Node.incoming_weights n0)).
  { rewrite Hw. change map with (@fmap list _). rewrite list_lookup_fmap, Hn0.
    reflexivity. }
  change map with (@fmap list _) in Hl. rewrite list_lookup_fmap in Hl.
  set (ns := Engine.nodes _) in *. clearbody ns.
  destruct (ns !! 0%nat) as [n|] eqn:Hn; [|discriminate Hl].
  assert (Hwn : Node.incoming_weights n = Node.incoming_weights n0)
    by (unfold fmap, option_fmap, option_map in Hl; congruence).
  destruct (proj1 (Forall_lookup _ ns) Hall 0%nat n Hn) as [_ Hb].
  assert (H24 : Rabs 2.4 <= 2) by (apply (Hb 1%nat); rewrite Hwn; exact Hw0).
  rewrite Rabs_right in H24; lra.
Qed.

Lemma init_target (d : RandomDraws) (cfg : BasalReservoirConfig) :
  draws_in_range d ->
  Forall (fun n => Node.config n = cfg /\ 0.4 <= Node.target_energy n <= 0.6)
         (Engine.nodes (Engine.init d cfg)).
Proof.
  intros Hd. apply init_nodes_Forall. intros i n H.
  apply init_nodes_lookup in H. destruct H as (_ & Hc & _ & Ht & _).
  destruct (Hd i) as (_ & Htg & _). rewrite Ht. split; [exact Hc|lra].
Qed.

Lemma run_steps_inv (P : Node.t -> Prop) :
  (forall ext snap n, P n -> P (node_step ext snap n)) ->
  forall (inputs : list (option (gmap nat R))) (e : Engine.t),
    Forall P (Engine.nodes e) ->
    Forall P (Engine.nodes (run_steps e inputs)).
Proof.
  intros Hstep inputs. induction inputs as [|i inputs IH]; intros e H.
  - exact H.
  - rewrite run_steps_cons. apply IH. rewrite nodes_update.
    apply Forall_fmap. eapply Forall_impl; [exact H|].
    intros n. apply Hstep.
Qed.

(** C10 (amended). With a non-negative adaptation rate, every node's
    target energy is drawn in [0.4, 0.6] at construction, every target
    adaptation keeps a target that is in [0.2, 0.8] inside [0.2, 0.8],
    and so the target energy of every node lies in [0.2, 0.8] after
    construction and after any number of steps. *)
Theorem target_energy_band (d : RandomDraws) (cfg : BasalReservoirConfig)
  (inputs : list (option (gmap nat R))) :
  draws_in_range d ->
  0 <= adaptation_rate cfg ->
  Forall (fun n => 0.4 <= Node.target_energy n <= 0.6)
         (Engine.nodes (Engine.init d cfg)) /\
  (forall n, Node.config n = cfg -> target_in_band n ->
             target_in_band (Node.adapt_target_energy n)) /\
  Forall target_in_band (Engine.nodes (run_steps (Engine.init d cfg) inputs)).
Proof.
  intros Hd Hr. split; [|split].
  - eapply Forall_impl; [apply init_target, Hd|]. intros n [_ H]. exact H.
  - intros n Hc. apply adapt_target_band. rewrite Hc. exact Hr.
  - eapply Forall_impl.
    + apply (run_steps_inv
               (fun n => Node.config n = cfg /\ target_in_band n)).
      * intros ext snap n [Hc Ht].
        destruct (node_step_fields ext snap n) as (_ & Hc' & _).
        split; [congruence|].
        apply node_step_target; [rewrite Hc; exact Hr|exact Ht].
      * eapply Forall_impl; [apply init_target, Hd|].
        intros n [Hc Ht]. split; [exact Hc|]. unfold target_in_band. lra.
    + intros n [_ H]. exact H.
Qed.

Lemma two_node_rate : 0 <= adaptation_rate two_node_config.
Proof. unfold two_node_config; cbn [adaptation_rate]. lra. Qed.

Lemma target_energy_band_witness :
  draws_in_range plain_draws /\
  0 <= adaptation_rate two_node_config /\
  Forall target_in_band
    (Engine.nodes
       (run_steps (Engine.init plain_draws two_node_config)
                  [None; Some ∅; None])).
Proof.
  split; [exact plain_draws_in_range|]. split; [exact two_node_rate|].
  apply (target_energy_band plain_draws two_node_config [None; Some ∅; None]
           plain_draws_in_range two_node_rate).
Defined.

(** ** Prediction *)

Lemma np_average_ok {S} (a : list R) (s : S) :
  a <> [] ->
  exists x, np_average a (map (fun v => Rabs v + 0.1) a) s = (Ok x, s).
Proof.
  intros Hne. unfold np_average.
  assert (Hpos : 0 < py_sum (map (fun v => Rabs v + 0.1) a)).
  { apply py_sum_pos.
    - destruct a; [congruence|discriminate].
    - clear Hne. induction a as [|v a IHa]; constructor; [|exact IHa].
      pose proof (Rabs_pos v). lra. }
  destruct (Req_EM_T _ 0) as [E|_]; [lra|].
  eexists. reflexivity.
Qed.

Lemma decode_prediction_ok (acts : list R) (c a : R) (e : Engine.t) :
  acts <> [] ->
  exists x, Engine._decode_prediction acts c a e = (Ok x, e).
Proof.
  intros Hne. unfold Engine._decode_prediction, bind.
  destruct (np_average_ok acts e Hne) as (x & ->).
  eexists. reflexivity.
Qed.

Lemma predict_loop_total (inputs : gmap nat R) (steps : list nat) :
  forall (preds : list R) (e : Engine.t),
    Engine.nodes e <> [] ->
    exists v e',
      Engine.predict_loop inputs steps preds e = (Ok v, e') /\
      length v = (length preds + length steps)%nat.
Proof.
  induction steps as [|step steps IH]; intros preds e Hne.
  - exists preds, e. split; [reflexivity|simpl; lia].
  - cbn [Engine.predict_loop]. unfold bind at 1. unfold pure_method at 1.
    set (u := if decide (step = 0%nat)
              then Engine.update_reservoir_state e (Some inputs)
              else Engine.update_reservoir_state e None).
    assert (Hu : exists i, u = Engine.update_reservoir_state e i)
      by (unfold u; destruct (decide _); eauto).
    destruct Hu as (i & Hu). rewrite Hu, update_reservoir_state_eq.
    set (acts := map (node_activation _ _) (Engine.nodes e)).
    set (ns' := map (node_step _ _) (Engine.nodes e)).
    assert (Hacts : acts <> [])
      by (unfold acts; destruct (Engine.nodes e); [congruence|discriminate]).
    assert (Hns' : ns' <> [])
      by (unfold ns'; destruct (Engine.nodes e); [congruence|discriminate]).
    unfold bind at 1. unfold pure_method at 1.
    unfold Engine.compute_enhanced_coherence at 1.
    unfold bind at 1. unfold pure_method at 1.
    unfold Engine.compute_anticipation_capacity at 1.
    unfold bind at 1.
    match goal with
    | |- context [Engine._decode_prediction acts ?c ?a ?e1] =>
        destruct (decode_prediction_ok acts c a e1 Hacts) as (x & ->);
        destruct (IH (preds ++ [x]) e1 Hns') as (v & e' & Hv & Hlen)
    end.
    exists v, e'. split; [exact Hv|].
    rewrite Hlen, length_app. simpl. lia.
Qed.

(** C6. On an engine with at least one node, [predict_market_pattern]
    returns, for every series and every step count [k], a vector of
    exactly [k] values, and that vector is all zeros when the series has
    fewer than 10 samples. *)
Theorem predict_length (e : Engine.t) (series : list R) (k : nat) :
  Engine.nodes e <> [] ->
  exists (v : list R) (e' : Engine.t),
    Engine.predict_market_pattern series k e = (Ok v, e') /\
    length v = k /\
    ((length series < 10)%nat -> v = repeat 0 k /\ e' = e).
Proof.
  intros Hne. unfold Engine.predict_market_pattern.
  destruct (length series <? 10)%nat eqn:Hlen.
  - exists (repeat 0 k), e. split; [reflexivity|].
    split; [apply repeat_length|]. intros _. split; reflexivity.
  - unfold bind, get.
    destruct (predict_loop_total
                (Engine._encode_market_data e (last_n 10 series))
                (seq 0 k) [] e Hne) as (v & e' & Hv & Hl).
    exists v, e'. split; [exact Hv|]. split.
    + rewrite Hl, length_seq. reflexivity.
    + intros Hlt. apply Nat.ltb_ge in Hlen. lia.
Qed.

Lemma two_nodes_nonempty :
  Engine.nodes (Engine.init plain_draws two_node_config) <> [].
Proof. discriminate. Qed.

Lemma predict_length_witness :
  Engine.nodes (Engine.init plain_draws two_node_config) <> [] /\
  exists (v : list R) (e' : Engine.t),
    Engine.predict_market_pattern [1; 2; 3] 4
      (Engine.init plain_draws two_node_config) = (Ok v, e') /\
    length v = 4%nat /\
    ((length [1; 2; 3] < 10)%nat ->
     v = repeat 0 4 /\ e' = Engine.init plain_draws two_node_config).
Proof.
  split; [exact two_nodes_nonempty|].
  apply (predict_length (Engine.init plain_draws two_node_config)
           [1; 2; 3] 4 two_nodes_nonempty).
Defined.

Lemma reachable_moderate_reachable (d : RandomDraws)
  (cfg : BasalReservoirConfig) (e : Engine.t) :
  reachable_moderate d cfg e -> reachable d cfg e.
Proof. induction 1; constructor; assumption. Qed.

(** ** The symbolic-frequency term *)

Lemma argmax_from_spec (l : list R) :
  forall (i bi : nat) (b : R),
    (argmax_from l i bi b = bi /\ Forall (fun x => x <= b) l) \/
    (exists j x,
        argmax_from l i bi b = (i + j)%nat /\ l !! j = Some x /\ b < x /\
        Forall (fun y => y <= x) l).
Proof.
  induction l as [|x l IH]; intros i bi b.
  - left. split; [reflexivity|constructor].
  - cbn [argmax_from]. destruct (Rgt_dec x b) as [Hgt|Hle].
    + right. destruct (IH (S i) i x) as [[Hr Hall]|(j & y & Hr & Hj & Hy & Hall)].
      * exists 0%nat, x. rewrite Hr. repeat split; [lia|exact Hgt|].
        constructor; [lra|exact Hall].
      * exists (S j), y. rewrite Hr. repeat split; [lia|exact Hj|lra|].
        constructor; [lra|exact Hall].
    + destruct (IH (S i) bi b) as [[Hr Hall]|(j & y & Hr & Hj & Hy & Hall)].
      * left. split; [exact Hr|]. constructor; [lra|exact Hall].
      * right. exists (S j), y. rewrite Hr. repeat split; [lia|exact Hj|exact Hy|].
        constructor; [lra|exact Hall].
Qed.

Lemma np_argmax_spec (l : list R) :
  l <> [] ->
  exists p, l !! np_argmax l = Some p /\ Forall (fun y => y <= p) l.
Proof.
  destruct l as [|x l]; [congruence|]. intros _. cbn [np_argmax].
  destruct (argmax_from_spec l 1 0 x) as [[Hr Hall]|(j & y & Hr & Hj & Hy & Hall)].
  - exists x. rewrite Hr. split; [reflexivity|]. constructor; [lra|exact Hall].
  - exists y. rewrite Hr. split; [exact Hj|]. constructor; [lra|exact Hall].
Qed.

Lemma length_last_n {A} (n : nat) (l : list A) :
  length (last_n n l) = Nat.min n (length l).
Proof. unfold last_n. rewrite length_skipn. lia. Qed.

Lemma length_fft_power (xs : list R) : length (fft_power xs) = length xs.
Proof. unfold fft_power. rewrite length_map, length_seq. reflexivity. Qed.

Lemma fft_band_lookup (xs : list R) (j : nat) (p : R) :
  firstn (length xs / 2 - 1) (skipn 1 (fft_power xs)) !! j = Some p ->
  (1 <= j + 1 < length xs / 2)%nat /\ p = dft_power xs (j + 1).
Proof.
  intros H. apply lookup_take_Some in H. destruct H as [H Hj].
  rewrite lookup_drop in H. unfold fft_power in H.
  change map with (@fmap list _) in H. rewrite list_lookup_fmap in H.
  destruct (seq 0 (length xs) !! (1 + j)%nat) as [k|] eqn:Hk; [|discriminate].
  apply lookup_seq in Hk. destruct Hk as [-> _].
  simpl in H. injection H as <-.
  split; [lia|]. f_equal. lia.
Qed.

Lemma fft_band_total (xs : list R) (j : nat) :
  (1 <= j < length xs / 2)%nat ->
  firstn (length xs / 2 - 1) (skipn 1 (fft_power xs)) !! (j - 1)%nat
  = Some (dft_power xs j).
Proof.
  intros Hj.
  assert (Hhalf : (length xs / 2 <= length xs)%nat)
    by (apply Nat.Div0.div_le_upper_bound; lia).
  rewrite lookup_take_lt by lia. rewrite lookup_drop. unfold fft_power.
  change map with (@fmap list _). rewrite list_lookup_fmap.
  replace (1 + (j - 1))%nat with j by lia.
  rewrite lookup_seq_lt by lia. reflexivity.
Qed.

Lemma symbolic_frequency_dominant (e : Engine.t) :
  (5 <= length (Engine.coherence_history e))%nat ->
  let recent := last_n 20 (Engine.coherence_history e) in
  exists k : nat,
    (1 <= k < length recent / 2)%nat /\
    (forall j, (1 <= j < length recent / 2)%nat ->
               dft_power recent j <= dft_power recent k) /\
    Engine._compute_symbolic_frequency e
    = Rmin 1 (INR k / INR (length recent) * 5).
Proof.
  intros Hlen recent. unfold Engine._compute_symbolic_frequency.
  destruct (Nat.ltb_spec (length (Engine.coherence_history e)) 5) as [Hlt|_];
    [lia|].
  fold recent. rewrite length_fft_power.
  set (band := firstn (length recent / 2 - 1) (skipn 1 (fft_power recent))).
  assert (Hn : (5 <= length recent)%nat)
    by (unfold recent; rewrite length_last_n; lia).
  assert (Hhalf : (2 <= length recent / 2)%nat)
    by (apply Nat.div_le_lower_bound; lia).
  assert (Hne : band <> []).
  { intros Hb. pose proof (fft_band_total recent 1 ltac:(lia)) as H1.
    fold band in H1. rewrite Hb in H1. discriminate. }
  destruct (np_argmax_spec band Hne) as (p & Hp & Hall).
  pose proof (fft_band_lookup recent _ _ Hp) as [Hrange ->].
  exists (np_argmax band + 1)%nat. split; [exact Hrange|]. split; [|reflexivity].
  intros j Hj. pose proof (fft_band_total recent j Hj) as Hjl. fold band in Hjl.
  rewrite Forall_lookup in Hall. exact (Hall _ _ Hjl).
Qed.

(** The [f] component of the engine's coherence state is never written. *)
Lemma predict_loop_f (inputs : gmap nat R) (steps : list nat) :
  forall (preds : list R) (e : Engine.t),
    GCT.f (Engine.coherence_state
             (snd (Engine.predict_loop inputs steps preds e)))
    = GCT.f (Engine.coherence_state e).
Proof.
  induction steps as [|step steps IH]; intros preds e; [reflexivity|].
  cbn [Engine.predict_loop]. unfold bind at 1. unfold pure_method at 1.
  destruct (if decide (step = 0%nat)
            then Engine.update_reservoir_state e (Some inputs)
            else Engine.update_reservoir_state e None) as [e1 acts] eqn:Hu.
  assert (H1 : GCT.f (Engine.coherence_state e1)
               = GCT.f (Engine.coherence_state e)).
  { destruct (decide _); injection Hu as <- _; reflexivity. }
  unfold bind at 1. unfold pure_method at 1.
  unfold Engine.compute_enhanced_coherence at 1.
  unfold bind at 1. unfold pure_method at 1.
  unfold Engine.compute_anticipation_capacity at 1.
  unfold bind at 1. unfold Engine._decode_prediction, bind, np_average.
  destruct (Req_EM_T _ 0).
  - unfold raise. simpl. exact H1.
  - unfold ret. rewrite IH. simpl. exact H1.
Qed.

Lemma reachable_f (d : RandomDraws) (cfg : BasalReservoirConfig)
  (e : Engine.t) :
  reachable d cfg e -> GCT.f (Engine.coherence_state e) = 0.5.
Proof.
  induction 1 as [|e i _ IH|e _ IH|e _ IH|e series k _ IH];
    try (simpl; exact IH).
  - reflexivity.
  - unfold Engine.predict_market_pattern.
    destruct (_ <? _)%nat; [exact IH|].
    unfold bind, get. rewrite predict_loop_f. exact IH.
Qed.

(** C5 (amended). On an engine reached from a constructed one, the
    symbolic-frequency term is 0.5 (the untouched [f] of the engine's
    coherence state) while fewer than 5 coherence values are recorded;
    with 5 or more it is [min(1, 5k/n)], where [n] is the number of the
    last (at most 20) recorded values and [k], with [1 <= k < n/2], is a
    frequency whose FFT magnitude over those values is maximal in that
    range. *)
Theorem symbolic_frequency_value (d : RandomDraws)
  (cfg : BasalReservoirConfig) (e : Engine.t) :
  reachable d cfg e ->
  ((length (Engine.coherence_history e) < 5)%nat ->
   Engine._compute_symbolic_frequency e = 0.5) /\
  ((5 <= length (Engine.coherence_history e))%nat ->
   let recent := last_n 20 (Engine.coherence_history e) in
   exists k : nat,
     (1 <= k < length recent / 2)%nat /\
     (forall j, (1 <= j < length recent / 2)%nat ->
                dft_power recent j <= dft_power recent k) /\
     Engine._compute_symbolic_frequency e
     = Rmin 1 (INR k / INR (length recent) * 5)).
Proof.
  intros Hr. split.
  - intros Hlt. unfold Engine._compute_symbolic_frequency.
    destruct (Nat.ltb_spec (length (Engine.coherence_history e)) 5); [|lia].
    eapply reachable_f, Hr.
  - apply symbolic_frequency_dominant.
Qed.

Lemma symbolic_frequency_value_witness :
  reachable plain_draws two_node_config
    (Engine.init plain_draws two_node_config) /\
  Engine._compute_symbolic_frequency
    (Engine.init plain_draws two_node_config) = 0.5.
Proof.
  split; [apply reach_init|].
  apply (symbolic_frequency_value plain_draws two_node_config
           (Engine.init plain_draws two_node_config)
           (reach_init plain_draws two_node_config)).
  cbn [Engine.coherence_history Engine.init length]. lia.
Defined.

(** C5, as stated, fails: a freshly constructed engine has recorded no
    coherence value, and its symbolic-frequency term is 0.5, not 0. *)
Lemma symbolic_frequency_counterexample :
  (length (Engine.coherence_history
             (Engine.init plain_draws two_node_config)) < 5)%nat /\
  Engine._compute_symbolic_frequency
    (Engine.init plain_draws two_node_config) <> 0.
Proof.
  split; [cbn [Engine.coherence_history Engine.init length]; lia|].
  assert (E : Engine._compute_symbolic_frequency
                (Engine.init plain_draws two_node_config) = 0.5)
    by reflexivity.
  rewrite E. lra.
Qed.

(** ** Reasoning about computations *)

Lemma bind_Ok {S A B} (m : M S A) (k : A -> M S B) s b s' :
  bind m k s = (Ok b, s') ->
  exists a s1, m s = (Ok a, s1) /\ k a s1 = (Ok b, s').
Proof.
  unfold bind. destruct (m s) as [[a|e] s1]; [eauto|discriminate].
Qed.

Lemma bind_Raise {S A B} (m : M S A) (k : A -> M S B) s e s' :
  bind m k s = (Raise e, s') ->
  m s = (Raise e, s') \/ exists a s1, m s = (Ok a, s1) /\ k a s1 = (Raise e, s').
Proof.
  unfold bind. destruct (m s) as [[a|e0] s1]; [eauto|]. intros [= -> ->]. left. reflexivity.
Qed.

Lemma readonly_ret {S A} (a : A) : readonly (@ret S A a).
Proof. intros s. reflexivity. Qed.

Lemma readonly_raise {S A} (e : exn) : readonly (@raise S A e).
Proof. intros s. reflexivity. Qed.

Lemma readonly_bind {S A B} (m : M S A) (k : A -> M S B) :
  readonly m -> (forall a, readonly (k a)) -> readonly (bind m k).
Proof.
  intros Hm Hk s. unfold bind. specialize (Hm s).
  destruct (m s) as [[a|e] s1]; simpl in Hm; subst s1; [apply Hk|reflexivity].
Qed.

Lemma readonly_get {S B} (k : S -> M S B) :
  (forall s0, readonly (k s0)) -> readonly (bind get k).
Proof. intros Hk s. unfold bind, get. apply Hk. Qed.

Lemma readonly_py_div {S} (a b : R) : readonly (@py_div S a b).
Proof. intros s. unfold py_div. destruct (Req_EM_T b 0); reflexivity. Qed.

Lemma readonly_py_neg_index {S A} (l : list A) (k : nat) :
  readonly (@py_neg_index S A l k).
Proof.
  intros s. unfold py_neg_index. destruct (_ <=? _)%nat; [|reflexivity].
  destruct (_ !! _); reflexivity.
Qed.

Lemma readonly_state {S A} (m : M S A) s r s' :
  readonly m -> m s = (r, s') -> s' = s.
Proof. intros H E. specialize (H s). rewrite E in H. exact H. Qed.

Lemma returns_ret {S A} (a : A) (Q : A -> Prop) : Q a -> returns (@ret S A a) Q.
Proof. intros H s a' s' [= <- _]. exact H. Qed.

Lemma returns_bind {S A B} (m : M S A) (k : A -> M S B) (Q : B -> Prop) :
  (forall a, returns (k a) Q) -> returns (bind m k) Q.
Proof.
  intros Hk s b s' H. apply bind_Ok in H. destruct H as (a & s1 & _ & H).
  eapply Hk, H.
Qed.

Lemma preserves_bind {S A B} (I : S -> S -> Prop) (m : M S A)
  (k : A -> M S B) :
  (forall a b c, I a b -> I b c -> I a c) ->
  preserves I m -> (forall a, preserves I (k a)) -> preserves I (bind m k).
Proof.
  intros Htrans Hm Hk s. unfold bind. specialize (Hm s).
  destruct (m s) as [[a|e] s1]; simpl in Hm; [|exact Hm].
  eapply Htrans; [exact Hm|apply Hk].
Qed.

Lemma preserves_readonly {S A} (I : S -> S -> Prop) (m : M S A) :
  (forall s, I s s) -> readonly m -> preserves I m.
Proof. intros Hrefl Hm s. rewrite Hm. apply Hrefl. Qed.

(** ** Construction *)

(** C4. Built without a configuration, the integrator's constructor
    raises [TypeError]: it passes the keyword [soulmath_coupling], which
    is not a field of the dataclass (the field is [coherence_coupling]),
    whatever the random draws and the integration strength. The sibling
    path does what the claim says: the engine factory, called without a
    configuration, builds an engine with the dataclass defaults
    num_nodes 100, spatial_dimension 2, learning_rate 0.01, energy_decay
    0.95, connection_radius 0.3, coherence_coupling 0.05, adaptation_rate
    0.001 and prediction_horizon 10; and with a configuration the
    integrator is built, with integration strength 0.3 by default. *)
Theorem default_construction_raises (d : RandomDraws) (alpha : option R) :
  Integrator.init d None alpha = Raise (TypeError "soulmath_coupling") /\
  is_field "coherence_coupling" = true /\
  (exists e,
      create_basal_reservoir_engine d None = Ok e /\
      num_nodes (Engine.config e) = 100%nat /\
      spatial_dimension (Engine.config e) = 2%nat /\
      learning_rate (Engine.config e) = 0.01 /\
      energy_decay (Engine.config e) = 0.95 /\
      connection_radius (Engine.config e) = 0.3 /\
      coherence_coupling (Engine.config e) = 0.05 /\
      adaptation_rate (Engine.config e) = 0.001 /\
      prediction_horizon (Engine.config e) = 10%nat) /\
  (forall cfg,
      exists i, Integrator.init d (Some cfg) None = Ok i /\
                Integrator.integration_strength i = 0.3 /\
                Engine.config (Integrator.basal_engine i) = cfg).
Proof.
  split; [reflexivity|]. split; [reflexivity|]. split.
  - eexists. split; [reflexivity|]. repeat split; reflexivity.
  - intros cfg. eexists. repeat split; reflexivity.
Qed.

(** ** The integrator's helpers *)

Lemma half_unit : unit_interval 0.5.
Proof. unfold unit_interval. lra. Qed.

Lemma zero_unit : unit_interval 0.
Proof. unfold unit_interval. lra. Qed.

Lemma neutral_in_unit : gct_in_unit Integrator.neutral_gct.
Proof. repeat split; apply half_unit. Qed.

Lemma clipped_in_unit (a b c d : R) :
  gct_in_unit
    {| GCT.psi := np_clip a 0 1; GCT.rho := np_clip b 0 1;
       GCT.q := np_clip c 0 1; GCT.f := np_clip d 0 1 |}.
Proof. repeat split; apply np_clip_unit. Qed.

Lemma integrate_in_unit (self : Integrator.t) (t : GCT.t) (bc ant : R) :
  gct_in_unit (Integrator._integrate_coherence_approaches self t bc ant).
Proof. apply clipped_in_unit. Qed.

Lemma efficiency_unit (self : Integrator.t) :
  unit_interval (Integrator._compute_adaptation_efficiency self).
Proof.
  unfold Integrator._compute_adaptation_efficiency.
  destruct (_ <? 10)%nat; [apply half_unit|].
  destruct (0 <? _)%nat; [apply tanh_unit|apply half_unit].
Qed.

Lemma traditional_readonly (dp : MarketDataPoint) :
  readonly (Integrator._compute_traditional_gct dp).
Proof.
  unfold Integrator._compute_traditional_gct.
  apply readonly_get. intros self.
  destruct (_ <? 5)%nat; [apply readonly_ret|].
  apply readonly_bind; [|intros; apply readonly_ret].
  destruct (sentiment dp); [apply readonly_ret|].
  destruct (3 <=? _)%nat; [|apply readonly_ret].
  repeat (apply readonly_bind;
          [first [apply readonly_py_neg_index|apply readonly_py_div]|intros]).
  apply readonly_ret.
Qed.

Lemma traditional_returns (dp : MarketDataPoint) :
  returns (Integrator._compute_traditional_gct dp) gct_in_unit.
Proof.
  unfold Integrator._compute_traditional_gct.
  apply returns_bind. intros self.
  destruct (_ <? 5)%nat; [apply returns_ret, neutral_in_unit|].
  apply returns_bind. intros x. apply returns_ret, clipped_in_unit.
Qed.

Lemma encode_readonly (dp : MarketDataPoint) :
  readonly (Integrator._encode_market_signals dp).
Proof.
  unfold Integrator._encode_market_signals.
  apply readonly_get. intros self.
  apply readonly_bind; [|intros; apply readonly_ret].
  destruct (2 <=? _)%nat; [|apply readonly_ret].
  repeat (apply readonly_bind;
          [first [apply readonly_py_neg_index|apply readonly_py_div]|intros]).
  apply readonly_ret.
Qed.

Lemma resonance_readonly (dp : MarketDataPoint) (acts : list R) :
  readonly (Integrator._compute_symbolic_resonance dp acts).
Proof.
  unfold Integrator._compute_symbolic_resonance.
  apply readonly_get. intros self.
  apply readonly_bind; [|intros; apply readonly_ret].
  destruct (3 <=? _)%nat; [|apply readonly_ret].
  apply readonly_bind; [apply readonly_py_neg_index|intros].
  apply readonly_py_div.
Qed.

Lemma resonance_returns (dp : MarketDataPoint) (acts : list R) :
  returns (Integrator._compute_symbolic_resonance dp acts) unit_interval.
Proof.
  unfold Integrator._compute_symbolic_resonance.
  apply returns_bind. intros self. apply returns_bind. intros pm.
  apply returns_ret.
  destruct (Rgt_dec _ _); [destruct (Rgt_dec _ _)|];
    first [apply tanh_unit|unfold unit_interval; lra].
Qed.

Lemma same_frame_refl s : same_frame s s.
Proof. split; reflexivity. Qed.

Lemma same_frame_trans a b c :
  same_frame a b -> same_frame b c -> same_frame a c.
Proof. unfold same_frame. intros [] []. split; congruence. Qed.

Lemma on_engine_frame {A} (m : M Engine.t A) :
  preserves same_frame (Integrator.on_engine m).
Proof.
  intros s. unfold Integrator.on_engine.
  destruct (m _) as [r e]. split; reflexivity.
Qed.

Lemma confidence_total (market_data : list R) (s : Integrator.t) :
  exists x s',
    Integrator._compute_prediction_confidence market_data s = (Ok x, s') /\
    unit_interval x /\ same_frame s s'.
Proof.
  unfold Integrator._compute_prediction_confidence, try_except.
  unfold bind at 1.
  pose proof (on_engine_frame
                (Engine.predict_market_pattern market_data 3) s) as Hs.
  destruct (Integrator.on_engine _ s) as [[predictions|e] s1]; simpl in Hs.
  - unfold bind, get, ret. eexists _, s1. split; [reflexivity|].
    split; [apply np_clip_unit|exact Hs].
  - unfold ret. eexists _, s1. split; [reflexivity|].
    split; [apply half_unit|exact Hs].
Qed.

Lemma modify_frame (g : Integrator.t -> Integrator.t) :
  (forall s, same_frame s (g s)) -> preserves same_frame (modify g).
Proof. intros H s. apply H. Qed.

Lemma update_metrics_frame (r : Result.t) :
  preserves same_frame (Integrator._update_performance_metrics r).
Proof.
  unfold Integrator._update_performance_metrics.
  intros s. unfold bind at 1, get.
  apply (preserves_bind same_frame); [apply same_frame_trans| |].
  - destruct (2 <=? _)%nat.
    + repeat (apply (preserves_bind same_frame);
              [apply same_frame_trans
              |apply preserves_readonly;
               [apply same_frame_refl
               |first [apply readonly_py_neg_index|apply readonly_py_div]]
              |intros]).
      apply modify_frame. intros; split; reflexivity.
    + apply preserves_readonly; [apply same_frame_refl|apply readonly_ret].
  - intros _. apply modify_frame. intros; split; reflexivity.
Qed.

Lemma preserves_state {S A} (I : S -> S -> Prop) (m : M S A) s r s' :
  preserves I m -> m s = (r, s') -> I s s'.
Proof. intros H E. specialize (H s). rewrite E in H. exact H. Qed.

Lemma get_Ok {S} (s a s' : S) : get s = (Ok a, s') -> a = s /\ s' = s.
Proof. unfold get. intros [= <- <-]. split; reflexivity. Qed.

Lemma modify_Ok {S} (g : S -> S) (s : S) (a : unit) (s' : S) :
  modify g s = (Ok a, s') -> s' = g s.
Proof. unfold modify. intros H. inversion H. reflexivity. Qed.

Lemma ret_Ok {S A} (x a : A) (s s' : S) :
  ret x s = (Ok a, s') -> a = x /\ s' = s.
Proof. unfold ret. intros [= <- <-]. split; reflexivity. Qed.

(** What the [try] block returns when it returns. *)
Lemma process_body_post (dp : MarketDataPoint) (b : bool) (now : Z)
  (s : Integrator.t) (r : Result.t) (s' : Integrator.t) :
  Integrator.process_body dp b now s = (Ok r, s') ->
  exists (mid : Integrator.t) (bc ant : R),
    Integrator.integration_strength mid = Integrator.integration_strength s /\
    gct_in_unit (Result.traditional_gct r) /\
    Result.basal_enhanced_gct r
    = Integrator._integrate_coherence_approaches
        mid (Result.traditional_gct r) bc ant /\
    unit_interval (Result.prediction_confidence r) /\
    unit_interval (Result.symbolic_resonance r) /\
    unit_interval (Result.adaptation_efficiency r) /\
    Result.timestamp r = now.
Proof.
  unfold Integrator.process_body. intros H.
  apply bind_Ok in H; destruct H as (u0 & s0 & H0 & H). apply modify_Ok in H0.
  assert (S0 : Integrator.integration_strength s0
               = Integrator.integration_strength s)
    by (subst s0; reflexivity).
  apply bind_Ok in H; destruct H as (trad & s1 & H1 & H).
  pose proof (traditional_returns dp _ _ _ H1) as Htrad.
  apply (readonly_state _ _ _ _ (traditional_readonly dp)) in H1. subst s1.
  apply bind_Ok in H; destruct H as (self1 & s2 & H2 & H). apply get_Ok in H2. destruct H2 as [-> ->].
  apply bind_Ok in H; destruct H as (inputs & s3 & H3 & H).
  apply (readonly_state _ _ _ _ (encode_readonly dp)) in H3. subst s3.
  apply bind_Ok in H; destruct H as (acts & s4 & H4 & H).
  apply (preserves_state _ _ _ _ _ (on_engine_frame _)) in H4.
  apply bind_Ok in H; destruct H as (bc & s5 & H5 & H).
  apply (preserves_state _ _ _ _ _ (on_engine_frame _)) in H5.
  apply bind_Ok in H; destruct H as (ant & s6 & H6 & H).
  apply (preserves_state _ _ _ _ _ (on_engine_frame _)) in H6.
  apply bind_Ok in H; destruct H as (self2 & s7 & H7 & H). apply get_Ok in H7. destruct H7 as [-> ->].
  apply bind_Ok in H; destruct H as (res & s8 & H8 & H).
  pose proof (resonance_returns dp acts _ _ _ H8) as Hres.
  apply bind_Ok in H; destruct H as (pc & s9 & H9 & H).
  assert (Hpc : unit_interval pc).
  { destruct b.
    - destruct (confidence_total
                  (Integrator._prepare_market_data_for_reservoir s0) s8)
        as (x & sx & Hx & Hux & _).
      rewrite Hx in H9. injection H9 as <- _. exact Hux.
    - apply ret_Ok in H9. destruct H9 as [-> _]. apply zero_unit. }
  apply bind_Ok in H; destruct H as (self3 & s10 & H10 & H). apply get_Ok in H10. destruct H10 as [-> ->].
  apply bind_Ok in H; destruct H as (u1 & s11 & H11 & H).
  apply bind_Ok in H; destruct H as (u2 & s12 & H12 & H).
  apply ret_Ok in H. destruct H as [-> _].
  exists s6, bc, ant. cbn [Result.traditional_gct Result.basal_enhanced_gct
    Result.prediction_confidence Result.symbolic_resonance
    Result.adaptation_efficiency Result.timestamp].
  split.
  { destruct H4 as [H4 _], H5 as [H5 _], H6 as [H6 _]. congruence. }
  split; [exact Htrad|]. split; [reflexivity|].
  split; [exact Hpc|]. split; [exact Hres|].
  split; [apply efficiency_unit|reflexivity].
Qed.

Lemma fallback_in_unit (dp : MarketDataPoint) (now : Z) :
  result_in_unit (Integrator._create_fallback_result dp now).
Proof.
  unfold result_in_unit, Integrator._create_fallback_result.
  cbn [Result.traditional_gct Result.basal_enhanced_gct
       Result.prediction_confidence Result.symbolic_resonance
       Result.adaptation_efficiency].
  repeat split; first [apply half_unit|apply zero_unit].
Qed.

Lemma process_total (dp : MarketDataPoint) (b : bool) (now : Z)
  (s : Integrator.t) :
  exists r s',
    Integrator.process_market_data_stream dp b now s = (Ok r, s') /\
    result_in_unit r.
Proof.
  unfold Integrator.process_market_data_stream, try_except.
  destruct (Integrator.process_body dp b now s) as [[r|e] s1] eqn:Hb.
  - exists r, s1. split; [reflexivity|].
    destruct (process_body_post _ _ _ _ _ _ Hb)
      as (mid & bc & ant & _ & Ht & He & Hc & Hr & Hf & _).
    unfold result_in_unit. rewrite He.
    split; [exact Ht|]. split; [apply integrate_in_unit|].
    split; [exact Hc|]. split; [exact Hr|exact Hf].
  - unfold ret. eexists _, s1. split; [reflexivity|apply fallback_in_unit].
Qed.

(** ** Frame of one processing step *)

Lemma preserves_get {S B} (I : S -> S -> Prop) (k : S -> M S B) :
  (forall s0, preserves I (k s0)) -> preserves I (bind get k).
Proof. intros Hk s. unfold bind, get. apply Hk. Qed.

Lemma confidence_frame (market_data : list R) :
  preserves same_frame (Integrator._compute_prediction_confidence market_data).
Proof.
  intros s. destruct (confidence_total market_data s) as (x & s' & -> & _ & H).
  exact H.
Qed.

Lemma process_body_frame (dp : MarketDataPoint) (b : bool) (now : Z)
  (s : Integrator.t) :
  same_frame
    (Integrator.set_market_history s
       (append_capped 1000 (Integrator.market_history s) dp))
    (snd (Integrator.process_body dp b now s)).
Proof.
  unfold Integrator.process_body. unfold bind at 1, modify at 1.
  match goal with
  | |- same_frame ?s0 (snd (?rest ?s0)) =>
      cut (preserves same_frame rest); [intros Hp; apply Hp|]
  end.
  apply preserves_bind; [apply same_frame_trans| |intros trad].
  { apply preserves_readonly; [apply same_frame_refl|]. apply traditional_readonly. }
  apply preserves_get. intros self1.
  apply preserves_bind; [apply same_frame_trans| |intros inputs].
  { apply preserves_readonly; [apply same_frame_refl|]. apply encode_readonly. }
  apply preserves_bind;
    [apply same_frame_trans|apply on_engine_frame|intros acts].
  apply preserves_bind;
    [apply same_frame_trans|apply on_engine_frame|intros bc].
  apply preserves_bind;
    [apply same_frame_trans|apply on_engine_frame|intros ant].
  apply preserves_get. intros self2.
  apply preserves_bind; [apply same_frame_trans| |intros res].
  { apply preserves_readonly; [apply same_frame_refl|]. apply resonance_readonly. }
  apply preserves_bind; [apply same_frame_trans| |intros pc].
  { destruct b; [apply confidence_frame|apply preserves_readonly; [apply same_frame_refl|]; apply readonly_ret]. }
  apply preserves_get. intros self3.
  apply preserves_bind; [apply same_frame_trans| |intros u1].
  { apply modify_frame. intros; split; reflexivity. }
  apply preserves_bind;
    [apply same_frame_trans|apply update_metrics_frame|intros u2].
  apply preserves_readonly; [apply same_frame_refl|]. apply readonly_ret.
Qed.

Lemma process_state (dp : MarketDataPoint) (b : bool) (now : Z)
  (s : Integrator.t) :
  snd (Integrator.process_market_data_stream dp b now s)
  = snd (Integrator.process_body dp b now s).
Proof.
  unfold Integrator.process_market_data_stream, try_except.
  destruct (Integrator.process_body dp b now s) as [[r|e] s1]; reflexivity.
Qed.

Lemma process_frame (dp : MarketDataPoint) (b : bool) (now : Z)
  (s : Integrator.t) :
  let s' := snd (Integrator.process_market_data_stream dp b now s) in
  Integrator.integration_strength s' = Integrator.integration_strength s /\
  Integrator.market_history s'
  = append_capped 1000 (Integrator.market_history s) dp.
Proof.
  cbv zeta. rewrite process_state.
  destruct (process_body_frame dp b now s) as [H1 H2].
  split; [exact H1|exact H2].
Qed.

(** ** Blending with strength zero *)

Lemma integrate_at_zero (self : Integrator.t) (t : GCT.t) (bc ant : R) :
  Integrator.integration_strength self = 0 ->
  gct_in_unit t ->
  Integrator._integrate_coherence_approaches self t bc ant = t.
Proof.
  intros Ha (Hpsi & Hrho & Hq & Hf).
  unfold Integrator._integrate_coherence_approaches. rewrite Ha.
  destruct t as [tp tr tq tf].
  unfold unit_interval in *.
  cbn [GCT.psi GCT.rho GCT.q GCT.f] in *.
  f_equal.
  - replace ((1 - 0) * tp + 0 * bc) with tp by ring. apply np_clip_id, Hpsi.
  - replace (tr + 0 * np_clip ant (-0.5) 0.5) with tr by ring.
    apply np_clip_id, Hrho.
  - match goal with
    | |- np_clip ((1 - 0) * tq + 0 * ?x) 0 1 = tq =>
        replace ((1 - 0) * tq + 0 * x) with tq by ring
    end.
    apply np_clip_id, Hq.
  - match goal with
    | |- np_clip ((1 - 0) * tf + 0 * ?x) 0 1 = tf =>
        replace ((1 - 0) * tf + 0 * x) with tf by ring
    end.
    apply np_clip_id, Hf.
Qed.

Lemma process_at_zero (dp : MarketDataPoint) (b : bool) (now : Z)
  (s : Integrator.t) :
  Integrator.integration_strength s = 0 ->
  exists r s',
    Integrator.process_market_data_stream dp b now s = (Ok r, s') /\
    Result.basal_enhanced_gct r = Result.traditional_gct r /\
    Integrator.integration_strength s' = 0.
Proof.
  intros Ha.
  pose proof (process_frame dp b now s) as [Hs _].
  unfold Integrator.process_market_data_stream, try_except in *.
  destruct (Integrator.process_body dp b now s) as [[r|e] s1] eqn:Hb.
  - exists r, s1. split; [reflexivity|]. split; [|simpl in Hs; congruence].
    destruct (process_body_post _ _ _ _ _ _ Hb)
      as (mid & bc & ant & Hm & Ht & He & _).
    rewrite He. apply integrate_at_zero; [congruence|exact Ht].
  - eexists _, s1. split; [reflexivity|].
    split; [reflexivity|simpl in Hs; congruence].
Qed.

(** C3 (amended). With [integration_strength = 0] the blend returns the
    traditional vector unchanged in all four components, [rho] included:
    the anticipation term enters [rho] multiplied by the strength. So
    every result of an integrator with strength 0 has its blended vector
    equal to its traditional vector. *)
Theorem blend_at_zero_strength (s : Integrator.t)
  (stream : list (MarketDataPoint * Z)) :
  Integrator.integration_strength s = 0 ->
  (forall (t : GCT.t) (bc ant : R),
      gct_in_unit t ->
      Integrator._integrate_coherence_approaches s t bc ant = t) /\
  Forall (fun out =>
            exists r, out = Ok r /\
                      Result.basal_enhanced_gct r = Result.traditional_gct r)
         (fst (Integrator.run s stream)).
Proof.
  intros Ha. split; [intros; apply integrate_at_zero; assumption|].
  revert s Ha. induction stream as [|[dp now] stream IH]; intros s Ha.
  - constructor.
  - cbn [Integrator.run].
    destruct (process_at_zero dp true now s Ha) as (r & s' & Hp & Hr & Ha').
    rewrite Hp. specialize (IH s' Ha').
    destruct (Integrator.run s' stream) as [rs s'']. simpl in *.
    constructor; [eauto|exact IH].
Qed.

Lemma blend_at_zero_strength_witness :
  Integrator.integration_strength zero_strength_integrator = 0 /\
  Forall (fun out =>
            exists r, out = Ok r /\
                      Result.basal_enhanced_gct r = Result.traditional_gct r)
         (fst (Integrator.run zero_strength_integrator
                 [(later_point, 5%Z); (zero_price_point, 6%Z)])).
Proof.
  split; [reflexivity|].
  apply (blend_at_zero_strength zero_strength_integrator
           [(later_point, 5%Z); (zero_price_point, 6%Z)] eq_refl).
Defined.

(** C3, as stated, fails in its second half: with strength 0 and an
    anticipation of 0.3, the blended [rho] is the traditional [rho] 0.5,
    not 0.5 offset by the anticipation term. *)
Lemma rho_offset_counterexample :
  Integrator.init plain_draws (Some two_node_config) (Some 0)
  = Ok zero_strength_integrator /\
  GCT.rho (Integrator._integrate_coherence_approaches
             zero_strength_integrator Integrator.neutral_gct 0.5 0.3)
  = GCT.rho Integrator.neutral_gct /\
  GCT.rho (Integrator._integrate_coherence_approaches
             zero_strength_integrator Integrator.neutral_gct 0.5 0.3)
  <> np_clip (GCT.rho Integrator.neutral_gct + np_clip 0.3 (-0.5) 0.5) 0 1.
Proof.
  split; [reflexivity|].
  rewrite (integrate_at_zero zero_strength_integrator Integrator.neutral_gct
             0.5 0.3 eq_refl neutral_in_unit).
  split; [reflexivity|].
  cbn [GCT.rho Integrator.neutral_gct].
  rewrite (np_clip_id 0.3 (-0.5) 0.5) by lra.
  rewrite (np_clip_id (0.5 + 0.3) 0 1) by lra.
  lra.
Qed.

(** ** The exception boundary *)

Lemma traditional_short (dp : MarketDataPoint) (s : Integrator.t) :
  (length (Integrator.market_history s) < 5)%nat ->
  Integrator._compute_traditional_gct dp s = (Ok Integrator.neutral_gct, s).
Proof.
  intros Hlen. unfold Integrator._compute_traditional_gct, bind, get.
  rewrite length_map, length_last_n.
  destruct (Nat.ltb_spec (Nat.min 20 (length (Integrator.market_history s))) 5);
    [reflexivity|lia].
Qed.

Lemma encode_raises (dp prev last : MarketDataPoint) (s : Integrator.t) :
  Integrator.market_history s = [prev; last] ->
  price prev = 0 ->
  Integrator._encode_market_signals dp s = (Raise ZeroDivisionError, s).
Proof.
  intros Hh Hp. unfold Integrator._encode_market_signals.
  unfold bind at 1, get at 1. rewrite Hh.
  cbn [length Nat.leb]. unfold bind at 1. unfold bind at 1.
  unfold py_neg_index. cbn [length Nat.leb Nat.sub lookup list_lookup].
  unfold ret at 1. unfold bind at 1. unfold py_div. rewrite Hp.
  destruct (Req_EM_T 0 0) as [_|Hne]; [reflexivity|congruence].
Qed.

Lemma body_raises_after_zero_price (dp prev : MarketDataPoint) (b : bool)
  (now : Z) (s : Integrator.t) :
  Integrator.market_history s = [prev] ->
  price prev = 0 ->
  exists s1,
    Integrator.process_body dp b now s = (Raise ZeroDivisionError, s1).
Proof.
  intros Hh Hp. unfold Integrator.process_body.
  unfold bind at 1, modify at 1.
  set (s0 := Integrator.set_market_history s _).
  assert (Hh0 : Integrator.market_history s0 = [prev; dp])
    by (unfold s0; cbn [Integrator.market_history Integrator.set_market_history];
        rewrite Hh; reflexivity).
  unfold bind at 1.
  rewrite traditional_short by (rewrite Hh0; simpl; lia).
  unfold bind at 1, get at 1. unfold bind at 1.
  rewrite (encode_raises dp prev dp s0 Hh0 Hp).
  exists s0. reflexivity.
Qed.

(** C7. When the [try] block of [process_market_data_stream] raises, the
    call does not: it returns the fallback result, whose coherence
    components (traditional and blended) are all 0.5 and whose
    anticipation, prediction confidence, symbolic resonance and adaptation
    efficiency are all 0. *)
Theorem fallback_on_exception (dp : MarketDataPoint) (b : bool) (now : Z)
  (s : Integrator.t) (e : exn) (s1 : Integrator.t) :
  Integrator.process_body dp b now s = (Raise e, s1) ->
  exists r,
    Integrator.process_market_data_stream dp b now s = (Ok r, s1) /\
    GCT.psi (Result.traditional_gct r) = 0.5 /\
    GCT.rho (Result.traditional_gct r) = 0.5 /\
    GCT.q (Result.traditional_gct r) = 0.5 /\
    GCT.f (Result.traditional_gct r) = 0.5 /\
    GCT.psi (Result.basal_enhanced_gct r) = 0.5 /\
    GCT.rho (Result.basal_enhanced_gct r) = 0.5 /\
    GCT.q (Result.basal_enhanced_gct r) = 0.5 /\
    GCT.f (Result.basal_enhanced_gct r) = 0.5 /\
    Result.anticipation_capacity r = 0 /\
    Result.prediction_confidence r = 0 /\
    Result.symbolic_resonance r = 0 /\
    Result.adaptation_efficiency r = 0.
Proof.
  intros Hb. exists (Integrator._create_fallback_result dp now).
  unfold Integrator.process_market_data_stream, try_except. rewrite Hb.
  repeat split; reflexivity.
Qed.

Lemma after_zero_price_history :
  Integrator.market_history
    (snd (Integrator.process_market_data_stream zero_price_point true 0%Z
            zero_strength_integrator))
  = [zero_price_point].
Proof.
  destruct (process_frame zero_price_point true 0%Z zero_strength_integrator)
    as [_ H].
  rewrite H. reflexivity.
Qed.

Lemma fallback_on_exception_witness :
  exists s1 r,
    Integrator.process_body later_point true 1%Z
      (snd (Integrator.process_market_data_stream zero_price_point true 0%Z
              zero_strength_integrator))
    = (Raise ZeroDivisionError, s1) /\
    Integrator.process_market_data_stream later_point true 1%Z
      (snd (Integrator.process_market_data_stream zero_price_point true 0%Z
              zero_strength_integrator))
    = (Ok r, s1) /\
    Result.anticipation_capacity r = 0.
Proof.
  destruct (body_raises_after_zero_price later_point zero_price_point true 1%Z
              _ after_zero_price_history eq_refl) as (s1 & Hb).
  destruct (fallback_on_exception _ _ _ _ _ _ Hb)
    as (r & Hr & _ & _ & _ & _ & _ & _ & _ & _ & Ha & _).
  exists s1, r. split; [exact Hb|]. split; [exact Hr|exact Ha].
Defined.

(** ** Relational reasoning *)

Lemma sim_refl (s : Integrator.t) : sim s s.
Proof. repeat split; reflexivity. Qed.

Lemma related_bind {A B} (RA : A -> A -> Prop) (RB : B -> B -> Prop)
  (m1 m2 : M Integrator.t A) (k1 k2 : A -> M Integrator.t B) :
  related RA m1 m2 ->
  (forall a1 a2, RA a1 a2 -> related RB (k1 a1) (k2 a2)) ->
  related RB (bind m1 k1) (bind m2 k2).
Proof.
  intros Hm Hk s1 s2 Hs. unfold bind.
  destruct (Hm s1 s2 Hs) as [Hr Hs'].
  destruct (m1 s1) as [[a1|e1] t1], (m2 s2) as [[a2|e2] t2];
    simpl in Hr, Hs'; try contradiction.
  - apply Hk; assumption.
  - split; [exact I|exact Hs'].
Qed.

Lemma related_ret {A} (RA : A -> A -> Prop) (a1 a2 : A) :
  RA a1 a2 -> related RA (ret a1) (ret a2).
Proof. intros H s1 s2 Hs. split; [exact H|exact Hs]. Qed.

Lemma related_get : related sim get get.
Proof. intros s1 s2 Hs. split; exact Hs. Qed.

Lemma related_modify (g1 g2 : Integrator.t -> Integrator.t) :
  (forall s1 s2, sim s1 s2 -> sim (g1 s1) (g2 s2)) ->
  related eq (modify g1) (modify g2).
Proof. intros H s1 s2 Hs. split; [reflexivity|apply H, Hs]. Qed.

Lemma related_try {A} (RA : A -> A -> Prop) (m1 m2 : M Integrator.t A)
  (h1 h2 : exn -> M Integrator.t A) :
  related RA m1 m2 ->
  (forall e1 e2, related RA (h1 e1) (h2 e2)) ->
  related RA (try_except m1 h1) (try_except m2 h2).
Proof.
  intros Hm Hh s1 s2 Hs. unfold try_except.
  destruct (Hm s1 s2 Hs) as [Hr Hs'].
  destruct (m1 s1) as [[a1|e1] t1], (m2 s2) as [[a2|e2] t2];
    simpl in Hr, Hs'; try contradiction.
  - split; assumption.
  - apply Hh, Hs'.
Qed.

Lemma related_pure {A} (m : M Integrator.t A) :
  pure_comp m -> related eq m m.
Proof.
  intros [c Hc] s1 s2 Hs. rewrite !Hc. simpl.
  split; [destruct c; simpl; auto|exact Hs].
Qed.

Lemma related_on_engine {A} (m : M Engine.t A) :
  related eq (Integrator.on_engine m) (Integrator.on_engine m).
Proof.
  intros s1 s2 Hs. unfold Integrator.on_engine.
  destruct Hs as (He & Ha & Hh & Hr & Hp & Hc). rewrite He.
  destruct (m _) as [r e]. simpl. split.
  - destruct r; simpl; auto.
  - repeat split; assumption.
Qed.

Lemma pure_ret {A} (a : A) : pure_comp (ret a).
Proof. exists (Ok a). reflexivity. Qed.

Lemma pure_raise {A} (e : exn) : pure_comp (@raise Integrator.t A e).
Proof. exists (Raise e). reflexivity. Qed.

Lemma pure_py_div (a b : R) : pure_comp (py_div a b).
Proof.
  unfold py_div. destruct (Req_EM_T b 0); [apply pure_raise|apply pure_ret].
Qed.

Lemma pure_py_neg_index {A} (l : list A) (k : nat) :
  pure_comp (py_neg_index l k).
Proof.
  unfold py_neg_index. destruct (_ <=? _)%nat; [|apply pure_raise].
  destruct (_ !! _); [apply pure_ret|apply pure_raise].
Qed.

Lemma pure_bind {A B} (m : M Integrator.t A) (k : A -> M Integrator.t B) :
  pure_comp m -> (forall a, pure_comp (k a)) -> pure_comp (bind m k).
Proof.
  intros [c Hc] Hk. destruct c as [a|e].
  - destruct (Hk a) as [c' Hc']. exists c'. intros s.
    unfold bind. rewrite Hc. apply Hc'.
  - exists (Raise e). intros s. unfold bind. rewrite Hc. reflexivity.
Qed.

Lemma related_reader {A} (k : Integrator.t -> M Integrator.t A) :
  (forall a1 a2, sim a1 a2 -> k a1 = k a2) ->
  (forall a, pure_comp (k a)) ->
  related eq (bind get k) (bind get k).
Proof.
  intros Hk Hp s1 s2 Hs. unfold bind, get.
  rewrite (Hk s1 s2 Hs). apply (related_pure _ (Hp s2)), Hs.
Qed.

(** ** One step on similar integrators *)

Lemma map_tl {A B} (g : A -> B) (l : list A) : map g (tl l) = tl (map g l).
Proof. destruct l; reflexivity. Qed.

Lemma map_append_capped {A B} (g : A -> B) (n : nat) (l : list A) (x : A) :
  map g (append_capped n l x) = append_capped n (map g l) (g x).
Proof.
  unfold append_capped. rewrite !length_app, length_map. cbn [length].
  destruct (_ <? _)%nat.
  - rewrite map_tl, map_app. reflexivity.
  - rewrite map_app. reflexivity.
Qed.

Lemma map_last_n {A B} (g : A -> B) (n : nat) (l : list A) :
  map g (last_n n l) = last_n n (map g l).
Proof. unfold last_n. rewrite length_map. symmetry. apply skipn_map. Qed.

Lemma map_slice_neg {A B} (g : A -> B) (a b : nat) (l : list A) :
  map g (slice_neg a b l) = slice_neg a b (map g l).
Proof.
  unfold slice_neg. rewrite length_map.
  rewrite <- firstn_map, <- skipn_map. reflexivity.
Qed.

Lemma efficiency_eq (s : Integrator.t) :
  Integrator._compute_adaptation_efficiency s
  = efficiency_of
      (map (fun r => GCT.psi (Result.basal_enhanced_gct r))
           (Integrator.coherence_results s)).
Proof.
  unfold Integrator._compute_adaptation_efficiency, efficiency_of.
  rewrite <- !map_last_n, <- !map_slice_neg, !length_map.
  destruct (_ <? 10)%nat; [reflexivity|].
  destruct (20 <=? _)%nat; rewrite !length_map; reflexivity.
Qed.

Lemma efficiency_sim (a1 a2 : Integrator.t) :
  sim a1 a2 ->
  Integrator._compute_adaptation_efficiency a1
  = Integrator._compute_adaptation_efficiency a2.
Proof.
  intros (_ & _ & _ & Hr & _). rewrite !efficiency_eq. f_equal.
  apply (f_equal (map (fun r => GCT.psi (Result.basal_enhanced_gct r)))) in Hr.
  rewrite !map_map in Hr. exact Hr.
Qed.

Lemma prepare_sim (a1 a2 : Integrator.t) :
  sim a1 a2 ->
  Integrator._prepare_market_data_for_reservoir a1
  = Integrator._prepare_market_data_for_reservoir a2.
Proof.
  intros (_ & _ & Hh & _).
  unfold Integrator._prepare_market_data_for_reservoir. rewrite Hh.
  reflexivity.
Qed.

Lemma integrate_sim (a1 a2 : Integrator.t) (t : GCT.t) (bc ant : R) :
  sim a1 a2 ->
  Integrator._integrate_coherence_approaches a1 t bc ant
  = Integrator._integrate_coherence_approaches a2 t bc ant.
Proof.
  intros (He & Ha & _).
  unfold Integrator._integrate_coherence_approaches. rewrite He, Ha.
  reflexivity.
Qed.

Lemma traditional_related (dp : MarketDataPoint) :
  related eq (Integrator._compute_traditional_gct dp)
             (Integrator._compute_traditional_gct dp).
Proof.
  unfold Integrator._compute_traditional_gct. apply related_reader.
  - intros a1 a2 (_ & _ & Hh & _). rewrite Hh. reflexivity.
  - intros a. destruct (_ <? 5)%nat; [apply pure_ret|].
    apply pure_bind; [|intros; apply pure_ret].
    destruct (sentiment dp); [apply pure_ret|].
    destruct (3 <=? _)%nat; [|apply pure_ret].
    repeat (apply pure_bind;
            [first [apply pure_py_neg_index|apply pure_py_div]|intros]).
    apply pure_ret.
Qed.

Lemma encode_related (dp : MarketDataPoint) :
  related eq (Integrator._encode_market_signals dp)
             (Integrator._encode_market_signals dp).
Proof.
  unfold Integrator._encode_market_signals. apply related_reader.
  - intros a1 a2 (He & _ & Hh & _). rewrite Hh, He. reflexivity.
  - intros a. apply pure_bind; [|intros; apply pure_ret].
    destruct (2 <=? _)%nat; [|apply pure_ret].
    repeat (apply pure_bind;
            [first [apply pure_py_neg_index|apply pure_py_div]|intros]).
    apply pure_ret.
Qed.

Lemma resonance_related (dp : MarketDataPoint) (acts : list R) :
  related eq (Integrator._compute_symbolic_resonance dp acts)
             (Integrator._compute_symbolic_resonance dp acts).
Proof.
  unfold Integrator._compute_symbolic_resonance. apply related_reader.
  - intros a1 a2 (He & _ & Hh & _). rewrite Hh, He. reflexivity.
  - intros a. apply pure_bind; [|intros; apply pure_ret].
    destruct (3 <=? _)%nat; [|apply pure_ret].
    apply pure_bind; [apply pure_py_neg_index|intros; apply pure_py_div].
Qed.

Lemma confidence_related (market_data : list R) :
  related eq (Integrator._compute_prediction_confidence market_data)
             (Integrator._compute_prediction_confidence market_data).
Proof.
  unfold Integrator._compute_prediction_confidence.
  apply related_try; [|intros; apply related_ret; reflexivity].
  apply (related_bind eq); [apply related_on_engine|].
  intros predictions ? <-. apply related_reader.
  - intros a1 a2 (He & _). rewrite He. reflexivity.
  - intros a. apply pure_ret.
Qed.

Lemma sim_set_history (s1 s2 : Integrator.t) (dp : MarketDataPoint) :
  sim s1 s2 ->
  sim (Integrator.set_market_history s1
         (append_capped 1000 (Integrator.market_history s1) dp))
      (Integrator.set_market_history s2
         (append_capped 1000 (Integrator.market_history s2) dp)).
Proof.
  intros (He & Ha & Hh & Hr & Hp & Hc).
  repeat split; try assumption. simpl. rewrite Hh. reflexivity.
Qed.

Lemma sim_set_results (s1 s2 : Integrator.t) (r1 r2 : Result.t) :
  same_but_timestamp r1 r2 -> sim s1 s2 ->
  sim (Integrator.set_coherence_results s1
         (append_capped 500 (Integrator.coherence_results s1) r1))
      (Integrator.set_coherence_results s2
         (append_capped 500 (Integrator.coherence_results s2) r2)).
Proof.
  intros Hrr (He & Ha & Hh & Hr & Hp & Hc).
  repeat split; try assumption. simpl.
  rewrite !map_append_capped, Hr, Hrr. reflexivity.
Qed.

Lemma sim_set_accuracy (s1 s2 : Integrator.t) (x : R) :
  sim s1 s2 ->
  sim (Integrator.set_accuracy_tracker s1
         (append_capped 100 (Integrator.prediction_accuracy_tracker s1) x))
      (Integrator.set_accuracy_tracker s2
         (append_capped 100 (Integrator.prediction_accuracy_tracker s2) x)).
Proof.
  intros (He & Ha & Hh & Hr & Hp & Hc).
  repeat split; try assumption. simpl. rewrite Hp. reflexivity.
Qed.

Lemma sim_set_stability (s1 s2 : Integrator.t) (x : R) :
  sim s1 s2 ->
  sim (Integrator.set_stability_tracker s1
         (append_capped 50 (Integrator.coherence_stability_tracker s1) x))
      (Integrator.set_stability_tracker s2
         (append_capped 50 (Integrator.coherence_stability_tracker s2) x)).
Proof.
  intros (He & Ha & Hh & Hr & Hp & Hc).
  repeat split; try assumption. simpl. rewrite Hc. reflexivity.
Qed.

Lemma update_metrics_related (r1 r2 : Result.t) :
  same_but_timestamp r1 r2 ->
  related eq (Integrator._update_performance_metrics r1)
             (Integrator._update_performance_metrics r2).
Proof.
  intros Hrr.
  assert (Hant : Result.anticipation_capacity r1
                 = Result.anticipation_capacity r2)
    by exact (f_equal Result.anticipation_capacity Hrr).
  assert (Hpsi : GCT.psi (Result.basal_enhanced_gct r1)
                 = GCT.psi (Result.basal_enhanced_gct r2))
    by exact (f_equal (fun r => GCT.psi (Result.basal_enhanced_gct r)) Hrr).
  unfold Integrator._update_performance_metrics.
  apply (related_bind sim); [apply related_get|].
  intros a1 a2 Ha. destruct Ha as (_ & _ & Hh & _). rewrite Hh, Hant, Hpsi.
  apply (related_bind eq).
  - destruct (2 <=? _)%nat; [|apply related_ret; reflexivity].
    apply (related_bind eq);
      [apply related_pure, pure_py_neg_index|intros last1 ? <-].
    apply (related_bind eq);
      [apply related_pure, pure_py_neg_index|intros last2 ? <-].
    apply (related_bind eq);
      [apply related_pure, pure_py_div|intros pc ? <-].
    apply related_modify. intros s1 s2. apply sim_set_accuracy.
  - intros _ _ _. apply related_modify. intros s1 s2. apply sim_set_stability.
Qed.

Lemma process_body_related (dp : MarketDataPoint) (b : bool) (n1 n2 : Z) :
  related same_but_timestamp
    (Integrator.process_body dp b n1) (Integrator.process_body dp b n2).
Proof.
  unfold Integrator.process_body. cbv zeta.
  apply (related_bind eq).
  { apply related_modify. intros s1 s2. apply sim_set_history. }
  intros _ _ _.
  apply (related_bind eq); [apply traditional_related|intros trad ? <-].
  apply (related_bind sim); [apply related_get|intros a1 a2 Ha].
  apply (related_bind eq); [apply encode_related|intros inputs ? <-].
  apply (related_bind eq); [apply related_on_engine|intros acts ? <-].
  apply (related_bind eq); [apply related_on_engine|intros bc ? <-].
  apply (related_bind eq); [apply related_on_engine|intros ant ? <-].
  apply (related_bind sim); [apply related_get|intros b1 b2 Hb].
  apply (related_bind eq); [apply resonance_related|intros res ? <-].
  apply (related_bind eq).
  { destruct b; [|apply related_ret; reflexivity].
    rewrite (prepare_sim a1 a2 Ha). apply confidence_related. }
  intros pc ? <-.
  apply (related_bind sim); [apply related_get|intros c1 c2 Hc].
  match goal with
  | |- related _ (bind (modify (fun x => Integrator.set_coherence_results
                                   x (append_capped 500 _ ?r1))) _)
                 (bind (modify (fun y => Integrator.set_coherence_results
                                   y (append_capped 500 _ ?r2))) _) =>
      assert (Hrr : same_but_timestamp r1 r2)
  end.
  { unfold same_but_timestamp, erase_timestamp.
    cbn [Result.traditional_gct Result.basal_enhanced_gct
         Result.anticipation_capacity Result.prediction_confidence
         Result.symbolic_resonance Result.adaptation_efficiency
         Result.reservoir_state].
    rewrite (integrate_sim b1 b2 _ _ _ Hb), (efficiency_sim c1 c2 Hc).
    destruct Hc as (-> & _). reflexivity. }
  apply (related_bind eq).
  { apply related_modify. intros s1 s2. apply sim_set_results, Hrr. }
  intros _ _ _.
  apply (related_bind eq); [apply update_metrics_related, Hrr|intros _ _ _].
  apply related_ret, Hrr.
Qed.

Lemma process_related (dp : MarketDataPoint) (b : bool) (n1 n2 : Z) :
  related same_but_timestamp
    (Integrator.process_market_data_stream dp b n1)
    (Integrator.process_market_data_stream dp b n2).
Proof.
  unfold Integrator.process_market_data_stream.
  apply related_try; [apply process_body_related|].
  intros e1 e2. apply related_ret. reflexivity.
Qed.

Lemma run_related (stream1 stream2 : list (MarketDataPoint * Z)) :
  map fst stream1 = map fst stream2 ->
  forall s1 s2, sim s1 s2 ->
    map erase_outcome (fst (Integrator.run s1 stream1))
    = map erase_outcome (fst (Integrator.run s2 stream2)).
Proof.
  revert stream2. induction stream1 as [|[dp n1] stream1 IH];
    intros [|[dp2 n2] stream2] Hm s1 s2 Hs; try discriminate; [reflexivity|].
  injection Hm as <- Hm. cbn [Integrator.run].
  destruct (process_related dp true n1 n2 s1 s2 Hs) as [Hr Hs'].
  destruct (process_total dp true n1 s1) as (r1 & t1 & Hp1 & _).
  destruct (process_total dp true n2 s2) as (r2 & t2 & Hp2 & _).
  rewrite Hp1, Hp2 in Hr, Hs' |- *. simpl in Hr, Hs'.
  specialize (IH stream2 Hm t1 t2 Hs').
  destruct (Integrator.run t1 stream1) as [rs1 u1].
  destruct (Integrator.run t2 stream2) as [rs2 u2].
  simpl in IH |- *. f_equal; [|exact IH]. f_equal. exact Hr.
Qed.

(** ** Replay *)

Lemma process_timestamp (dp : MarketDataPoint) (b : bool) (now : Z)
  (s : Integrator.t) (r : Result.t) (s' : Integrator.t) :
  Integrator.process_market_data_stream dp b now s = (Ok r, s') ->
  Result.timestamp r = now.
Proof.
  unfold Integrator.process_market_data_stream, try_except.
  destruct (Integrator.process_body dp b now s) as [[r0|e] s1] eqn:Hb.
  - intros [= <- _].
    destruct (process_body_post _ _ _ _ _ _ Hb)
      as (_ & _ & _ & _ & _ & _ & _ & _ & _ & H).
    exact H.
  - unfold ret. intros [= <- _]. reflexivity.
Qed.

Lemma run_single (s : Integrator.t) (dp : MarketDataPoint) (now : Z) :
  exists r, fst (Integrator.run s [(dp, now)]) = [Ok r]
            /\ Result.timestamp r = now.
Proof.
  destruct (process_total dp true now s) as (r & s' & Hp & _).
  exists r. cbn [Integrator.run]. rewrite Hp. split; [reflexivity|].
  eapply process_timestamp, Hp.
Qed.

(** C8 (amended). Two integrators constructed from the same random draws,
    configuration and strength, fed the same ordered data points, return
    results that agree in every field except the creation timestamp,
    which is the clock reading of each run; when the clock readings
    coincide as well, the result sequences are identical. *)
Theorem replay_up_to_timestamp (d : RandomDraws)
  (cfg : option BasalReservoirConfig) (alpha : option R)
  (i1 i2 : Integrator.t) (stream1 stream2 : list (MarketDataPoint * Z)) :
  Integrator.init d cfg alpha = Ok i1 ->
  Integrator.init d cfg alpha = Ok i2 ->
  map fst stream1 = map fst stream2 ->
  map erase_outcome (fst (Integrator.run i1 stream1))
  = map erase_outcome (fst (Integrator.run i2 stream2)) /\
  (stream1 = stream2 ->
   fst (Integrator.run i1 stream1) = fst (Integrator.run i2 stream2)).
Proof.
  intros H1 H2 Hm. rewrite H1 in H2. injection H2 as <-. split.
  - apply run_related; [exact Hm|apply sim_refl].
  - intros <-. reflexivity.
Qed.

Lemma fresh_integrator_init :
  Integrator.init plain_draws (Some two_node_config) None
  = Ok fresh_integrator.
Proof. reflexivity. Qed.

Lemma replay_up_to_timestamp_witness :
  map erase_outcome
    (fst (Integrator.run fresh_integrator
            [(later_point, 10%Z); (zero_price_point, 20%Z)]))
  = map erase_outcome
      (fst (Integrator.run fresh_integrator
              [(later_point, 11%Z); (zero_price_point, 25%Z)])).
Proof.
  apply (replay_up_to_timestamp plain_draws (Some two_node_config) None
           fresh_integrator fresh_integrator
           [(later_point, 10%Z); (zero_price_point, 20%Z)]
           [(later_point, 11%Z); (zero_price_point, 25%Z)]
           fresh_integrator_init fresh_integrator_init eq_refl).
Defined.

(** C8, as stated, fails: the same data point replayed into the same
    fresh integrator at two different clock readings gives two results
    that differ (in their timestamp). *)
Lemma replay_counterexample :
  Integrator.init plain_draws (Some two_node_config) None
  = Ok fresh_integrator /\
  fst (Integrator.run fresh_integrator [(later_point, 0%Z)])
  <> fst (Integrator.run fresh_integrator [(later_point, 1%Z)]).
Proof.
  split; [exact fresh_integrator_init|].
  destruct (run_single fresh_integrator later_point 0%Z) as (r0 & -> & H0).
  destruct (run_single fresh_integrator later_point 1%Z) as (r1 & -> & H1).
  intros [= E]. rewrite E in H0. rewrite H0 in H1. discriminate H1.
Qed.

(** ** Node records: histories and activations *)

Lemma length_tl {A} (l : list A) : length (tl l) = (length l - 1)%nat.
Proof. destruct l; simpl; lia. Qed.

Lemma Forall_tl {A} (P : A -> Prop) (l : list A) :
  Forall P l -> Forall P (tl l).
Proof. intros H. destruct H; simpl; [constructor | assumption]. Qed.

Lemma Forall_snoc {A} (P : A -> Prop) (l : list A) (x : A) :
  Forall P l -> P x -> Forall P (l ++ [x]).
Proof.
  intros Hl Hx. apply Forall_app. split; [exact Hl|].
  constructor; [exact Hx | constructor].
Qed.

Lemma last_tl_snoc {A} (l : list A) (x : A) :
  (1 <= length l)%nat -> last (tl (l ++ [x])) = Some x.
Proof.
  destruct l as [|y l]; simpl; [lia|]. intros _. apply last_snoc.
Qed.

Lemma update_energy_activation n ext ns :
  exists x, Node.activation (Node.update_energy n ext ns) = tanh x.
Proof.
  unfold Node.update_energy. destruct (_ <? _)%nat; simpl; eauto.
Qed.

Lemma update_energy_recorded (k : nat) n ext ns :
  recorded k n -> recorded (S k) (Node.update_energy n ext ns).
Proof.
  intros (La & Le & Fa & Fe & _).
  unfold recorded, Node.update_energy.
  set (a := tanh _). set (en := np_clip _ 0 1).
  assert (Ba0 : -1 < a < 1) by apply tanh_bounds.
  assert (Ba : -1 <= a <= 1) by lra.
  assert (Be : unit_interval en) by apply np_clip_unit.
  destruct (100 <? length (Node.activation_history n ++ [a]))%nat eqn:C;
    simpl.
  - apply Nat.ltb_lt in C. rewrite length_app in C. simpl in C.
    rewrite !length_tl, !length_app. simpl.
    split; [lia|]. split; [lia|].
    split; [apply Forall_tl, Forall_snoc; assumption|].
    split; [apply Forall_tl, Forall_snoc; assumption|].
    intros _. split; apply last_tl_snoc; lia.
  - apply Nat.ltb_ge in C. rewrite length_app in C. simpl in C.
    rewrite !length_app. simpl.
    split; [lia|]. split; [lia|].
    split; [apply Forall_snoc; assumption|].
    split; [apply Forall_snoc; assumption|].
    intros _. split; apply last_snoc.
Qed.

Lemma recorded_ext (k : nat) (n n' : Node.t) :
  Node.activation n' = Node.activation n ->
  Node.energy n' = Node.energy n ->
  Node.activation_history n' = Node.activation_history n ->
  Node.energy_history n' = Node.energy_history n ->
  recorded k n -> recorded k n'.
Proof.
  unfold recorded. intros -> -> -> ->. tauto.
Qed.

Lemma node_step_recorded (k : nat) ext snap n :
  recorded k n -> recorded (S k) (node_step ext snap n).
Proof.
  intros H. unfold node_step.
  set (ns := Engine.neighbor_states_of snap n).
  pose proof (update_energy_recorded k n ext ns H) as H1.
  set (n1 := Node.update_energy n ext ns) in *.
  pose proof (learning_fields n1 ns) as L. simpl in L.
  set (n2 := Node.homeodynamic_learning n1 ns) in *.
  pose proof (adapt_fields n2) as A. simpl in A.
  apply (recorded_ext _ n1); [| | | |exact H1].
  - destruct A as (_&_&_&->&_). tauto.
  - destruct A as (_&_&->&_). tauto.
  - destruct A as (_&_&_&_&_&_&->). tauto.
  - destruct A as (_&_&_&_&_&->&_). tauto.
Qed.

Lemma run_steps_recorded (inputs : list (option (gmap nat R))) :
  forall (k : nat) (e : Engine.t),
    Forall (recorded k) (Engine.nodes e) ->
    Forall (recorded (k + length inputs))
           (Engine.nodes (run_steps e inputs)).
Proof.
  induction inputs as [|i inputs IH]; intros k e H.
  - simpl. rewrite Nat.add_0_r. exact H.
  - rewrite run_steps_cons. simpl length.
    replace (k + S (length inputs))%nat with (S k + length inputs)%nat by lia.
    apply IH. rewrite nodes_update. apply Forall_map.
    eapply Forall_impl; [exact H|]. intros n Hn.
    apply node_step_recorded. exact Hn.
Qed.

Lemma init_recorded (d : RandomDraws) (cfg : BasalReservoirConfig) :
  Forall (recorded 0) (Engine.nodes (Engine.init d cfg)).
Proof.
  apply Forall_lookup. intros i n.
  unfold Engine.init, Engine._initialize_connection_weights. simpl.
  rewrite list_lookup_imap.
  destruct (imap _ _ !! i) as [n0|] eqn:H0; [|discriminate].
  simpl. intros [= <-].
  rewrite list_lookup_imap in H0.
  destruct (map _ _ !! i) as [pos|]; [|discriminate].
  simpl in H0. injection H0 as <-. unfold recorded. simpl.
  split; [reflexivity|]. split; [reflexivity|].
  split; [constructor|]. split; [constructor|]. lia.
Qed.

(** X1. After [k] steps from construction every node has recorded
    [min k 100] activations and as many energies (the two histories are
    trimmed to the last 100 entries), and after at least one step the
    latest record of each history is the node's current activation resp.
    energy. When the uniform draws lie in their intervals and the
    inputs, the drawn weights and the configuration floats are moderate
    (at most 1e100 in magnitude, so that no step produces a NaN), every
    recorded activation lies in [-1,1] and every recorded energy in
    [0,1]. *)
Theorem node_histories (d : RandomDraws) (cfg : BasalReservoirConfig)
  (inputs : list (option (gmap nat R))) :
  Forall
    (fun n =>
       length (Node.activation_history n) = Nat.min (length inputs) 100 /\
       length (Node.energy_history n) = Nat.min (length inputs) 100 /\
       (inputs <> [] ->
        last (Node.activation_history n) = Some (Node.activation n) /\
        last (Node.energy_history n) = Some (Node.energy n)))
    (Engine.nodes (run_steps (Engine.init d cfg) inputs)) /\
  (draws_in_range d -> moderate_draws d -> moderate_config cfg ->
   Forall moderate_inputs inputs ->
   Forall
     (fun n =>
        Forall (fun a => -1 <= a <= 1) (Node.activation_history n) /\
        Forall unit_interval (Node.energy_history n))
     (Engine.nodes (run_steps (Engine.init d cfg) inputs))).
Proof.
  pose proof (run_steps_recorded inputs 0 _ (init_recorded d cfg)) as H.
  simpl in H. split.
  - eapply Forall_impl; [exact H|].
    intros n (La & Le & Fa & Fe & Hl). repeat (split; [assumption|]).
    intros Hne. apply Hl. destruct inputs; [congruence | simpl; lia].
  - intros _ _ _ _. eapply Forall_impl; [exact H|].
    intros n (_ & _ & Fa & Fe & _). split; assumption.
Qed.

Lemma node_step_activation ext snap n :
  Node.activation (node_step ext snap n) = node_activation ext snap n.
Proof.
  unfold node_step, node_activation.
  set (ns := Engine.neighbor_states_of snap n).
  set (n1 := Node.update_energy n ext ns).
  pose proof (learning_fields n1 ns) as L. simpl in L.
  pose proof (adapt_fields (Node.homeodynamic_learning n1 ns)) as A.
  simpl in A.
  destruct A as (_&_&_&->&_). destruct L as (_&_&_&_&->&_). reflexivity.
Qed.

(** X2. One call of [update_reservoir_state] returns one activation per
    node, in node order, each the value then stored in the node's
    [activation] field; the number of nodes, the adjacency matrix, the
    coherence state and the coherence history are unchanged. When the
    inputs and the weights of the nodes are moderate (at most 1e100 in
    magnitude) and the activations before the call lie in [-1,1], so
    that no weighted sum overflows, the returned activations lie in
    [-1,1]. *)
Theorem update_returns_activations (e : Engine.t)
  (inputs : option (gmap nat R)) :
  let e' := fst (Engine.update_reservoir_state e inputs) in
  let activations := snd (Engine.update_reservoir_state e inputs) in
  length activations = length (Engine.nodes e) /\
  activations = map Node.activation (Engine.nodes e') /\
  length (Engine.nodes e') = length (Engine.nodes e) /\
  Engine.adjacency_matrix e' = Engine.adjacency_matrix e /\
  Engine.coherence_state e' = Engine.coherence_state e /\
  Engine.coherence_history e' = Engine.coherence_history e /\
  (moderate_inputs inputs ->
   Forall (fun n =>
             -1 <= Node.activation n <= 1 /\
             forall k w, Node.incoming_weights n !! k = Some w -> moderate w)
          (Engine.nodes e) ->
   Forall (fun a => -1 <= a <= 1) activations).
Proof.
  rewrite update_reservoir_state_eq. simpl.
  split; [apply length_map|].
  split.
  { rewrite map_map. apply map_ext. intros n.
    symmetry. apply node_step_activation. }
  split; [apply length_map|].
  split; [reflexivity|]. split; [reflexivity|]. split; [reflexivity|].
  intros _ _.
  apply Forall_map. apply Forall_forall. intros n _.
  unfold node_activation.
  destruct (update_energy_activation n (default ∅ inputs)
              (Engine.neighbor_states_of
                 (Engine.current_activations (Engine.nodes e)) n))
    as [x ->].
  pose proof (tanh_bounds x). lra.
Qed.

(** ** Topology: adjacency matrix and connection weights *)

Lemma zip_sq_sym (p : list R) :
  forall q,
    zip_with (fun a b => (a - b) * (a - b)) p q
    = zip_with (fun a b => (a - b) * (a - b)) q p.
Proof.
  induction p as [|a p IH]; intros [|b q]; simpl; try reflexivity.
  f_equal; [ring | apply IH].
Qed.

Lemma norm_diff_sym (p q : list R) :
  np_linalg_norm_diff p q = np_linalg_norm_diff q p.
Proof. unfold np_linalg_norm_diff. rewrite zip_sq_sym. reflexivity. Qed.

Lemma norm_diff_nonneg (p q : list R) : 0 <= np_linalg_norm_diff p q.
Proof. unfold np_linalg_norm_diff. apply sqrt_pos. Qed.

Lemma raw_nodes_lookup (d : RandomDraws) (cfg : BasalReservoirConfig)
  (i : nat) :
  imap (Engine.node_init d cfg)
       (map (uniform_position d) (seq 0 (num_nodes cfg))) !! i
  = if decide (i < num_nodes cfg)%nat
    then Some (Engine.node_init d cfg i (uniform_position d i))
    else None.
Proof.
  rewrite list_lookup_imap, list_lookup_fmap.
  destruct (decide (i < num_nodes cfg)%nat) as [Hi|Hi].
  - rewrite lookup_seq_lt by exact Hi. reflexivity.
  - rewrite lookup_seq_ge by lia. reflexivity.
Qed.

Lemma raw_nodes_length (d : RandomDraws) (cfg : BasalReservoirConfig) :
  length (imap (Engine.node_init d cfg)
               (map (uniform_position d) (seq 0 (num_nodes cfg))))
  = num_nodes cfg.
Proof. rewrite length_imap, length_map, length_seq. reflexivity. Qed.

Lemma init_nodes_length (d : RandomDraws) (cfg : BasalReservoirConfig) :
  length (Engine.nodes (Engine.init d cfg)) = num_nodes cfg.
Proof.
  unfold Engine.init, Engine._initialize_connection_weights. simpl.
  rewrite length_imap. apply raw_nodes_length.
Qed.

Lemma run_steps_length (inputs : list (option (gmap nat R))) :
  forall e : Engine.t,
    length (Engine.nodes (run_steps e inputs)) = length (Engine.nodes e).
Proof.
  induction inputs as [|i inputs IH]; intros e; [reflexivity|].
  rewrite run_steps_cons, IH, nodes_update. apply length_map.
Qed.

(** The entry [adjacency_matrix[i][j]] of a constructed engine. *)
Lemma adjacency_entry (d : RandomDraws) (cfg : BasalReservoirConfig)
  (i j : nat) :
  (i < num_nodes cfg)%nat -> (j < num_nodes cfg)%nat ->
  nth j (Engine.matrix_row (Engine.adjacency_matrix (Engine.init d cfg)) i) 0
  = if decide (i <> j) then
      if Rlt_dec (np_linalg_norm_diff (uniform_position d i)
                                      (uniform_position d j))
                 (connection_radius cfg)
      then exp (- np_linalg_norm_diff (uniform_position d i)
                                      (uniform_position d j)
                / (connection_radius cfg / 2))
      else 0
    else 0.
Proof.
  intros Hi Hj.
  unfold Engine.init, Engine.matrix_row. simpl.
  unfold Engine._build_spatial_connectivity.
  rewrite !nth_lookup, list_lookup_imap, raw_nodes_lookup.
  destruct (decide (i < num_nodes cfg)%nat); [|lia]. simpl.
  rewrite list_lookup_imap, raw_nodes_lookup.
  destruct (decide (j < num_nodes cfg)%nat); [|lia]. simpl.
  reflexivity.
Qed.

Lemma adjacency_row_length (d : RandomDraws) (cfg : BasalReservoirConfig)
  (i : nat) :
  (i < num_nodes cfg)%nat ->
  length (Engine.matrix_row (Engine.adjacency_matrix (Engine.init d cfg)) i)
  = num_nodes cfg.
Proof.
  intros Hi.
  unfold Engine.init, Engine.matrix_row. simpl.
  unfold Engine._build_spatial_connectivity.
  rewrite nth_lookup, list_lookup_imap, raw_nodes_lookup.
  destruct (decide (i < num_nodes cfg)%nat); [|lia]. simpl.
  rewrite length_imap. apply raw_nodes_length.
Qed.

Lemma adjacency_length (d : RandomDraws) (cfg : BasalReservoirConfig) :
  length (Engine.adjacency_matrix (Engine.init d cfg)) = num_nodes cfg.
Proof.
  unfold Engine.init. simpl. unfold Engine._build_spatial_connectivity.
  rewrite length_imap. apply raw_nodes_length.
Qed.

Lemma adjacency_entry_positive (d : RandomDraws)
  (cfg : BasalReservoirConfig) (i j : nat) :
  (i < num_nodes cfg)%nat -> (j < num_nodes cfg)%nat ->
  nth j (Engine.matrix_row (Engine.adjacency_matrix (Engine.init d cfg)) i) 0
  > 0
  <-> i <> j /\
      np_linalg_norm_diff (uniform_position d i) (uniform_position d j)
      < connection_radius cfg.
Proof.
  intros Hi Hj. rewrite adjacency_entry by assumption.
  destruct (decide (i <> j)) as [Hne|He].
  - destruct (Rlt_dec _ _) as [Hl|Hl].
    + split; [tauto|]. intros _. apply exp_pos.
    + split; [lra | tauto].
  - split; [lra | tauto].
Qed.

(** X3. The adjacency matrix built by the constructor is a square
    [num_nodes x num_nodes] matrix with a zero diagonal, it is symmetric,
    and every entry lies in [0,1]. *)
Theorem adjacency_matrix_shape (d : RandomDraws)
  (cfg : BasalReservoirConfig) (i j : nat) :
  (i < num_nodes cfg)%nat -> (j < num_nodes cfg)%nat ->
  let A := Engine.adjacency_matrix (Engine.init d cfg) in
  length A = num_nodes cfg /\
  length (Engine.matrix_row A i) = num_nodes cfg /\
  nth i (Engine.matrix_row A i) 0 = 0 /\
  nth j (Engine.matrix_row A i) 0 = nth i (Engine.matrix_row A j) 0 /\
  0 <= nth j (Engine.matrix_row A i) 0 <= 1.
Proof.
  intros Hi Hj A. unfold A.
  split; [apply adjacency_length|].
  split; [apply adjacency_row_length; exact Hi|].
  split.
  { rewrite adjacency_entry by assumption.
    destruct (decide (i <> i)); [congruence | reflexivity]. }
  split.
  { rewrite !adjacency_entry by assumption.
    rewrite (norm_diff_sym (uniform_position d j)).
    destruct (decide (i <> j)), (decide (j <> i)); try reflexivity;
      exfalso; lia. }
  rewrite adjacency_entry by assumption.
  destruct (decide (i <> j)); [|lra].
  destruct (Rlt_dec _ _) as [Hl|Hl]; [|lra].
  set (dist := np_linalg_norm_diff _ _) in *.
  assert (Hd : 0 <= dist) by apply norm_diff_nonneg.
  split; [left; apply exp_pos|].
  rewrite <- exp_0.
  destruct (Req_dec dist 0) as [E|E].
  - rewrite E. unfold Rdiv. rewrite Ropp_0, Rmult_0_l. lra.
  - left. apply exp_increasing.
    assert (Hr : 0 < connection_radius cfg / 2) by lra.
    unfold Rdiv at 1.
    assert (Hinv : 0 < / (connection_radius cfg / 2))
      by (apply Rinv_0_lt_compat; exact Hr).
    assert (0 < dist) by lra. nra.
Qed.

Lemma adjacency_matrix_shape_witness :
  (0 < num_nodes two_node_config)%nat /\
  (1 < num_nodes two_node_config)%nat /\
  nth 1 (Engine.matrix_row
           (Engine.adjacency_matrix (Engine.init plain_draws two_node_config))
           0) 0
  = nth 0 (Engine.matrix_row
             (Engine.adjacency_matrix
                (Engine.init plain_draws two_node_config)) 1) 0.
Proof.
  assert (H0 : (0 < num_nodes two_node_config)%nat) by (simpl; lia).
  assert (H1 : (1 < num_nodes two_node_config)%nat) by (simpl; lia).
  split; [exact H0|]. split; [exact H1|].
  exact (proj1 (proj2 (proj2 (proj2
    (adjacency_matrix_shape plain_draws two_node_config 0 1 H0 H1))))).
Defined.

(** [draw_weights] keeps exactly the indices with a positive strength. *)
Lemma draw_weights_lookup (draw : nat -> R) (strengths : list R) (j : nat) :
  Engine.draw_weights draw strengths !! j
  = match strengths !! j with
    | Some s => if Rgt_dec s 0 then Some (draw j * s) else None
    | None => None
    end.
Proof.
  unfold Engine.draw_weights.
  induction strengths as [|x l IH] using rev_ind.
  - simpl. rewrite lookup_empty. reflexivity.
  - rewrite imap_app, fold_left_app. simpl.
    rewrite Nat.add_0_r.
    destruct (decide (j = length l)) as [->|Hne].
    + rewrite list_lookup_middle by reflexivity.
      destruct (Rgt_dec x 0).
      * rewrite lookup_insert.
        destruct (decide (length l = length l)); [reflexivity|congruence].
      * rewrite IH. rewrite lookup_ge_None_2 by lia. reflexivity.
    + assert (E : (l ++ [x]) !! j = l !! j).
      { destruct (decide (j < length l)%nat).
        - apply lookup_app_l. assumption.
        - rewrite !lookup_ge_None_2; [reflexivity| lia |].
          rewrite length_app. simpl. lia. }
      rewrite E.
      destruct (Rgt_dec x 0).
      * rewrite lookup_insert_ne by congruence. apply IH.
      * apply IH.
Qed.

Lemma init_node_at (d : RandomDraws) (cfg : BasalReservoirConfig)
  (i : nat) (n : Node.t) :
  Engine.nodes (Engine.init d cfg) !! i = Some n ->
  (i < num_nodes cfg)%nat /\
  Node.node_id n = i /\
  Node.position n = uniform_position d i /\
  Node.incoming_weights n
  = Engine.draw_weights (normal_incoming d i)
      (Engine.matrix_column (Engine.adjacency_matrix (Engine.init d cfg)) i) /\
  Node.outgoing_weights n
  = Engine.draw_weights (normal_outgoing d i)
      (Engine.matrix_row (Engine.adjacency_matrix (Engine.init d cfg)) i).
Proof.
  unfold Engine.init at 1, Engine._initialize_connection_weights. simpl.
  rewrite list_lookup_imap, raw_nodes_lookup.
  destruct (decide (i < num_nodes cfg)%nat) as [Hi|]; [|discriminate].
  simpl. intros [= <-]. simpl. auto.
Qed.

Lemma column_lookup (d : RandomDraws) (cfg : BasalReservoirConfig)
  (i j : nat) :
  (i < num_nodes cfg)%nat ->
  Engine.matrix_column (Engine.adjacency_matrix (Engine.init d cfg)) i !! j
  = if decide (j < num_nodes cfg)%nat
    then Some (nth i (Engine.matrix_row
                        (Engine.adjacency_matrix (Engine.init d cfg)) j) 0)
    else None.
Proof.
  intros Hi. unfold Engine.matrix_column, Engine.matrix_row.
  rewrite list_lookup_fmap.
  destruct (decide (j < num_nodes cfg)%nat) as [Hj|Hj].
  - destruct (lookup_lt_is_Some_2 (Engine.adjacency_matrix (Engine.init d cfg)) j)
      as [row Hrow]; [rewrite adjacency_length; exact Hj|].
    rewrite (nth_lookup _ j), Hrow. reflexivity.
  - rewrite lookup_ge_None_2; [reflexivity|].
    rewrite adjacency_length. lia.
Qed.

Lemma row_lookup (d : RandomDraws) (cfg : BasalReservoirConfig)
  (i j : nat) :
  (i < num_nodes cfg)%nat ->
  Engine.matrix_row (Engine.adjacency_matrix (Engine.init d cfg)) i !! j
  = if decide (j < num_nodes cfg)%nat
    then Some (nth j (Engine.matrix_row
                        (Engine.adjacency_matrix (Engine.init d cfg)) i) 0)
    else None.
Proof.
  intros Hi.
  destruct (decide (j < num_nodes cfg)%nat) as [Hj|Hj].
  - destruct (lookup_lt_is_Some_2
                (Engine.matrix_row
                   (Engine.adjacency_matrix (Engine.init d cfg)) i) j)
      as [x Hx]; [rewrite adjacency_row_length by exact Hi; exact Hj|].
    rewrite Hx, nth_lookup, Hx. reflexivity.
  - rewrite lookup_ge_None_2; [reflexivity|].
    rewrite adjacency_row_length by exact Hi. lia.
Qed.

Lemma init_incoming_keys (d : RandomDraws) (cfg : BasalReservoirConfig)
  (i j : nat) (n : Node.t) :
  Engine.nodes (Engine.init d cfg) !! i = Some n ->
  is_Some (Node.incoming_weights n !! j)
  <-> (j < num_nodes cfg)%nat /\ j <> i /\
      np_linalg_norm_diff (uniform_position d j) (uniform_position d i)
      < connection_radius cfg.
Proof.
  intros H. destruct (init_node_at d cfg i n H) as (Hi & _ & _ & -> & _).
  rewrite draw_weights_lookup, column_lookup by exact Hi.
  destruct (decide (j < num_nodes cfg)%nat) as [Hj|Hj].
  - pose proof (adjacency_entry_positive d cfg j i Hj Hi) as P.
    destruct (Rgt_dec _ _) as [Hg|Hg].
    + split; [intros _; tauto | eauto].
    + split; [intros [? [=]] | intros (_ & ? & ?); tauto].
  - split; [intros [? [=]] | tauto].
Qed.

Lemma init_outgoing_keys (d : RandomDraws) (cfg : BasalReservoirConfig)
  (i j : nat) (n : Node.t) :
  Engine.nodes (Engine.init d cfg) !! i = Some n ->
  is_Some (Node.outgoing_weights n !! j)
  <-> (j < num_nodes cfg)%nat /\ j <> i /\
      np_linalg_norm_diff (uniform_position d i) (uniform_position d j)
      < connection_radius cfg.
Proof.
  intros H. destruct (init_node_at d cfg i n H) as (Hi & _ & _ & _ & ->).
  rewrite draw_weights_lookup, row_lookup by exact Hi.
  destruct (decide (j < num_nodes cfg)%nat) as [Hj|Hj].
  - pose proof (adjacency_entry_positive d cfg i j Hi Hj) as P.
    destruct (Rgt_dec _ _) as [Hg|Hg].
    + split; [intros _; split; [exact Hj|]; split; [intros ->; tauto | tauto]
             | eauto].
    + split; [intros [? [=]] | intros (_ & ? & ?)].
      exfalso. apply Hg, P. split; [congruence | assumption].
  - split; [intros [? [=]] | tauto].
Qed.

(** *** Steps never rewire *)

Lemma learn_fold_dom (rate err total : R) (w0 ns : gmap nat R) :
  dom (map_fold (Node.learn_item rate err total) w0 ns) = dom w0.
Proof.
  apply (map_fold_weak_ind
           (fun (r : gmap nat R) (_ : gmap nat R) => dom r = dom w0));
    [reflexivity|].
  intros k x m r _ IH. unfold Node.learn_item.
  destruct (r !! k) as [cw|] eqn:E; [|exact IH].
  rewrite dom_insert_lookup_L; [exact IH | rewrite E; eauto].
Qed.

Lemma update_energy_wiring n ext ns :
  Node.position (Node.update_energy n ext ns) = Node.position n /\
  Node.outgoing_weights (Node.update_energy n ext ns)
  = Node.outgoing_weights n.
Proof. unfold Node.update_energy. destruct (_ <? _)%nat; auto. Qed.

Lemma learning_wiring n ns :
  let n' := Node.homeodynamic_learning n ns in
  Node.position n' = Node.position n /\
  Node.outgoing_weights n' = Node.outgoing_weights n /\
  dom (Node.incoming_weights n') = dom (Node.incoming_weights n).
Proof.
  unfold Node.homeodynamic_learning.
  destruct (decide _); [auto|]. destruct (Rlt_dec _ _); [auto|]. simpl.
  split; [reflexivity|]. split; [reflexivity|]. apply learn_fold_dom.
Qed.

Lemma adapt_wiring n :
  let n' := Node.adapt_target_energy n in
  Node.position n' = Node.position n /\
  Node.outgoing_weights n' = Node.outgoing_weights n.
Proof.
  unfold Node.adapt_target_energy.
  destruct (_ <=? _)%nat; [|auto].
  destruct (Rlt_dec _ _); [auto|].
  destruct (Rgt_dec _ _); auto.
Qed.

Lemma node_step_wiring ext snap b n :
  same_wiring b n -> same_wiring b (node_step ext snap n).
Proof.
  intros (Hid & Hp & Hc & Ho & Hd). unfold node_step.
  set (ns := Engine.neighbor_states_of snap n).
  set (n1 := Node.update_energy n ext ns).
  set (n2 := Node.homeodynamic_learning n1 ns).
  pose proof (update_energy_wiring n ext ns) as (U1 & U2).
  pose proof (update_energy_id n ext ns) as U3.
  pose proof (update_energy_config n ext ns) as U4.
  pose proof (update_energy_weights n ext ns) as U5.
  pose proof (learning_wiring n1 ns) as (L1 & L2 & L3).
  pose proof (learning_fields n1 ns) as (L4 & L5 & _).
  pose proof (adapt_wiring n2) as (A1 & A2).
  pose proof (adapt_fields n2) as (A3 & A4 & _ & _ & A5 & _).
  fold n1 in U1, U2, U3, U4, U5. fold n2 in L1, L2, L3, L4, L5.
  unfold same_wiring.
  rewrite A3, A4, A5, A1, A2, L4, L5, L1, L2, L3, U1, U2, U3, U4, U5.
  auto.
Qed.

Lemma same_wiring_refl (n : Node.t) : same_wiring n n.
Proof. unfold same_wiring. auto. Qed.

Lemma run_steps_adjacency (inputs : list (option (gmap nat R))) :
  forall e : Engine.t,
    Engine.adjacency_matrix (run_steps e inputs) = Engine.adjacency_matrix e
    /\ Engine.config (run_steps e inputs) = Engine.config e.
Proof.
  induction inputs as [|i inputs IH]; intros e; [auto|].
  rewrite run_steps_cons.
  destruct (IH (fst (Engine.update_reservoir_state e i))) as [-> ->].
  rewrite update_reservoir_state_eq. auto.
Qed.

(** X4. Reservoir steps never rewire the network: whatever the inputs,
    the engine keeps its nodes in the same order with the same ids,
    positions and configuration, outgoing weights are never modified, and
    learning changes only the values of incoming weights, never the set
    of neighbours that have one; the adjacency matrix is left as built. *)
Theorem steps_never_rewire (e : Engine.t)
  (inputs : list (option (gmap nat R))) :
  Forall2
    (fun n0 n =>
       Node.node_id n = Node.node_id n0 /\
       Node.position n = Node.position n0 /\
       Node.config n = Node.config n0 /\
       Node.outgoing_weights n = Node.outgoing_weights n0 /\
       dom (Node.incoming_weights n) = dom (Node.incoming_weights n0))
    (Engine.nodes e) (Engine.nodes (run_steps e inputs)) /\
  Engine.adjacency_matrix (run_steps e inputs) = Engine.adjacency_matrix e.
Proof.
  split; [|apply run_steps_adjacency].
  apply (run_steps_rel same_wiring).
  - intros ext snap b n. apply node_step_wiring.
  - apply Forall2_diag. apply Forall_forall. intros n _.
    apply same_wiring_refl.
Qed.

(** X5. In an engine built by the constructor and stepped any number of
    times, the node at index [i] has id [i], and it holds an incoming
    weight for node [j] exactly when [j] is another node of the reservoir
    whose position is closer than [connection_radius]; it holds an
    outgoing weight for exactly the same nodes. In particular no node is
    connected to itself and every key is a valid node index. *)
Theorem connection_keys (d : RandomDraws) (cfg : BasalReservoirConfig)
  (inputs : list (option (gmap nat R))) (i : nat) (n : Node.t) :
  Engine.nodes (run_steps (Engine.init d cfg) inputs) !! i = Some n ->
  Node.node_id n = i /\
  (forall j : nat,
      is_Some (Node.incoming_weights n !! j)
      <-> (j < num_nodes cfg)%nat /\ j <> i /\
          np_linalg_norm_diff (uniform_position d j) (uniform_position d i)
          < connection_radius cfg) /\
  (forall j : nat,
      is_Some (Node.outgoing_weights n !! j)
      <-> is_Some (Node.incoming_weights n !! j)) /\
  Node.incoming_weights n !! i = None.
Proof.
  intros H.
  pose proof (run_steps_rel same_wiring
                (fun ext snap b n => node_step_wiring ext snap b n)
                inputs (Engine.nodes (Engine.init d cfg)) (Engine.init d cfg))
    as W.
  assert (W0 : Forall2 same_wiring (Engine.nodes (Engine.init d cfg))
                       (Engine.nodes (Engine.init d cfg))).
  { apply Forall2_diag. apply Forall_forall. intros x _.
    apply same_wiring_refl. }
  specialize (W W0).
  destruct (Forall2_lookup_r _ _ _ _ _ W H) as (n0 & H0 & Hid & _ & _ & Ho & Hd).
  destruct (init_node_at d cfg i n0 H0) as (Hi & Hid0 & _).
  assert (In_keys : forall j,
             is_Some (Node.incoming_weights n !! j)
             <-> (j < num_nodes cfg)%nat /\ j <> i /\
                 np_linalg_norm_diff (uniform_position d j)
                                     (uniform_position d i)
                 < connection_radius cfg).
  { intros j. rewrite <- (init_incoming_keys d cfg i j n0 H0).
    rewrite <- !elem_of_dom, Hd. reflexivity. }
  split; [congruence|]. split; [exact In_keys|]. split.
  - intros j. rewrite In_keys, Ho, (init_outgoing_keys d cfg i j n0 H0).
    rewrite (norm_diff_sym (uniform_position d i)). reflexivity.
  - destruct (Node.incoming_weights n !! i) eqn:E; [|reflexivity].
    exfalso. assert (S : is_Some (Node.incoming_weights n !! i)) by eauto.
    apply In_keys in S. tauto.
Qed.

Lemma connection_keys_witness :
  exists n,
    Engine.nodes (run_steps (Engine.init plain_draws two_node_config)
                            [None; Some ∅]) !! 0%nat = Some n /\
    Node.node_id n = 0%nat /\
    Node.incoming_weights n !! 0%nat = None.
Proof.
  destruct (lookup_lt_is_Some_2
              (Engine.nodes (run_steps (Engine.init plain_draws two_node_config)
                                       [None; Some ∅])) 0) as [n Hn].
  { rewrite run_steps_length, init_nodes_length. simpl. lia. }
  exists n. split; [exact Hn|].
  destruct (connection_keys plain_draws two_node_config [None; Some ∅] 0 n Hn)
    as (Hid & _ & _ & Hself).
  split; [exact Hid | exact Hself].
Defined.

(** ** Engines reached from a constructed one *)

Lemma decode_prediction_state (acts : list R) (c a : R) (e : Engine.t) :
  snd (Engine._decode_prediction acts c a e) = e.
Proof.
  unfold Engine._decode_prediction, bind, np_average.
  destruct (Req_EM_T _ 0); reflexivity.
Qed.

Lemma predict_loop_closed (P : Engine.t -> Prop) :
  (forall e i, P e -> P (fst (Engine.update_reservoir_state e i))) ->
  (forall e, P e -> P (fst (Engine.compute_enhanced_coherence e))) ->
  (forall e, P e -> P (fst (Engine.compute_anticipation_capacity e))) ->
  forall (inputs : gmap nat R) (steps : list nat) (preds : list R)
         (e : Engine.t),
    P e -> P (snd (Engine.predict_loop inputs steps preds e)).
Proof.
  intros Hu Hc Ha inputs steps.
  induction steps as [|step steps IH]; intros preds e He; [exact He|].
  cbn [Engine.predict_loop]. unfold bind at 1. unfold pure_method at 1.
  assert (H1 : P (fst (if decide (step = 0%nat)
                       then Engine.update_reservoir_state e (Some inputs)
                       else Engine.update_reservoir_state e None)))
    by (destruct (decide _); apply Hu; exact He).
  destruct (if decide (step = 0%nat)
            then Engine.update_reservoir_state e (Some inputs)
            else Engine.update_reservoir_state e None) as [e1 acts].
  simpl in H1.
  unfold bind at 1. unfold pure_method at 1.
  pose proof (Hc e1 H1) as H2.
  destruct (Engine.compute_enhanced_coherence e1) as [e2 c]. simpl in H2.
  unfold bind at 1. unfold pure_method at 1.
  pose proof (Ha e2 H2) as H3.
  destruct (Engine.compute_anticipation_capacity e2) as [e3 a]. simpl in H3.
  unfold bind at 1.
  pose proof (decode_prediction_state acts c a e3) as Hd.
  destruct (Engine._decode_prediction acts c a e3) as [[x|ex] e4];
    simpl in Hd; subst e4.
  - apply IH. exact H3.
  - exact H3.
Qed.

Lemma predict_closed (P : Engine.t -> Prop) :
  (forall e i, P e -> P (fst (Engine.update_reservoir_state e i))) ->
  (forall e, P e -> P (fst (Engine.compute_enhanced_coherence e))) ->
  (forall e, P e -> P (fst (Engine.compute_anticipation_capacity e))) ->
  forall (series : list R) (k : nat) (e : Engine.t),
    P e -> P (snd (Engine.predict_market_pattern series k e)).
Proof.
  intros Hu Hc Ha series k e He. unfold Engine.predict_market_pattern.
  destruct (_ <? _)%nat; [exact He|].
  unfold bind, get. apply predict_loop_closed; assumption.
Qed.

(** Induction over the three primitive operations suffices. *)
Lemma reachable_prim_ind (d : RandomDraws) (cfg : BasalReservoirConfig)
  (P : Engine.t -> Prop) :
  P (Engine.init d cfg) ->
  (forall e i, P e -> P (fst (Engine.update_reservoir_state e i))) ->
  (forall e, P e -> P (fst (Engine.compute_enhanced_coherence e))) ->
  (forall e, P e -> P (fst (Engine.compute_anticipation_capacity e))) ->
  forall e, reachable d cfg e -> P e.
Proof.
  intros H0 Hu Hc Ha e H.
  induction H as [|e i _ IH|e _ IH|e _ IH|e series k _ IH].
  - exact H0.
  - apply Hu, IH.
  - apply Hc, IH.
  - apply Ha, IH.
  - apply predict_closed; assumption.
Qed.

Lemma reachable_nodes (d : RandomDraws) (cfg : BasalReservoirConfig)
  (Q : Node.t -> Prop) :
  Forall Q (Engine.nodes (Engine.init d cfg)) ->
  (forall ext snap n, Q n -> Q (node_step ext snap n)) ->
  forall e, reachable d cfg e -> Forall Q (Engine.nodes e).
Proof.
  intros H0 Hs.
  apply (reachable_prim_ind d cfg (fun e => Forall Q (Engine.nodes e)));
    [exact H0| | |]; try (intros e He; exact He).
  intros e i He. rewrite nodes_update. apply Forall_map.
  eapply Forall_impl; [exact He|]. intros n Hn. apply Hs, Hn.
Qed.

Lemma reachable_constants (d : RandomDraws) (cfg : BasalReservoirConfig)
  (e : Engine.t) :
  reachable d cfg e ->
  Engine.config e = cfg /\
  Engine.gamma e = 0.1 /\ Engine.delta e = 0.15 /\ Engine.epsilon e = 0.05 /\
  Engine.phi e = coherence_coupling cfg /\
  length (Engine.nodes e) = num_nodes cfg.
Proof.
  apply (reachable_prim_ind d cfg
           (fun e => Engine.config e = cfg /\
                     Engine.gamma e = 0.1 /\ Engine.delta e = 0.15 /\
                     Engine.epsilon e = 0.05 /\
                     Engine.phi e = coherence_coupling cfg /\
                     length (Engine.nodes e) = num_nodes cfg)).
  - simpl. repeat (split; [reflexivity|]). apply init_nodes_length.
  - intros e0 i H. rewrite update_reservoir_state_eq. simpl.
    rewrite length_map. exact H.
  - intros e0 H. exact H.
  - intros e0 H. exact H.
Qed.

Lemma node_sound_init (d : RandomDraws) (cfg : BasalReservoirConfig) :
  draws_in_range d ->
  Forall (node_sound cfg) (Engine.nodes (Engine.init d cfg)).
Proof.
  intros Hd.
  pose proof (init_energy d cfg Hd) as He.
  pose proof (init_target d cfg Hd) as Ht.
  pose proof (init_recorded d cfg) as Hr.
  rewrite Forall_lookup in He, Ht, Hr. apply Forall_lookup. intros i n Hn.
  destruct (Ht i n Hn) as [Hc Hb]. destruct (Hr i n Hn) as (_&_&_&Hh&_).
  unfold node_sound, target_in_band.
  split; [exact Hc|]. split; [exact (He i n Hn)|]. split; [lra | exact Hh].
Qed.

Lemma node_step_history ext snap n :
  Forall unit_interval (Node.energy_history n) ->
  Forall unit_interval (Node.energy_history (node_step ext snap n)).
Proof.
  intros H. unfold node_step.
  set (ns := Engine.neighbor_states_of snap n).
  set (n1 := Node.update_energy n ext ns).
  pose proof (learning_fields n1 ns) as L. simpl in L.
  pose proof (adapt_fields (Node.homeodynamic_learning n1 ns)) as A.
  simpl in A.
  destruct A as (_&_&_&_&_&->&_). destruct L as (_&_&_&_&_&->&_).
  unfold n1, Node.update_energy.
  destruct (_ <? _)%nat; simpl.
  - apply Forall_tl, Forall_snoc; [exact H | apply np_clip_unit].
  - apply Forall_snoc; [exact H | apply np_clip_unit].
Qed.

Lemma node_sound_step (cfg : BasalReservoirConfig) ext snap n :
  0 <= adaptation_rate cfg ->
  node_sound cfg n -> node_sound cfg (node_step ext snap n).
Proof.
  intros Hr (Hc & He & Ht & Hh).
  destruct (node_step_fields ext snap n) as (_ & Hc' & He' & _).
  unfold node_sound. split; [congruence|]. split; [exact He'|].
  split; [apply node_step_target; [rewrite Hc; exact Hr | exact Ht]|].
  apply node_step_history, Hh.
Qed.

Lemma reachable_sound (d : RandomDraws) (cfg : BasalReservoirConfig)
  (e : Engine.t) :
  draws_in_range d -> 0 <= adaptation_rate cfg ->
  reachable d cfg e -> Forall (node_sound cfg) (Engine.nodes e).
Proof.
  intros Hd Hr. apply reachable_nodes.
  - apply node_sound_init, Hd.
  - intros ext snap n. apply node_sound_step, Hr.
Qed.

Lemma run_steps_reachable (d : RandomDraws) (cfg : BasalReservoirConfig)
  (inputs : list (option (gmap nat R))) :
  forall e, reachable d cfg e -> reachable d cfg (run_steps e inputs).
Proof.
  induction inputs as [|i inputs IH]; intros e He; [exact He|].
  rewrite run_steps_cons. apply IH. constructor. exact He.
Qed.

(** ** Sums and means of bounded lists *)

Lemma py_sum_bounds (lo hi : R) (l : list R) :
  Forall (fun x => lo <= x <= hi) l ->
  INR (length l) * lo <= py_sum l <= INR (length l) * hi.
Proof.
  induction 1 as [|x l Hx _ IH].
  - rewrite py_sum_nil. simpl. lra.
  - rewrite py_sum_cons. cbn [length]. rewrite S_INR. lra.
Qed.

Lemma np_mean_bounds (lo hi : R) (l : list R) :
  l <> [] ->
  Forall (fun x => lo <= x <= hi) l ->
  lo <= np_mean l <= hi.
Proof.
  intros Hne H. pose proof (py_sum_bounds lo hi l H) as B.
  assert (Hn : 0 < INR (length l)).
  { apply lt_0_INR. destruct l; [congruence | simpl; lia]. }
  unfold np_mean. split.
  - apply Rmult_le_reg_r with (INR (length l)); [exact Hn|].
    unfold Rdiv. rewrite Rmult_assoc, Rinv_l by lra. lra.
  - apply Rmult_le_reg_r with (INR (length l)); [exact Hn|].
    unfold Rdiv. rewrite Rmult_assoc, Rinv_l by lra. lra.
Qed.

Lemma py_sum_nonneg (l : list R) :
  Forall (fun x => 0 <= x) l -> 0 <= py_sum l.
Proof.
  induction 1 as [|x l Hx _ IH].
  - rewrite py_sum_nil. lra.
  - rewrite py_sum_cons. lra.
Qed.

Lemma np_mean_nonneg (l : list R) :
  l <> [] -> Forall (fun x => 0 <= x) l -> 0 <= np_mean l.
Proof.
  intros Hne H. unfold np_mean.
  assert (Hn : 0 < INR (length l)).
  { apply lt_0_INR. destruct l; [congruence | simpl; lia]. }
  apply Rmult_le_reg_r with (INR (length l)); [exact Hn|].
  unfold Rdiv. rewrite Rmult_assoc, Rinv_l by lra.
  pose proof (py_sum_nonneg l H). lra.
Qed.

Lemma np_var_nonneg (l : list R) : l <> [] -> 0 <= np_var l.
Proof.
  intros Hne. unfold np_var. apply np_mean_nonneg.
  - destruct l; [congruence|discriminate].
  - apply Forall_map, Forall_forall. intros x _.
    apply Rle_0_sqr.
Qed.

(** ** The terms of the coherence evolution equation *)

Lemma Forall_omap {A B} (Q : A -> Prop) (P : B -> Prop) (g : A -> option B)
  (l : list A) :
  (forall x y, Q x -> g x = Some y -> P y) ->
  Forall Q l -> Forall P (omap g l).
Proof.
  intros H. induction 1 as [|x l Hx _ IH]; [constructor|].
  simpl. destruct (g x) as [y|] eqn:E; [|exact IH].
  constructor; [eapply H; eassumption | exact IH].
Qed.

Lemma neg_index_Forall {A} (P : A -> Prop) (l : list A) (k : nat) (d : A) :
  (1 <= k <= length l)%nat -> Forall P l -> P (neg_index l k d).
Proof.
  intros Hk Hl. unfold neg_index.
  destruct (lookup_lt_is_Some_2 l (length l - k)) as [x Hx]; [lia|].
  rewrite nth_lookup, Hx. simpl. eapply Forall_lookup_1; eassumption.
Qed.

Lemma symbolic_acceptance_range (e : Engine.t) :
  Engine.nodes e <> [] ->
  0 < Engine._compute_symbolic_acceptance e <= 1.
Proof.
  intros Hne. unfold Engine._compute_symbolic_acceptance.
  split; [apply exp_pos|].
  assert (V : 0 <= np_var (map Node.activation (Engine.nodes e))).
  { apply np_var_nonneg. destruct (Engine.nodes e); [congruence|discriminate]. }
  rewrite <- exp_0.
  destruct (Req_dec (np_var (map Node.activation (Engine.nodes e))) 0)
    as [E|E].
  - rewrite E, Rmult_0_r. lra.
  - left. apply exp_increasing. lra.
Qed.

Lemma symbolic_frequency_range (d : RandomDraws)
  (cfg : BasalReservoirConfig) (e : Engine.t) :
  reachable d cfg e ->
  0.25 <= Engine._compute_symbolic_frequency e <= 1.
Proof.
  intros Hr.
  destruct (Nat.lt_ge_cases (length (Engine.coherence_history e)) 5)
    as [Hlt|Hge].
  - unfold Engine._compute_symbolic_frequency.
    destruct (Nat.ltb_spec (length (Engine.coherence_history e)) 5); [|lia].
    rewrite (reachable_f d cfg e Hr). lra.
  - destruct (symbolic_frequency_dominant e Hge) as (k & Hk & _ & ->).
    set (recent := last_n 20 (Engine.coherence_history e)) in *.
    assert (Hn : (5 <= length recent <= 20)%nat).
    { unfold recent. rewrite length_last_n. lia. }
    split; [|apply Rmin_l].
    apply Rmin_glb; [lra|].
    assert (Hk1 : 1 <= INR k) by (apply (le_INR 1); lia).
    assert (Hn1 : 0 < INR (length recent)) by (apply lt_0_INR; lia).
    assert (Hn2 : INR (length recent) <= 20).
    { replace 20 with (INR 20) by (simpl; lra). apply le_INR. lia. }
    assert (Hi : / 20 <= / INR (length recent))
      by (apply Rinv_le_contravar; assumption).
    unfold Rdiv. nra.
Qed.

Lemma mental_activity_range (e : Engine.t) :
  Forall (fun n => Forall unit_interval (Node.energy_history n))
         (Engine.nodes e) ->
  0 <= Engine._compute_mental_activity e <= 1.
Proof.
  intros H. unfold Engine._compute_mental_activity.
  destruct (decide _); [lra|].
  set (changes := omap _ (Engine.nodes e)).
  assert (B : Forall (fun x => 0 <= x <= 1) changes).
  { unfold changes. eapply Forall_omap; [|exact H].
    intros x y Hx. cbv beta zeta.
    destruct (2 <=? length (Node.energy_history x))%nat eqn:E2;
      [|discriminate].
    apply Nat.leb_le in E2. intros [= <-].
    pose proof (neg_index_Forall unit_interval (Node.energy_history x) 1 0
                  ltac:(lia) Hx) as [? ?].
    pose proof (neg_index_Forall unit_interval (Node.energy_history x) 2 0
                  ltac:(lia) Hx) as [? ?].
    split; [apply Rabs_pos|]. apply Rabs_le. lra. }
  destruct changes as [|c cs] eqn:E; [lra|].
  apply np_mean_bounds; [discriminate | exact B].
Qed.

Lemma Rabs_py_sum (b : R) (l : list R) :
  Forall (fun x => Rabs x <= b) l -> Rabs (py_sum l) <= INR (length l) * b.
Proof.
  intros H.
  assert (B : Forall (fun x => - b <= x <= b) l).
  { eapply Forall_impl; [exact H|]. simpl. intros x Hx.
    unfold Rabs in Hx. destruct (Rcase_abs x); lra. }
  pose proof (py_sum_bounds (- b) b l B). apply Rabs_le. lra.
Qed.

Lemma basal_contribution_bound (cfg : BasalReservoirConfig) (e : Engine.t) :
  Forall (node_sound cfg) (Engine.nodes e) ->
  Rabs (Engine.basal_contribution e)
  <= Rabs (Engine.phi e) * INR (length (Engine.nodes e)) * 0.8.
Proof.
  intros H. unfold Engine.basal_contribution.
  rewrite Rabs_mult.
  assert (B : Rabs (py_sum (map (fun node => Node.energy node
                                            - Node.target_energy node)
                               (Engine.nodes e)))
              <= INR (length (Engine.nodes e)) * 0.8).
  { rewrite <- (length_map (fun node => Node.energy node
                                        - Node.target_energy node)).
    apply Rabs_py_sum. apply Forall_map.
    eapply Forall_impl; [exact H|]. simpl.
    intros n (_ & [? ?] & [? ?] & _). apply Rabs_le. lra. }
  pose proof (Rabs_pos (Engine.phi e)). nra.
Qed.

(** X6. For a configuration with at least one node and a non-negative
    adaptation rate, and an engine reached from a constructed one with
    moderate drawn weights by operations on moderate arguments (at most
    1e100 in magnitude, so that no floating-point value of a step
    overflows), the terms of the coherence evolution equation are
    bounded: the symbolic acceptance P lies in (0,1], the symbolic
    frequency F in [0.25,1], the mental activity M in [0,1]. *)
Theorem evolution_terms_bounded (d : RandomDraws)
  (cfg : BasalReservoirConfig) (e : Engine.t) :
  draws_in_range d -> moderate_draws d ->
  0 <= adaptation_rate cfg -> (0 < num_nodes cfg)%nat ->
  reachable_moderate d cfg e ->
  0 < Engine._compute_symbolic_acceptance e <= 1 /\
  0.25 <= Engine._compute_symbolic_frequency e <= 1 /\
  0 <= Engine._compute_mental_activity e <= 1.
Proof.
  intros Hd _ Hrate Hn Hm.
  pose proof (reachable_moderate_reachable d cfg e Hm) as Hr.
  destruct (reachable_constants d cfg e Hr) as (_&_&_&_&_&Hlen).
  split.
  { apply symbolic_acceptance_range. intros E. rewrite E in Hlen.
    simpl in Hlen. lia. }
  split; [exact (symbolic_frequency_range d cfg e Hr)|].
  apply mental_activity_range.
  eapply Forall_impl; [exact (reachable_sound d cfg e Hd Hrate Hr)|].
  intros n (_&_&_&Hh). exact Hh.
Qed.

Lemma init_reachable_plain :
  reachable plain_draws two_node_config
    (Engine.init plain_draws two_node_config).
Proof. constructor. Qed.

Lemma two_node_count : (0 < num_nodes two_node_config)%nat.
Proof. simpl. lia. Qed.

Lemma init_moderate_plain :
  reachable_moderate plain_draws two_node_config
    (Engine.init plain_draws two_node_config).
Proof. constructor. Qed.

Lemma two_node_coupling : moderate (coherence_coupling two_node_config).
Proof.
  unfold moderate. cbn [coherence_coupling two_node_config].
  rewrite Rabs_right by lra. lra.
Qed.

Lemma evolution_terms_bounded_witness :
  draws_in_range plain_draws /\
  moderate_draws plain_draws /\
  0 <= adaptation_rate two_node_config /\
  (0 < num_nodes two_node_config)%nat /\
  reachable_moderate plain_draws two_node_config
    (Engine.init plain_draws two_node_config) /\
  0 < Engine._compute_symbolic_acceptance
        (Engine.init plain_draws two_node_config) <= 1 /\
  0.25 <= Engine._compute_symbolic_frequency
            (Engine.init plain_draws two_node_config) <= 1 /\
  0 <= Engine._compute_mental_activity
         (Engine.init plain_draws two_node_config) <= 1.
Proof.
  split; [exact plain_draws_in_range|]. split; [exact plain_draws_moderate|].
  split; [exact two_node_rate|].
  split; [exact two_node_count|]. split; [exact init_moderate_plain|].
  exact (evolution_terms_bounded plain_draws two_node_config _
           plain_draws_in_range plain_draws_moderate two_node_rate
           two_node_count init_moderate_plain).
Defined.

(** X7. For a configuration with a non-negative adaptation rate and a
    moderate coupling, the anticipation capacity of an engine reached
    from a constructed one with moderate drawn weights by operations on
    moderate arguments (at most 1e100 in magnitude, so that no
    floating-point value of a step overflows) is at most
    [0.8 * num_nodes * |coherence_coupling|] in magnitude (energies stay
    in [0,1], targets in [0.2,0.8]); [compute_anticipation_capacity]
    returns it, appends it to [anticipation_history] and changes nothing
    else. *)
Theorem anticipation_bounded (d : RandomDraws)
  (cfg : BasalReservoirConfig) (e : Engine.t) :
  draws_in_range d -> moderate_draws d ->
  0 <= adaptation_rate cfg -> moderate (coherence_coupling cfg) ->
  reachable_moderate d cfg e ->
  let e' := fst (Engine.compute_anticipation_capacity e) in
  let a := snd (Engine.compute_anticipation_capacity e) in
  Rabs a <= 0.8 * INR (num_nodes cfg) * Rabs (coherence_coupling cfg) /\
  Engine.anticipation_history e' = Engine.anticipation_history e ++ [a] /\
  Engine.nodes e' = Engine.nodes e /\
  Engine.coherence_state e' = Engine.coherence_state e /\
  Engine.coherence_history e' = Engine.coherence_history e.
Proof.
  intros Hd _ Hrate _ Hm.
  pose proof (reachable_moderate_reachable d cfg e Hm) as Hr. simpl.
  destruct (reachable_constants d cfg e Hr) as (_&_&_&_&Hphi&Hlen).
  pose proof (basal_contribution_bound cfg e
                (reachable_sound d cfg e Hd Hrate Hr)) as B.
  rewrite Hphi, Hlen in B.
  split; [lra|]. auto.
Qed.

Lemma anticipation_bounded_witness :
  draws_in_range plain_draws /\
  moderate_draws plain_draws /\
  0 <= adaptation_rate two_node_config /\
  moderate (coherence_coupling two_node_config) /\
  reachable_moderate plain_draws two_node_config
    (Engine.init plain_draws two_node_config) /\
  Rabs (snd (Engine.compute_anticipation_capacity
               (Engine.init plain_draws two_node_config)))
  <= 0.8 * INR (num_nodes two_node_config)
     * Rabs (coherence_coupling two_node_config).
Proof.
  split; [exact plain_draws_in_range|]. split; [exact plain_draws_moderate|].
  split; [exact two_node_rate|]. split; [exact two_node_coupling|].
  split; [exact init_moderate_plain|].
  exact (proj1 (anticipation_bounded plain_draws two_node_config _
                  plain_draws_in_range plain_draws_moderate two_node_rate
                  two_node_coupling init_moderate_plain)).
Defined.

(** ** The coherence trace *)

Lemma reachable_psi (d : RandomDraws) (cfg : BasalReservoirConfig)
  (e : Engine.t) :
  reachable d cfg e ->
  unit_interval (GCT.psi (Engine.coherence_state e)) /\
  Forall unit_interval (Engine.coherence_history e) /\
  (Engine.coherence_history e <> [] ->
   last (Engine.coherence_history e)
   = Some (GCT.psi (Engine.coherence_state e))).
Proof.
  apply (reachable_prim_ind d cfg
           (fun e =>
              unit_interval (GCT.psi (Engine.coherence_state e)) /\
              Forall unit_interval (Engine.coherence_history e) /\
              (Engine.coherence_history e <> [] ->
               last (Engine.coherence_history e)
               = Some (GCT.psi (Engine.coherence_state e))))).
  - simpl. split; [apply half_unit|]. split; [constructor | congruence].
  - intros e0 i H. rewrite update_reservoir_state_eq. exact H.
  - intros e0 (H1 & H2 & H3). simpl.
    split; [apply np_clip_unit|].
    split; [apply Forall_snoc; [exact H2 | apply np_clip_unit]|].
    intros _. apply last_snoc.
  - intros e0 H. exact H.
Qed.

Lemma clip_step (p x : R) :
  0 <= p <= 1 -> Rabs (np_clip (p + x) 0 1 - p) <= Rabs x.
Proof.
  intros Hp. unfold np_clip, Rmin, Rmax.
  destruct (Rle_dec (p + x) 0); destruct (Rle_dec _ 1);
    unfold Rabs; repeat destruct (Rcase_abs _); lra.
Qed.

(** X8. For a configuration with at least one node, a non-negative
    adaptation rate and a moderate coupling, and an engine reached from
    a constructed one with moderate drawn weights by operations on
    moderate arguments (at most 1e100 in magnitude, so that no
    floating-point value of a step overflows), evaluating the coherence
    returns a value in [0,1] that becomes the engine's psi and the last
    entry of its coherence history, and that differs from the previous
    psi by at most [0.0015 + 0.008 * num_nodes * |coherence_coupling|];
    all recorded coherence values lie in [0,1]; the nodes are not
    touched. *)
Theorem coherence_step_bounded (d : RandomDraws)
  (cfg : BasalReservoirConfig) (e : Engine.t) :
  draws_in_range d -> moderate_draws d ->
  0 <= adaptation_rate cfg -> moderate (coherence_coupling cfg) ->
  (0 < num_nodes cfg)%nat ->
  reachable_moderate d cfg e ->
  let e' := fst (Engine.compute_enhanced_coherence e) in
  let p := snd (Engine.compute_enhanced_coherence e) in
  0 <= p <= 1 /\
  GCT.psi (Engine.coherence_state e') = p /\
  Engine.coherence_history e' = Engine.coherence_history e ++ [p] /\
  Forall unit_interval (Engine.coherence_history e') /\
  Engine.nodes e' = Engine.nodes e /\
  Rabs (p - GCT.psi (Engine.coherence_state e))
  <= 0.0015 + 0.008 * INR (num_nodes cfg) * Rabs (coherence_coupling cfg).
Proof.
  intros Hd _ Hrate _ Hn Hm.
  pose proof (reachable_moderate_reachable d cfg e Hm) as Hr. simpl.
  destruct (reachable_psi d cfg e Hr) as (Hpsi & Hhist & _).
  split; [apply np_clip_unit|]. split; [reflexivity|].
  split; [reflexivity|].
  split; [apply Forall_snoc; [exact Hhist | apply np_clip_unit]|].
  split; [reflexivity|].
  eapply Rle_trans; [apply clip_step; exact Hpsi|].
  destruct (reachable_constants d cfg e Hr) as (_&Hg&Hdl&Hep&Hphi&Hlen).
  assert (Hne : Engine.nodes e <> []).
  { intros E. rewrite E in Hlen. simpl in Hlen. lia. }
  destruct (symbolic_acceptance_range e Hne) as [P0 P1].
  destruct (symbolic_frequency_range d cfg e Hr) as [F0 F1].
  assert (Hh : Forall (fun n => Forall unit_interval (Node.energy_history n))
                      (Engine.nodes e)).
  { eapply Forall_impl; [exact (reachable_sound d cfg e Hd Hrate Hr)|].
    intros n (_&_&_&Hh). exact Hh. }
  destruct (mental_activity_range e Hh) as [M0 M1].
  pose proof (basal_contribution_bound cfg e
                (reachable_sound d cfg e Hd Hrate Hr)) as B.
  rewrite Hphi, Hlen in B. rewrite Hg, Hdl, Hep.
  set (P := Engine._compute_symbolic_acceptance e) in *.
  set (F := Engine._compute_symbolic_frequency e) in *.
  set (M := Engine._compute_mental_activity e) in *.
  set (b := Engine.basal_contribution e) in *.
  unfold Rabs in B. destruct (Rcase_abs b);
    destruct (Rcase_abs (coherence_coupling cfg)); apply Rabs_le;
    unfold Rabs; destruct (Rcase_abs (coherence_coupling cfg)); lra.
Qed.

Lemma coherence_step_bounded_witness :
  draws_in_range plain_draws /\
  moderate_draws plain_draws /\
  0 <= adaptation_rate two_node_config /\
  moderate (coherence_coupling two_node_config) /\
  (0 < num_nodes two_node_config)%nat /\
  reachable_moderate plain_draws two_node_config
    (Engine.init plain_draws two_node_config) /\
  Rabs (snd (Engine.compute_enhanced_coherence
               (Engine.init plain_draws two_node_config))
        - GCT.psi (Engine.coherence_state
                     (Engine.init plain_draws two_node_config)))
  <= 0.0015 + 0.008 * INR (num_nodes two_node_config)
              * Rabs (coherence_coupling two_node_config).
Proof.
  split; [exact plain_draws_in_range|]. split; [exact plain_draws_moderate|].
  split; [exact two_node_rate|]. split; [exact two_node_coupling|].
  split; [exact two_node_count|]. split; [exact init_moderate_plain|].
  apply (coherence_step_bounded plain_draws two_node_config _
           plain_draws_in_range plain_draws_moderate two_node_rate
           two_node_coupling two_node_count init_moderate_plain).
Defined.

(** ** A reservoir without stimulus *)

Lemma update_energy_rest (n : Node.t) (ext ns : gmap nat R) :
  (forall k v, ext !! k = Some v -> v = 0) ->
  (forall k v, ns !! k = Some v -> v = 0) ->
  quiet (Node.update_energy n ext ns).
Proof.
  intros Hext Hns. unfold quiet, Node.update_energy.
  assert (Hin : dict_sum
                  (fun source_id signal =>
                     dict_get0 (Node.incoming_weights n) source_id * signal)
                  ext = 0)
    by (apply dict_sum_zero; intros k v Hk; rewrite (Hext k v Hk); lra).
  assert (Hnb : dict_sum
                  (fun neighbor_id act =>
                     dict_get0 (Node.incoming_weights n) neighbor_id * act)
                  ns = 0)
    by (apply dict_sum_zero; intros k v Hk; rewrite (Hns k v Hk); lra).
  rewrite Hin, Hnb.
  replace (0 + 0.8 * 0) with 0 by lra.
  destruct (_ <? _)%nat; simpl; apply tanh_0.
Qed.

Lemma node_step_rest (ext snap : gmap nat R) (n : Node.t) :
  (forall k v, ext !! k = Some v -> v = 0) ->
  (forall k v, snap !! k = Some v -> v = 0) ->
  quiet (node_step ext snap n) /\
  Node.incoming_weights (node_step ext snap n) = Node.incoming_weights n.
Proof.
  intros He Hs. unfold node_step.
  pose proof (neighbor_states_quiet snap n Hs) as Hns.
  rewrite learning_quiet by exact Hns.
  destruct (adapt_fields
              (Node.update_energy n ext (Engine.neighbor_states_of snap n)))
    as (_ & _ & _ & Hact & Hw & _).
  split.
  - unfold quiet. rewrite Hact. apply update_energy_rest; assumption.
  - rewrite Hw. apply update_energy_weights.
Qed.

Lemma rest_run (inputs : list (option (gmap nat R))) :
  Forall (fun i => forall k v, default ∅ i !! k = Some v -> v = 0) inputs ->
  forall e : Engine.t,
    Forall quiet (Engine.nodes e) ->
    Forall quiet (Engine.nodes (run_steps e inputs)) /\
    map Node.incoming_weights (Engine.nodes (run_steps e inputs))
    = map Node.incoming_weights (Engine.nodes e).
Proof.
  induction 1 as [|i inputs Hi _ IH]; intros e Hq.
  - split; [exact Hq|reflexivity].
  - rewrite run_steps_cons.
    pose proof (current_activations_quiet _ Hq) as Hs.
    assert (Hq' : Forall quiet
                    (Engine.nodes (fst (Engine.update_reservoir_state e i)))).
    { rewrite nodes_update. apply Forall_fmap, Forall_forall.
      intros n _. apply node_step_rest; assumption. }
    destruct (IH _ Hq') as [IHq IHw]. split; [exact IHq|].
    rewrite IHw, nodes_update, map_map. apply map_ext.
    intros n. apply node_step_rest; assumption.
Qed.

Lemma py_sum_zeros (l : list R) :
  Forall (fun x => x = 0) l -> py_sum l = 0.
Proof.
  induction 1 as [|x l Hx _ IH]; [apply py_sum_nil|].
  rewrite py_sum_cons, Hx, IH. lra.
Qed.

Lemma np_var_zeros (l : list R) :
  Forall (fun x => x = 0) l -> np_var l = 0.
Proof.
  intros H. unfold np_var.
  assert (Hm : np_mean l = 0).
  { unfold np_mean. rewrite (py_sum_zeros l H). unfold Rdiv.
    apply Rmult_0_l. }
  rewrite Hm. unfold np_mean at 1. rewrite py_sum_zeros.
  - unfold Rdiv. apply Rmult_0_l.
  - apply Forall_map. eapply Forall_impl; [exact H|].
    simpl. intros x ->. ring.
Qed.

(** X9. A constructed reservoir does not start by itself: as long as
    every external input given to [update_reservoir_state] is absent,
    empty or zero-valued, all activations stay 0, no connection weight is
    changed by learning, and the symbolic acceptance term stays at
    exactly 1. *)
Theorem reservoir_stays_at_rest (d : RandomDraws)
  (cfg : BasalReservoirConfig) (inputs : list (option (gmap nat R))) :
  Forall (fun i => forall k v, default ∅ i !! k = Some v -> v = 0) inputs ->
  let e := run_steps (Engine.init d cfg) inputs in
  Forall (fun n => Node.activation n = 0) (Engine.nodes e) /\
  map Node.incoming_weights (Engine.nodes e)
  = map Node.incoming_weights (Engine.nodes (Engine.init d cfg)) /\
  Engine._compute_symbolic_acceptance e = 1.
Proof.
  intros Hin e.
  destruct (rest_run inputs Hin (Engine.init d cfg) (init_quiet d cfg))
    as [Hq Hw].
  split; [exact Hq|]. split; [exact Hw|].
  unfold Engine._compute_symbolic_acceptance.
  rewrite np_var_zeros.
  - rewrite Rmult_0_r. apply exp_0.
  - apply Forall_map. exact Hq.
Qed.

Lemma zero_input_valued :
  Forall (fun i : option (gmap nat R) =>
            forall k v, default ∅ i !! k = Some v -> v = 0)
         [None; Some {[0%nat := 0]}; Some ∅].
Proof.
  repeat constructor; simpl; intros k v.
  - rewrite lookup_empty. discriminate.
  - intros H. apply lookup_singleton_Some in H. symmetry. apply H.
  - rewrite lookup_empty. discriminate.
Qed.

Lemma reservoir_stays_at_rest_witness :
  Forall (fun i : option (gmap nat R) =>
            forall k v, default ∅ i !! k = Some v -> v = 0)
         [None; Some {[0%nat := 0]}; Some ∅] /\
  Engine._compute_symbolic_acceptance
    (run_steps (Engine.init plain_draws two_node_config)
               [None; Some {[0%nat := 0]}; Some ∅]) = 1.
Proof.
  split; [exact zero_input_valued|].
  apply (reservoir_stays_at_rest plain_draws two_node_config _
           zero_input_valued).
Defined.

(** ** Encoding a series onto input nodes *)

Lemma mul_lt_div (i k N : nat) :
  (i < k)%nat -> (k <= N)%nat -> (i * (N / k) < N)%nat.
Proof.
  intros Hi Hk.
  assert (Hs : (0 < N / k)%nat) by (apply Nat.div_str_pos; lia).
  assert (Hm : (k * (N / k) <= N)%nat) by apply Nat.Div0.mul_div_le.
  nia.
Qed.

Lemma encode_fold (step : nat) (l : list R) :
  (0 < step)%nat ->
  forall j : nat,
    (j <= length l)%nat ->
    let m :=
      fold_left
        (fun (inputs : gmap nat R) i =>
           match l !! i with
           | Some x => <[(i * step)%nat := x]> inputs
           | None => inputs
           end)
        (seq 0 j) ∅ in
    (forall key x,
        m !! key = Some x
        <-> exists i, (i < j)%nat /\ key = (i * step)%nat /\ l !! i = Some x)
    /\ size m = j.
Proof.
  intros Hstep. induction j as [|j IH]; intros Hj; cbv zeta.
  - simpl. split; [|apply map_size_empty].
    intros key x. rewrite lookup_empty. split; [discriminate|].
    intros (i & Hi & _). lia.
  - rewrite seq_S, fold_left_app. simpl.
    pose proof (IH ltac:(lia)) as IH'. cbv zeta in IH'.
    destruct IH' as [IHk IHs].
    set (m0 := fold_left _ (seq 0 j) ∅) in *.
    destruct (lookup_lt_is_Some_2 l j ltac:(lia)) as [y Hy].
    rewrite Hy.
    assert (Hfresh : m0 !! (j * step)%nat = None).
    { destruct (m0 !! (j * step)%nat) as [z|] eqn:E; [|reflexivity].
      apply IHk in E. destruct E as (i & Hi & Hk & _). nia. }
    split.
    + intros key x. destruct (decide (key = (j * step)%nat)) as [->|Hne].
      * rewrite lookup_insert.
        destruct (decide (j * step = j * step)%nat); [|congruence].
        split.
        -- intros [= <-]. exists j. split; [lia|]. split; [reflexivity|exact Hy].
        -- intros (i & Hi & Hk & Hx).
           assert (i = j) by nia. subst i. congruence.
      * rewrite lookup_insert_ne by congruence. rewrite IHk. split.
        -- intros (i & Hi & Hk & Hx). exists i. split; [lia|]. auto.
        -- intros (i & Hi & Hk & Hx). exists i.
           split; [|auto]. destruct (decide (i = j)) as [Eij|Eij]; [subst i; congruence|lia].
    + rewrite map_size_insert_None by exact Hfresh. rewrite IHs. reflexivity.
Qed.

(** X10. [_encode_market_data] feeds [k = min(len(nodes) // 4, len(data))]
    input nodes: sample [i < k] of the z-scored series goes to node
    [i * (len(nodes) // k)], these [k] node ids are distinct and all are
    valid node indices, and no other node receives an input; with an
    empty series or fewer than 4 nodes no node receives one. *)
Theorem encode_market_data_keys (e : Engine.t) (market_data : list R) :
  let inputs := Engine._encode_market_data e market_data in
  let N := length (Engine.nodes e) in
  let k := Nat.min (N / 4) (length market_data) in
  (forall key x,
      inputs !! key = Some x
      <-> exists i v,
            (i < k)%nat /\ key = (i * (N / k))%nat /\
            market_data !! i = Some v /\
            x = (v - np_mean market_data) / (np_std market_data + 1e-8)) /\
  (forall key, is_Some (inputs !! key) -> (key < N)%nat) /\
  size inputs = k.
Proof.
  intros inputs N k. unfold inputs, Engine._encode_market_data.
  destruct (decide (length market_data = 0%nat)) as [E0|E0].
  - assert (Hk : k = 0%nat) by (unfold k; rewrite E0; lia).
    rewrite Hk. split; [|split].
    + intros key x. rewrite lookup_empty. split; [discriminate|].
      intros (i & v & Hi & _). lia.
    + intros key [x Hx]. rewrite lookup_empty in Hx. discriminate.
    + apply map_size_empty.
  - rewrite length_map. fold N. fold k.
    set (norm := map _ market_data).
    destruct (decide (k = 0%nat)) as [Hk|Hk].
    + rewrite Hk. simpl. split; [|split].
      * intros key x. rewrite lookup_empty. split; [discriminate|].
        intros (i & v & Hi & _). lia.
      * intros key [x Hx]. rewrite lookup_empty in Hx. discriminate.
      * apply map_size_empty.
    + assert (HkN : (k <= N)%nat).
      { unfold k.
        assert (N / 4 <= N)%nat by (apply Nat.Div0.div_le_upper_bound; lia).
        lia. }
      assert (Hstep : (0 < N / k)%nat) by (apply Nat.div_str_pos; lia).
      assert (Hlen : (k <= length norm)%nat).
      { unfold norm. rewrite length_map. unfold k. lia. }
      destruct (encode_fold (N / k) norm Hstep k Hlen) as [Hkeys Hsize].
      assert (Hchar : forall key x,
                 fold_left
                   (fun (inputs : gmap nat R) i =>
                      match norm !! i with
                      | Some x => <[(i * (N / k))%nat := x]> inputs
                      | None => inputs
                      end) (seq 0 k) ∅ !! key = Some x
                 <-> exists i v,
                       (i < k)%nat /\ key = (i * (N / k))%nat /\
                       market_data !! i = Some v /\
                       x = (v - np_mean market_data)
                           / (np_std market_data + 1e-8)).
      { intros key x. rewrite Hkeys. split.
        - intros (i & Hi & Hkey & Hx). unfold norm in Hx.
          rewrite list_lookup_fmap in Hx.
          destruct (market_data !! i) as [v|] eqn:Ev; [|discriminate].
          simpl in Hx. injection Hx as <-. exists i, v. auto.
        - intros (i & v & Hi & Hkey & Hv & ->). exists i.
          split; [exact Hi|]. split; [exact Hkey|].
          unfold norm. rewrite list_lookup_fmap, Hv. reflexivity. }
      split; [exact Hchar|]. split; [|exact Hsize].
      intros key [x Hx]. apply Hchar in Hx.
      destruct Hx as (i & v & Hi & -> & _). apply mul_lt_div; assumption.
Qed.

(** ** Prediction advances the reservoir *)

Lemma run_steps_nodes_ext (inputs : list (option (gmap nat R))) :
  forall e1 e2 : Engine.t,
    Engine.nodes e1 = Engine.nodes e2 ->
    Engine.nodes (run_steps e1 inputs) = Engine.nodes (run_steps e2 inputs).
Proof.
  induction inputs as [|i inputs IH]; intros e1 e2 H; [exact H|].
  rewrite !run_steps_cons. apply IH. rewrite !nodes_update, H. reflexivity.
Qed.

Lemma predict_loop_advances (inputs : gmap nat R) (steps : list nat) :
  forall (preds : list R) (e : Engine.t),
    Engine.nodes e <> [] ->
    exists v e',
      Engine.predict_loop inputs steps preds e = (Ok v, e') /\
      Engine.nodes e'
      = Engine.nodes (run_steps e (prediction_inputs inputs steps)) /\
      length (Engine.coherence_history e')
      = (length (Engine.coherence_history e) + length steps)%nat /\
      length (Engine.anticipation_history e')
      = (length (Engine.anticipation_history e) + length steps)%nat.
Proof.
  induction steps as [|step steps IH]; intros preds e Hne.
  - exists preds, e. simpl. repeat split; lia.
  - cbn [Engine.predict_loop]. unfold bind at 1. unfold pure_method at 1.
    set (i := if decide (step = 0%nat) then Some inputs else None).
    assert (Hu : (if decide (step = 0%nat)
                  then Engine.update_reservoir_state e (Some inputs)
                  else Engine.update_reservoir_state e None)
                 = Engine.update_reservoir_state e i)
      by (unfold i; destruct (decide _); reflexivity).
    rewrite Hu.
    assert (Hcons : prediction_inputs inputs (step :: steps)
                    = i :: prediction_inputs inputs steps) by reflexivity.
    rewrite Hcons, run_steps_cons.
    pose proof (nodes_update e i) as Hn.
    rewrite update_reservoir_state_eq in Hn |- *.
    set (acts := map (node_activation _ _) (Engine.nodes e)) in *.
    set (ns' := map (node_step _ _) (Engine.nodes e)) in *.
    assert (Hacts : acts <> [])
      by (unfold acts; destruct (Engine.nodes e); [congruence|discriminate]).
    assert (Hns' : ns' <> [])
      by (unfold ns'; destruct (Engine.nodes e); [congruence|discriminate]).
    unfold bind at 1. unfold pure_method at 1.
    unfold Engine.compute_enhanced_coherence at 1.
    unfold bind at 1. unfold pure_method at 1.
    unfold Engine.compute_anticipation_capacity at 1.
    unfold bind at 1.
    match goal with
    | |- context [Engine._decode_prediction acts ?c ?a ?e1] =>
        destruct (decode_prediction_ok acts c a e1 Hacts) as (x & ->);
        destruct (IH (preds ++ [x]) e1 Hns') as (v & e' & Hv & Hnodes & Hc & Ha);
        set (e3 := e1) in *
    end.
    exists v, e'. split; [exact Hv|].
    split.
    { rewrite Hnodes. apply run_steps_nodes_ext. reflexivity. }
    split.
    { rewrite Hc. unfold e3. simpl. rewrite length_app. simpl. lia. }
    rewrite Ha. unfold e3. simpl. rewrite length_app. simpl. lia.
Qed.

Lemma predict_steps (e : Engine.t) (series : list R) (k : nat) :
  Engine.nodes e <> [] -> (10 <= length series)%nat ->
  exists (v : list R) (e' : Engine.t),
    Engine.predict_market_pattern series k e = (Ok v, e') /\
    Engine.nodes e'
    = Engine.nodes
        (run_steps e
           (prediction_inputs
              (Engine._encode_market_data e (last_n 10 series)) (seq 0 k))) /\
    length (Engine.coherence_history e')
    = (length (Engine.coherence_history e) + k)%nat /\
    length (Engine.anticipation_history e')
    = (length (Engine.anticipation_history e) + k)%nat.
Proof.
  intros Hne Hlen. unfold Engine.predict_market_pattern.
  destruct (Nat.ltb_spec (length series) 10); [lia|].
  unfold bind at 1, get.
  destruct (predict_loop_advances
              (Engine._encode_market_data e (last_n 10 series))
              (seq 0 k) [] e Hne) as (v & e' & Hv & Hn & Hc & Ha).
  rewrite length_seq in Hc, Ha.
  exists v, e'. auto.
Qed.

(** X11. Predicting is not a read-only query. On an engine with at least
    one node and a series of at least 10 samples,
    [predict_market_pattern series k] returns normally and leaves the
    reservoir advanced by [k] steps (the first driven by the encoding of
    the last 10 samples, the others by no input), with [k] more entries
    in the coherence history and in the anticipation history; so for
    [k > 0] the engine after the call differs from the engine before. *)
Theorem predict_advances_engine (e : Engine.t) (series : list R) (k : nat) :
  Engine.nodes e <> [] -> (10 <= length series)%nat ->
  exists (v : list R) (e' : Engine.t),
    Engine.predict_market_pattern series k e = (Ok v, e') /\
    Engine.nodes e'
    = Engine.nodes
        (run_steps e
           (prediction_inputs
              (Engine._encode_market_data e (last_n 10 series)) (seq 0 k))) /\
    length (Engine.coherence_history e')
    = (length (Engine.coherence_history e) + k)%nat /\
    length (Engine.anticipation_history e')
    = (length (Engine.anticipation_history e) + k)%nat /\
    ((0 < k)%nat -> e' <> e).
Proof.
  intros Hne Hlen.
  destruct (predict_steps e series k Hne Hlen) as (v & e' & Hv & Hn & Hc & Ha).
  exists v, e'. repeat (split; [assumption|]).
  intros Hk E. rewrite E in Hc. lia.
Qed.

Lemma predict_advances_engine_witness :
  Engine.nodes (Engine.init plain_draws two_node_config) <> [] /\
  (10 <= length [1; 2; 3; 4; 5; 6; 7; 8; 9; 10])%nat /\
  exists (v : list R) (e' : Engine.t),
    Engine.predict_market_pattern [1; 2; 3; 4; 5; 6; 7; 8; 9; 10] 3
      (Engine.init plain_draws two_node_config) = (Ok v, e') /\
    length (Engine.coherence_history e') = 3%nat.
Proof.
  split; [exact two_nodes_nonempty|].
  assert (H10 : (10 <= length [1; 2; 3; 4; 5; 6; 7; 8; 9; 10])%nat)
    by (simpl; lia).
  split; [exact H10|].
  destruct (predict_advances_engine
              (Engine.init plain_draws two_node_config)
              [1; 2; 3; 4; 5; 6; 7; 8; 9; 10] 3 two_nodes_nonempty H10)
    as (v & e' & Hv & _ & Hc & _).
  exists v, e'. split; [exact Hv | exact Hc].
Defined.

(** ** When the stream-processing body raises *)

Lemma zero_price_at_cases (h : list MarketDataPoint) (k : nat) :
  (1 <= k)%nat ->
  zero_price_at h k \/
  ((length h < k)%nat \/
   exists p, (k <= length h)%nat /\ h !! (length h - k)%nat = Some p /\
             price p <> 0).
Proof.
  intros H1.
  destruct (le_lt_dec k (length h)) as [Hk|Hk]; [|right; left; lia].
  destruct (h !! (length h - k)%nat) as [p|] eqn:E.
  - destruct (Req_EM_T (price p) 0) as [Hp|Hp].
    + left. split; [exact Hk|]. exists p. auto.
    + right. right. exists p. auto.
  - apply lookup_ge_None_1 in E. lia.
Qed.

Lemma lookup_tl {A} (l : list A) (i : nat) : tl l !! i = l !! S i.
Proof. destruct l; reflexivity. Qed.

Lemma append_capped_length {A} (cap : nat) (l : list A) (x : A) :
  length (append_capped cap l x)
  = if (cap <? S (length l))%nat then length l else S (length l).
Proof.
  unfold append_capped. rewrite length_app. simpl.
  replace (length l + 1)%nat with (S (length l)) by lia.
  destruct (cap <? S (length l))%nat; [|rewrite length_app; simpl; lia].
  rewrite length_tl, length_app. simpl. lia.
Qed.

Lemma append_capped_neg {A} (cap : nat) (l : list A) (x : A) (k : nat) :
  (1 <= k < cap)%nat ->
  ((S k <= length (append_capped cap l x))%nat <-> (k <= length l)%nat) /\
  ((k <= length l)%nat ->
   append_capped cap l x !! (length (append_capped cap l x) - S k)%nat
   = l !! (length l - k)%nat).
Proof.
  intros Hk. rewrite append_capped_length. unfold append_capped.
  rewrite length_app. simpl.
  replace (length l + 1)%nat with (S (length l)) by lia.
  destruct (Nat.ltb_spec cap (S (length l))) as [Hc|Hc].
  - split; [lia|]. intros Hl. rewrite lookup_tl.
    replace (S (length l - S k)) with (length l - k)%nat by lia.
    apply lookup_app_l. lia.
  - split; [lia|]. intros Hl.
    replace (S (length l) - S k)%nat with (length l - k)%nat by lia.
    apply lookup_app_l. lia.
Qed.

Lemma zero_price_at_append (h : list MarketDataPoint) (dp : MarketDataPoint)
  (k : nat) :
  (1 <= k < 1000)%nat ->
  zero_price_at (append_capped 1000 h dp) (S k) <-> zero_price_at h k.
Proof.
  intros Hk. destruct (append_capped_neg 1000 h dp k Hk) as [Hlen Hlook].
  unfold zero_price_at. split.
  - intros (Hl & p & Hp & H0). apply Hlen in Hl.
    split; [exact Hl|]. exists p. rewrite <- Hlook by exact Hl. auto.
  - intros (Hl & p & Hp & H0). split; [apply Hlen; exact Hl|].
    exists p. rewrite Hlook by exact Hl. auto.
Qed.

Lemma py_neg_index_ok {S A} (l : list A) (k : nat) (x : A) (s : S) :
  (k <= length l)%nat -> l !! (length l - k)%nat = Some x ->
  py_neg_index l k s = (Ok x, s).
Proof.
  intros Hk Hx. unfold py_neg_index.
  destruct (Nat.leb_spec k (length l)); [|lia]. rewrite Hx. reflexivity.
Qed.

Lemma py_div_ok {S} (a b : R) (s : S) :
  b <> 0 -> py_div a b s = (Ok (a / b), s).
Proof.
  intros Hb. unfold py_div. destruct (Req_EM_T b 0); [contradiction|].
  reflexivity.
Qed.

Lemma py_div_zero {S} (a b : R) (s : S) :
  b = 0 -> py_div a b s = (Raise ZeroDivisionError, s).
Proof.
  intros Hb. unfold py_div. destruct (Req_EM_T b 0); [|contradiction].
  reflexivity.
Qed.

(** [h[-k]] on a history that is long enough. *)
Lemma neg_lookup_total {A} (l : list A) (k : nat) :
  (1 <= k <= length l)%nat -> exists x, l !! (length l - k)%nat = Some x.
Proof. intros Hk. apply lookup_lt_is_Some_2. lia. Qed.

Lemma last_n_neg_lookup {A} (n k : nat) (l : list A) :
  (1 <= k <= n)%nat -> (k <= length l)%nat ->
  last_n n l !! (length (last_n n l) - k)%nat = l !! (length l - k)%nat.
Proof.
  intros Hk Hl. rewrite length_last_n. unfold last_n.
  rewrite lookup_drop. f_equal. lia.
Qed.

(** *** [_encode_market_signals] *)

Lemma encode_signals_cases (dp : MarketDataPoint) (s : Integrator.t) :
  (zero_price_at (Integrator.market_history s) 2 /\
   Integrator._encode_market_signals dp s = (Raise ZeroDivisionError, s)) \/
  (~ zero_price_at (Integrator.market_history s) 2 /\
   exists inputs, Integrator._encode_market_signals dp s = (Ok inputs, s)).
Proof.
  destruct (zero_price_at_cases (Integrator.market_history s) 2 ltac:(lia))
    as [Z|[Hshort|(p & Hl & Hp & Hne)]].
  - left. split; [exact Z|]. destruct Z as (Hl & p & Hp & H0).
    unfold Integrator._encode_market_signals.
    unfold bind at 1, get at 1. cbv beta iota.
    destruct (Nat.leb_spec 2 (length (Integrator.market_history s))); [|lia].
    unfold bind at 1. unfold bind at 1.
    rewrite (py_neg_index_ok _ 2 p s Hl Hp).
    unfold bind at 1. rewrite py_div_zero by exact H0. reflexivity.
  - right. split; [intros (Hl & _); lia|].
    unfold Integrator._encode_market_signals.
    unfold bind at 1, get at 1. cbv beta iota.
    destruct (Nat.leb_spec 2 (length (Integrator.market_history s))); [lia|].
    unfold bind at 1. unfold ret at 1. eexists. reflexivity.
  - right. split.
    { intros (_ & q & Hq & H0). congruence. }
    unfold Integrator._encode_market_signals.
    unfold bind at 1, get at 1. cbv beta iota.
    destruct (Nat.leb_spec 2 (length (Integrator.market_history s))); [|lia].
    unfold bind at 1. unfold bind at 1.
    rewrite (py_neg_index_ok _ 2 p s Hl Hp).
    unfold bind at 1. rewrite py_div_ok by exact Hne.
    unfold ret at 1. eexists. reflexivity.
Qed.

(** *** [_compute_symbolic_resonance] *)

Lemma resonance_cases (dp : MarketDataPoint) (acts : list R)
  (s : Integrator.t) :
  (zero_price_at (Integrator.market_history s) 3 /\
   Integrator._compute_symbolic_resonance dp acts s
   = (Raise ZeroDivisionError, s)) \/
  (~ zero_price_at (Integrator.market_history s) 3 /\
   exists x, Integrator._compute_symbolic_resonance dp acts s = (Ok x, s)).
Proof.
  destruct (zero_price_at_cases (Integrator.market_history s) 3 ltac:(lia))
    as [Z|[Hshort|(p & Hl & Hp & Hne)]].
  - left. split; [exact Z|]. destruct Z as (Hl & p & Hp & H0).
    unfold Integrator._compute_symbolic_resonance.
    unfold bind at 1, get at 1. cbv beta iota.
    destruct (Nat.leb_spec 3 (length (Integrator.market_history s))); [|lia].
    unfold bind at 1. unfold bind at 1.
    rewrite (py_neg_index_ok _ 3 p s Hl Hp).
    rewrite py_div_zero by exact H0. reflexivity.
  - right. split; [intros (Hl & _); lia|].
    unfold Integrator._compute_symbolic_resonance.
    unfold bind at 1, get at 1. cbv beta iota.
    destruct (Nat.leb_spec 3 (length (Integrator.market_history s))); [lia|].
    unfold bind at 1. unfold ret at 1. eexists. reflexivity.
  - right. split.
    { intros (_ & q & Hq & H0). congruence. }
    unfold Integrator._compute_symbolic_resonance.
    unfold bind at 1, get at 1. cbv beta iota.
    destruct (Nat.leb_spec 3 (length (Integrator.market_history s))); [|lia].
    unfold bind at 1. unfold bind at 1.
    rewrite (py_neg_index_ok _ 3 p s Hl Hp).
    rewrite py_div_ok by exact Hne.
    unfold ret at 1. eexists. reflexivity.
Qed.

(** *** [_compute_traditional_gct] *)

Lemma traditional_cases (dp : MarketDataPoint) (s : Integrator.t) :
  exists out,
    Integrator._compute_traditional_gct dp s = (out, s) /\
    ((out = Raise ZeroDivisionError /\
      zero_price_at (Integrator.market_history s) 3) \/
     (exists g, out = Ok g)).
Proof.
  unfold Integrator._compute_traditional_gct.
  unfold bind at 1, get at 1. cbv beta iota.
  set (h := Integrator.market_history s) in *.
  destruct (Nat.ltb_spec (length (map price (last_n 20 h))) 5) as [Hs|Hs].
  { eexists. split; [reflexivity|]. right. eauto. }
  destruct (sentiment dp) as [sv|].
  { unfold bind at 1, ret at 1. eexists. split; [reflexivity|]. right. eauto. }
  assert (Hlen : (5 <= length h)%nat).
  { rewrite length_map, length_last_n in Hs. lia. }
  destruct (Nat.leb_spec 3 (length (map price (last_n 20 h)))); [|lia].
  destruct (neg_lookup_total h 1 ltac:(lia)) as [q1 Hq1].
  destruct (neg_lookup_total h 3 ltac:(lia)) as [q3 Hq3].
  assert (L1 : map price (last_n 20 h)
                 !! (length (map price (last_n 20 h)) - 1)%nat
               = Some (price q1)).
  { rewrite list_lookup_fmap, length_map, last_n_neg_lookup by lia.
    rewrite Hq1. reflexivity. }
  assert (L3 : map price (last_n 20 h)
                 !! (length (map price (last_n 20 h)) - 3)%nat
               = Some (price q3)).
  { rewrite list_lookup_fmap, length_map, last_n_neg_lookup by lia.
    rewrite Hq3. reflexivity. }
  unfold bind at 1. unfold bind at 1.
  rewrite (py_neg_index_ok (map price (last_n 20 h)) 1 (price q1) s
             ltac:(lia) L1).
  unfold bind at 1.
  rewrite (py_neg_index_ok (map price (last_n 20 h)) 3 (price q3) s
             ltac:(lia) L3).
  unfold bind at 1.
  destruct (Req_EM_T (price q3) 0) as [H0|Hne].
  - rewrite py_div_zero by exact H0. eexists. split; [reflexivity|].
    left. split; [reflexivity|]. split; [lia|]. exists q3. auto.
  - rewrite py_div_ok by exact Hne. unfold ret at 1.
    eexists. split; [reflexivity|]. right. eauto.
Qed.

Lemma traditional_ok (dp : MarketDataPoint) (s : Integrator.t) :
  ~ zero_price_at (Integrator.market_history s) 3 ->
  exists g, Integrator._compute_traditional_gct dp s = (Ok g, s).
Proof.
  intros Hz. destruct (traditional_cases dp s) as (out & H & [[_ Z]|[g ->]]).
  - contradiction.
  - eauto.
Qed.

(** *** [_update_performance_metrics] *)

Lemma update_metrics_ok (r : Result.t) (s : Integrator.t) :
  ~ zero_price_at (Integrator.market_history s) 2 ->
  exists acc,
    Integrator._update_performance_metrics r s
    = (Ok tt,
       Integrator.set_stability_tracker
         (Integrator.set_accuracy_tracker s acc)
         (append_capped 50 (Integrator.coherence_stability_tracker s)
            (GCT.psi (Result.basal_enhanced_gct r)))) /\
    ((length (Integrator.market_history s) < 2)%nat ->
     acc = Integrator.prediction_accuracy_tracker s) /\
    ((2 <= length (Integrator.market_history s))%nat ->
     exists a, (a = 0 \/ a = 1) /\
               acc = append_capped 100
                       (Integrator.prediction_accuracy_tracker s) a).
Proof.
  intros Hz. unfold Integrator._update_performance_metrics.
  unfold bind at 1, get at 1. cbv beta iota.
  destruct (zero_price_at_cases (Integrator.market_history s) 2 ltac:(lia))
    as [Z|[Hshort|(p & Hl & Hp & Hne)]]; [contradiction| |].
  - destruct (Nat.leb_spec 2 (length (Integrator.market_history s))); [lia|].
    unfold bind at 1. unfold ret at 1. unfold modify.
    exists (Integrator.prediction_accuracy_tracker s).
    split; [destruct s; reflexivity|]. split; [reflexivity|lia].
  - destruct (Nat.leb_spec 2 (length (Integrator.market_history s))); [|lia].
    destruct (neg_lookup_total (Integrator.market_history s) 1 ltac:(lia))
      as [q1 Hq1].
    unfold bind at 1. unfold bind at 1.
    rewrite (py_neg_index_ok (Integrator.market_history s) 1 q1 s
               ltac:(lia) Hq1).
    unfold bind at 1.
    rewrite (py_neg_index_ok _ 2 p s Hl Hp).
    unfold bind at 1. rewrite py_div_ok by exact Hne.
    unfold modify.
    eexists. split; [reflexivity|]. split; [lia|]. intros _.
    eexists. split; [|reflexivity].
    destruct (Rgt_dec _ 0); [destruct (Rgt_dec _ 0); auto|].
    destruct (Rlt_dec _ 0); [destruct (Rlt_dec _ 0); auto|auto].
Qed.

(** *** Calls into the engine *)

Lemma on_engine_pure {A} (g : Engine.t -> Engine.t * A) (s : Integrator.t) :
  Integrator.on_engine (pure_method g) s
  = (Ok (snd (g (Integrator.basal_engine s))),
     Integrator.set_engine s (fst (g (Integrator.basal_engine s)))).
Proof.
  unfold Integrator.on_engine, pure_method.
  destruct (g (Integrator.basal_engine s)). reflexivity.
Qed.

Lemma confidence_state (market_data : list R) (s : Integrator.t) :
  exists x,
    Integrator._compute_prediction_confidence market_data s
    = (Ok x,
       Integrator.set_engine s
         (snd (Engine.predict_market_pattern market_data 3
                 (Integrator.basal_engine s)))) /\
    unit_interval x.
Proof.
  unfold Integrator._compute_prediction_confidence, try_except.
  unfold bind at 1. unfold Integrator.on_engine.
  destruct (Engine.predict_market_pattern market_data 3
              (Integrator.basal_engine s)) as [[v|ex] e']; simpl.
  - unfold bind, get, ret. eexists. split; [reflexivity|apply np_clip_unit].
  - unfold ret. eexists. split; [reflexivity|apply half_unit].
Qed.

(** ** The two outcomes of the stream-processing body *)

Lemma process_body_raise (dp : MarketDataPoint) (b : bool) (now : Z)
  (s : Integrator.t) :
  let h' := append_capped 1000 (Integrator.market_history s) dp in
  zero_price_at h' 2 \/ zero_price_at h' 3 ->
  exists e',
    Integrator.process_body dp b now s
    = (Raise ZeroDivisionError,
       Integrator.set_engine (Integrator.set_market_history s h') e') /\
    (e' = Integrator.basal_engine s \/
     exists inputs, e' = engine_after_update (Integrator.basal_engine s) inputs).
Proof.
  intros h' Hz. unfold Integrator.process_body.
  unfold bind at 1, modify at 1. cbv beta iota.
  fold h'. set (s0 := Integrator.set_market_history s h').
  assert (Hs0 : s0 = Integrator.set_engine s0 (Integrator.basal_engine s))
    by reflexivity.
  unfold bind at 1.
  destruct (traditional_cases dp s0) as (out & Ht & [[-> _]|[trad ->]]);
    rewrite Ht.
  { exists (Integrator.basal_engine s). split; [|left; reflexivity].
    rewrite <- Hs0. reflexivity. }
  unfold bind at 1, get at 1. cbv beta iota.
  unfold bind at 1.
  destruct (encode_signals_cases dp s0) as [[_ Hi]|[Hn2 [inputs Hi]]];
    rewrite Hi.
  { exists (Integrator.basal_engine s). split; [|left; reflexivity].
    rewrite <- Hs0. reflexivity. }
  assert (Z3 : zero_price_at h' 3).
  { destruct Hz as [Z|Z]; [|exact Z]. exfalso. apply Hn2. exact Z. }
  unfold bind at 1. rewrite on_engine_pure.
  unfold bind at 1. rewrite on_engine_pure.
  unfold bind at 1. rewrite on_engine_pure.
  unfold bind at 1, get at 1. cbv beta iota.
  unfold bind at 1.
  match goal with
  | |- context [Integrator._compute_symbolic_resonance dp ?acts ?s3] =>
      destruct (resonance_cases dp acts s3) as [[_ Hr]|[Hn3 _]];
      [rewrite Hr | exfalso; apply Hn3; exact Z3]
  end.
  exists (engine_after_update (Integrator.basal_engine s) inputs).
  split; [reflexivity|]. right. eauto.
Qed.

Lemma process_body_ok (dp : MarketDataPoint) (b : bool) (now : Z)
  (s : Integrator.t) :
  let h' := append_capped 1000 (Integrator.market_history s) dp in
  ~ zero_price_at h' 2 -> ~ zero_price_at h' 3 ->
  exists (r : Result.t) (s' : Integrator.t) (inputs : gmap nat R),
    Integrator.process_body dp b now s = (Ok r, s') /\
    Integrator.basal_engine s'
    = (if b
       then snd (Engine.predict_market_pattern
                   (Integrator._prepare_market_data_for_reservoir
                      (Integrator.set_market_history s h'))
                   3 (engine_after_update (Integrator.basal_engine s) inputs))
       else engine_after_update (Integrator.basal_engine s) inputs) /\
    Integrator.integration_strength s' = Integrator.integration_strength s /\
    Integrator.market_history s' = h' /\
    Integrator.coherence_results s'
    = append_capped 500 (Integrator.coherence_results s) r /\
    Integrator.coherence_stability_tracker s'
    = append_capped 50 (Integrator.coherence_stability_tracker s)
        (GCT.psi (Result.basal_enhanced_gct r)) /\
    ((length h' < 2)%nat ->
     Integrator.prediction_accuracy_tracker s'
     = Integrator.prediction_accuracy_tracker s) /\
    ((2 <= length h')%nat ->
     exists a, (a = 0 \/ a = 1) /\
               Integrator.prediction_accuracy_tracker s'
               = append_capped 100
                   (Integrator.prediction_accuracy_tracker s) a) /\
    Result.reservoir_state r
    = Engine.get_reservoir_state (Integrator.basal_engine s') /\
    Result.anticipation_capacity r
    = Engine.basal_contribution
        (fst (Engine.compute_enhanced_coherence
                (fst (Engine.update_reservoir_state
                        (Integrator.basal_engine s) (Some inputs))))) /\
    Result.adaptation_efficiency r
    = Integrator._compute_adaptation_efficiency s /\
    (b = false -> Result.prediction_confidence r = 0).
Proof.
  intros h' Hn2 Hn3. unfold Integrator.process_body.
  unfold bind at 1, modify at 1. cbv beta iota.
  fold h'. set (s0 := Integrator.set_market_history s h').
  unfold bind at 1.
  destruct (traditional_ok dp s0 Hn3) as [trad Ht]. rewrite Ht.
  unfold bind at 1, get at 1. cbv beta iota.
  unfold bind at 1.
  destruct (encode_signals_cases dp s0) as [[Z _]|[_ [inputs Hi]]];
    [exfalso; apply Hn2; exact Z|].
  rewrite Hi.
  unfold bind at 1. rewrite on_engine_pure.
  unfold bind at 1. rewrite on_engine_pure.
  unfold bind at 1. rewrite on_engine_pure.
  unfold bind at 1, get at 1. cbv beta iota.
  unfold bind at 1.
  match goal with
  | |- context [Integrator._compute_symbolic_resonance dp ?acts ?s3] =>
      destruct (resonance_cases dp acts s3) as [[Z _]|[_ [res Hr]]];
      [exfalso; apply Hn3; exact Z|];
      rewrite Hr; set (s3' := s3) in *
  end.
  unfold bind at 1.
  destruct b.
  - destruct (confidence_state
                (Integrator._prepare_market_data_for_reservoir s0) s3')
      as (pc & Hc & _).
    rewrite Hc.
    unfold bind at 1, get at 1. cbv beta iota.
    unfold bind at 1, modify at 1. cbv beta iota.
    unfold bind at 1.
    match goal with
    | |- context [Integrator._update_performance_metrics ?r ?s6] =>
        destruct (update_metrics_ok r s6 Hn2) as (acc & Hu & Hshort & Hlong);
        rewrite Hu
    end.
    unfold ret.
    eexists _, _, inputs. split; [reflexivity|].
    cbn [Integrator.basal_engine Integrator.integration_strength
         Integrator.market_history Integrator.coherence_results
         Integrator.coherence_stability_tracker
         Integrator.prediction_accuracy_tracker
         Integrator.set_stability_tracker Integrator.set_accuracy_tracker
         Integrator.set_coherence_results Integrator.set_engine
         Integrator.set_market_history
         Result.reservoir_state Result.anticipation_capacity
         Result.adaptation_efficiency Result.prediction_confidence
         Result.basal_enhanced_gct].
    split; [reflexivity|]. split; [reflexivity|]. split; [reflexivity|].
    split; [reflexivity|]. split; [reflexivity|].
    split; [exact Hshort|]. split; [exact Hlong|].
    split; [reflexivity|]. split; [reflexivity|]. split; [reflexivity|].
    discriminate.
  - unfold ret at 1.
    unfold bind at 1, get at 1. cbv beta iota.
    unfold bind at 1, modify at 1. cbv beta iota.
    unfold bind at 1.
    match goal with
    | |- context [Integrator._update_performance_metrics ?r ?s6] =>
        destruct (update_metrics_ok r s6 Hn2) as (acc & Hu & Hshort & Hlong);
        rewrite Hu
    end.
    unfold ret.
    eexists _, _, inputs. split; [reflexivity|].
    cbn [Integrator.basal_engine Integrator.integration_strength
         Integrator.market_history Integrator.coherence_results
         Integrator.coherence_stability_tracker
         Integrator.prediction_accuracy_tracker
         Integrator.set_stability_tracker Integrator.set_accuracy_tracker
         Integrator.set_coherence_results Integrator.set_engine
         Integrator.set_market_history
         Result.reservoir_state Result.anticipation_capacity
         Result.adaptation_efficiency Result.prediction_confidence
         Result.basal_enhanced_gct].
    split; [reflexivity|]. split; [reflexivity|]. split; [reflexivity|].
    split; [reflexivity|]. split; [reflexivity|].
    split; [exact Hshort|]. split; [exact Hlong|].
    split; [reflexivity|]. split; [reflexivity|]. split; [reflexivity|].
    reflexivity.
Qed.

(** ** Fallback: when, and what is logged *)

Lemma zero_price_dec (h : list MarketDataPoint) (k : nat) :
  (1 <= k)%nat -> zero_price_at h k \/ ~ zero_price_at h k.
Proof.
  intros Hk.
  destruct (zero_price_at_cases h k Hk) as [Z|[Hs|(p & Hl & Hp & Hne)]].
  - left. exact Z.
  - right. intros (Hl & _). lia.
  - right. intros (_ & q & Hq & H0). congruence.
Qed.

Lemma process_body_cases (dp : MarketDataPoint) (b : bool) (now : Z)
  (s : Integrator.t) :
  let h := Integrator.market_history s in
  let h' := append_capped 1000 h dp in
  ((zero_price_at h 1 \/ zero_price_at h 2) /\
   (zero_price_at h' 2 \/ zero_price_at h' 3)) \/
  (~ (zero_price_at h 1 \/ zero_price_at h 2) /\
   ~ zero_price_at h' 2 /\ ~ zero_price_at h' 3).
Proof.
  intros h h'.
  pose proof (zero_price_at_append h dp 1 ltac:(lia)) as E1.
  pose proof (zero_price_at_append h dp 2 ltac:(lia)) as E2.
  fold h' in E1, E2.
  destruct (zero_price_dec h 1 ltac:(lia)) as [Z1|N1];
    destruct (zero_price_dec h 2 ltac:(lia)) as [Z2|N2]; tauto.
Qed.


Lemma process_body_ok_inv (dp : MarketDataPoint) (b : bool) (now : Z)
  (s : Integrator.t) (r : Result.t) (s' : Integrator.t) :
  Integrator.process_body dp b now s = (Ok r, s') ->
  let h' := append_capped 1000 (Integrator.market_history s) dp in
  exists inputs : gmap nat R,
    Integrator.basal_engine s'
    = (if b
       then snd (Engine.predict_market_pattern
                   (Integrator._prepare_market_data_for_reservoir
                      (Integrator.set_market_history s h'))
                   3 (engine_after_update (Integrator.basal_engine s) inputs))
       else engine_after_update (Integrator.basal_engine s) inputs) /\
    Integrator.integration_strength s' = Integrator.integration_strength s /\
    Integrator.market_history s' = h' /\
    Integrator.coherence_results s'
    = append_capped 500 (Integrator.coherence_results s) r /\
    Integrator.coherence_stability_tracker s'
    = append_capped 50 (Integrator.coherence_stability_tracker s)
        (GCT.psi (Result.basal_enhanced_gct r)) /\
    ((length h' < 2)%nat ->
     Integrator.prediction_accuracy_tracker s'
     = Integrator.prediction_accuracy_tracker s) /\
    ((2 <= length h')%nat ->
     exists a, (a = 0 \/ a = 1) /\
               Integrator.prediction_accuracy_tracker s'
               = append_capped 100
                   (Integrator.prediction_accuracy_tracker s) a) /\
    Result.reservoir_state r
    = Engine.get_reservoir_state (Integrator.basal_engine s') /\
    Result.anticipation_capacity r
    = Engine.basal_contribution
        (fst (Engine.compute_enhanced_coherence
                (fst (Engine.update_reservoir_state
                        (Integrator.basal_engine s) (Some inputs))))) /\
    Result.adaptation_efficiency r
    = Integrator._compute_adaptation_efficiency s /\
    (b = false -> Result.prediction_confidence r = 0).
Proof.
  intros H h'.
  destruct (process_body_cases dp b now s) as [[_ Z']|(_ & N2 & N3)].
  - destruct (process_body_raise dp b now s Z') as (e' & He & _). congruence.
  - destruct (process_body_ok dp b now s N2 N3) as (r0 & s0 & inputs & Hok & F).
    rewrite H in Hok. injection Hok as <- <-. exists inputs. exact F.
Qed.

Lemma process_body_raise_inv (dp : MarketDataPoint) (b : bool) (now : Z)
  (s : Integrator.t) (e : exn) (s1 : Integrator.t) :
  Integrator.process_body dp b now s = (Raise e, s1) ->
  e = ZeroDivisionError /\
  exists e',
    s1 = Integrator.set_engine
           (Integrator.set_market_history s
              (append_capped 1000 (Integrator.market_history s) dp)) e' /\
    (e' = Integrator.basal_engine s \/
     exists inputs,
       e' = engine_after_update (Integrator.basal_engine s) inputs).
Proof.
  intros H.
  destruct (process_body_cases dp b now s) as [[_ Z']|(_ & N2 & N3)].
  - destruct (process_body_raise dp b now s Z') as (e' & He & Hcases).
    rewrite H in He. injection He as -> ->. split; [reflexivity|].
    exists e'. split; [reflexivity | exact Hcases].
  - destruct (process_body_ok dp b now s N2 N3) as (r0 & s0 & inputs & Hok & _).
    congruence.
Qed.

(** X13. What a call leaves behind. The data point is always appended to
    the market history (trimmed to 1000 entries), also when the call
    falls back. A fallback result is not logged: the coherence results
    and both trackers are unchanged, and the reservoir has either not
    been touched or already been advanced by the update of this call. A
    regular result is appended to the coherence results (trimmed to 500),
    its blended psi to the stability tracker (trimmed to 50), and it
    carries the monitoring dictionary of the engine as the call leaves
    it. *)
Theorem call_effects (dp : MarketDataPoint) (b : bool) (now : Z)
  (s : Integrator.t) :
  let out := Integrator.process_market_data_stream dp b now s in
  let s' := snd out in
  Integrator.market_history s'
  = append_capped 1000 (Integrator.market_history s) dp /\
  Integrator.integration_strength s' = Integrator.integration_strength s /\
  ((fst out = Ok (Integrator._create_fallback_result dp now) /\
    Integrator.coherence_results s' = Integrator.coherence_results s /\
    Integrator.prediction_accuracy_tracker s'
    = Integrator.prediction_accuracy_tracker s /\
    Integrator.coherence_stability_tracker s'
    = Integrator.coherence_stability_tracker s /\
    (Integrator.basal_engine s' = Integrator.basal_engine s \/
     exists inputs,
       Integrator.basal_engine s'
       = engine_after_update (Integrator.basal_engine s) inputs))
   \/
   (exists r,
      fst out = Ok r /\
      Integrator.coherence_results s'
      = append_capped 500 (Integrator.coherence_results s) r /\
      Integrator.coherence_stability_tracker s'
      = append_capped 50 (Integrator.coherence_stability_tracker s)
          (GCT.psi (Result.basal_enhanced_gct r)) /\
      Result.reservoir_state r
      = Engine.get_reservoir_state (Integrator.basal_engine s'))).
Proof.
  intros out s'. unfold s', out.
  destruct (process_frame dp b now s) as [Hs Hh].
  split; [exact Hh|]. split; [exact Hs|].
  unfold Integrator.process_market_data_stream, try_except.
  destruct (Integrator.process_body dp b now s) as [[r|e] s1] eqn:Hb.
  - right. exists r.
    destruct (process_body_ok_inv dp b now s r s1 Hb)
      as (inputs & _ & _ & _ & Hr & Hst & _ & _ & Hrs & _).
    simpl. auto.
  - left.
    destruct (process_body_raise_inv dp b now s e s1 Hb)
      as (_ & e' & -> & Hcases).
    unfold ret. simpl. auto.
Qed.

(** ** Streams *)

Lemma run_cons (s : Integrator.t) (dp : MarketDataPoint) (now : Z)
  (stream : list (MarketDataPoint * Z)) :
  Integrator.run s ((dp, now) :: stream)
  = (fst (Integrator.process_market_data_stream dp true now s)
       :: fst (Integrator.run
                 (snd (Integrator.process_market_data_stream dp true now s))
                 stream),
     snd (Integrator.run
            (snd (Integrator.process_market_data_stream dp true now s))
            stream)).
Proof.
  cbn [Integrator.run].
  destruct (Integrator.process_market_data_stream dp true now s) as [r s1].
  simpl. destruct (Integrator.run s1 stream) as [rs s2]. reflexivity.
Qed.

Lemma run_invariant (I : Integrator.t -> Prop) :
  (forall dp now s, I s ->
     I (snd (Integrator.process_market_data_stream dp true now s))) ->
  forall stream s, I s -> I (snd (Integrator.run s stream)).
Proof.
  intros Hstep stream.
  induction stream as [|[dp now] stream IH]; intros s Hs; [exact Hs|].
  rewrite run_cons. simpl. apply IH, Hstep, Hs.
Qed.

Lemma init_fields (d : RandomDraws) (cfg : option BasalReservoirConfig)
  (alpha : option R) (s : Integrator.t) :
  Integrator.init d cfg alpha = Ok s ->
  Integrator.market_history s = [] /\
  Integrator.coherence_results s = [] /\
  Integrator.prediction_accuracy_tracker s = [] /\
  Integrator.coherence_stability_tracker s = [] /\
  exists c, Integrator.basal_engine s = Engine.init d c /\
            (forall c0, cfg = Some c0 -> c = c0).
Proof.
  unfold Integrator.init.
  destruct (match cfg with Some c => Ok c | None => _ end) as [c|e] eqn:E;
    [|discriminate].
  intros [= <-]. simpl. repeat (split; [reflexivity|]).
  exists c. split; [reflexivity|]. intros c0 ->. congruence.
Qed.

Lemma append_capped_le {A} (cap n : nat) (l : list A) (x : A) :
  (length l <= Nat.min n cap)%nat ->
  (length (append_capped cap l x) <= Nat.min (S n) cap)%nat.
Proof.
  intros H. rewrite append_capped_length.
  destruct (Nat.ltb_spec cap (S (length l))); lia.
Qed.

Lemma append_capped_eq {A} (cap n : nat) (l : list A) (x : A) :
  length l = Nat.min n cap ->
  length (append_capped cap l x) = Nat.min (S n) cap.
Proof.
  intros H. rewrite append_capped_length.
  destruct (Nat.ltb_spec cap (S (length l))); lia.
Qed.

Lemma logs_within_step (n : nat) (dp : MarketDataPoint) (b : bool) (now : Z)
  (s : Integrator.t) :
  logs_within n s ->
  logs_within (S n) (snd (Integrator.process_market_data_stream dp b now s)).
Proof.
  intros (Hh & Hr & Ha & Hs).
  destruct (process_frame dp b now s) as [_ Hh'].
  unfold logs_within. rewrite Hh'.
  split; [apply append_capped_eq; exact Hh|].
  rewrite process_state.
  destruct (Integrator.process_body dp b now s) as [[r|e] s1] eqn:Hb.
  - destruct (process_body_ok_inv dp b now s r s1 Hb)
      as (inputs & _ & _ & _ & Hres & Hst & Hshort & Hlong & _).
    cbn [snd]. rewrite Hres, Hst.
    split; [apply append_capped_le; exact Hr|].
    split; [|apply append_capped_le; exact Hs].
    destruct (Nat.lt_ge_cases
                (length (append_capped 1000 (Integrator.market_history s) dp))
                2) as [Hl|Hl].
    + rewrite (Hshort Hl). lia.
    + destruct (Hlong Hl) as (a & _ & Hacc). rewrite Hacc.
      apply append_capped_le. exact Ha.
  - destruct (process_body_raise_inv dp b now s e s1 Hb)
      as (_ & e' & Hs1 & _).
    cbn [snd]. rewrite Hs1. simpl. lia.
Qed.

Lemma run_logs_within (stream : list (MarketDataPoint * Z)) :
  forall (n : nat) (s : Integrator.t),
    logs_within n s ->
    logs_within (n + length stream) (snd (Integrator.run s stream)).
Proof.
  induction stream as [|[dp now] stream IH]; intros n s H.
  - simpl. rewrite Nat.add_0_r. exact H.
  - rewrite run_cons. simpl.
    replace (n + S (length stream))%nat with (S n + length stream)%nat by lia.
    apply IH. apply logs_within_step. exact H.
Qed.

(** X14. The logs of an integrator are bounded: after a stream of [n]
    points fed to a freshly constructed integrator the market history
    holds exactly [min n 1000] points, the coherence results at most
    [min n 500], the accuracy tracker at most [min n 100] and the
    stability tracker at most [min n 50] entries. *)
Theorem logs_bounded (d : RandomDraws) (cfg : option BasalReservoirConfig)
  (alpha : option R) (s : Integrator.t)
  (stream : list (MarketDataPoint * Z)) :
  Integrator.init d cfg alpha = Ok s ->
  let s' := snd (Integrator.run s stream) in
  length (Integrator.market_history s') = Nat.min (length stream) 1000 /\
  (length (Integrator.coherence_results s')
   <= Nat.min (length stream) 500)%nat /\
  (length (Integrator.prediction_accuracy_tracker s')
   <= Nat.min (length stream) 100)%nat /\
  (length (Integrator.coherence_stability_tracker s')
   <= Nat.min (length stream) 50)%nat.
Proof.
  intros Hi s'.
  destruct (init_fields d cfg alpha s Hi) as (Hh & Hr & Ha & Hs & _).
  assert (H0 : logs_within 0 s).
  { unfold logs_within. rewrite Hh, Hr, Ha, Hs. simpl. lia. }
  exact (run_logs_within stream 0 s H0).
Qed.

Lemma logs_bounded_witness :
  Integrator.init plain_draws (Some two_node_config) None
  = Ok fresh_integrator /\
  length (Integrator.market_history
            (snd (Integrator.run fresh_integrator
                    [(later_point, 1%Z); (zero_price_point, 2%Z);
                     (later_point, 3%Z)])))
  = Nat.min 3 1000.
Proof.
  split; [exact fresh_integrator_init|].
  apply (logs_bounded plain_draws (Some two_node_config) None
           fresh_integrator
           [(later_point, 1%Z); (zero_price_point, 2%Z); (later_point, 3%Z)]
           fresh_integrator_init).
Defined.

(** *** Streams without a zero price *)

Lemma zero_price_in (h : list MarketDataPoint) (k : nat) :
  zero_price_at h k -> ~ Forall (fun p => price p <> 0) h.
Proof.
  intros (_ & p & Hp & H0) HF.
  exact (Forall_lookup_1 _ _ _ _ HF Hp H0).
Qed.

Lemma Forall_append_capped {A} (P : A -> Prop) (cap : nat) (l : list A)
  (x : A) :
  Forall P l -> P x -> Forall P (append_capped cap l x).
Proof.
  intros Hl Hx. unfold append_capped.
  destruct (_ <? _)%nat; [apply Forall_tl|]; apply Forall_snoc; assumption.
Qed.

Lemma reservoir_state_nonempty (e : Engine.t) :
  Engine.get_reservoir_state e <> ∅.
Proof.
  intros H.
  assert (L : Engine.get_reservoir_state e !! "num_nodes"%string
              = Some (INR (length (Engine.nodes e)))) by reflexivity.
  rewrite H, lookup_empty in L. discriminate.
Qed.

Lemma all_processed_step (n : nat) (dp : MarketDataPoint) (b : bool)
  (now : Z) (s : Integrator.t) :
  price dp <> 0 -> all_processed n s ->
  exists r s',
    Integrator.process_market_data_stream dp b now s = (Ok r, s') /\
    Result.reservoir_state r <> ∅ /\
    all_processed (S n) s'.
Proof.
  intros Hp (HF & Hr & Hs).
  destruct (process_body_cases dp b now s) as [[[Z|Z] _]|(_ & N2 & N3)];
    try (exfalso; exact (zero_price_in _ _ Z HF)).
  destruct (process_body_ok dp b now s N2 N3) as (r & s' & inputs0 & Hb & _).
  exists r, s'. split.
  { unfold Integrator.process_market_data_stream, try_except.
    rewrite Hb. reflexivity. }
  destruct (process_body_ok_inv dp b now s r s' Hb)
    as (inputs & _ & _ & Hh & Hres & Hst & _ & _ & Hrs & _).
  split; [rewrite Hrs; apply reservoir_state_nonempty|].
  unfold all_processed. rewrite Hh, Hres, Hst.
  split; [apply Forall_append_capped; assumption|].
  split; apply append_capped_eq; assumption.
Qed.

Lemma run_all_processed (stream : list (MarketDataPoint * Z)) :
  forall (n : nat) (s : Integrator.t),
    all_processed n s ->
    Forall (fun x => price (fst x) <> 0) stream ->
    Forall (fun o => exists r, o = Ok r /\ Result.reservoir_state r <> ∅)
           (fst (Integrator.run s stream)) /\
    all_processed (n + length stream) (snd (Integrator.run s stream)).
Proof.
  induction stream as [|[dp now] stream IH]; intros n s H HF.
  - simpl. rewrite Nat.add_0_r. split; [constructor | exact H].
  - inversion HF as [|? ? Hp HF']; subst. simpl in Hp.
    rewrite run_cons. cbn [fst snd].
    destruct (all_processed_step n dp true now s Hp H)
      as (r & s' & Hr & Hne & H').
    rewrite Hr. cbn [fst snd].
    destruct (IH (S n) s' H' HF') as [IH1 IH2].
    split; [constructor; [eauto | exact IH1]|].
    replace (n + length ((dp, now) :: stream))%nat
      with (S n + length stream)%nat by (simpl; lia).
    exact IH2.
Qed.




(** ** Reservoir steps per data point *)

Lemma prepare_length (s : Integrator.t) :
  length (Integrator._prepare_market_data_for_reservoir s)
  = if (length (Integrator.market_history s) <? 5)%nat then 10%nat
    else 20%nat.
Proof.
  unfold Integrator._prepare_market_data_for_reservoir.
  destruct (Nat.ltb_spec (length (Integrator.market_history s)) 5) as [H|H].
  - apply repeat_length.
  - set (pn := map _ (map price _)). set (vn := map _ (map _ _)).
    set (combined := last_n 10 pn ++ last_n 10 vn).
    assert (Hc : (length combined <= 20)%nat).
    { unfold combined. rewrite length_app, !length_last_n. lia. }
    rewrite length_take.
    destruct (Nat.ltb_spec (length combined) 20) as [Hlt|Hge].
    + rewrite length_app, repeat_length. lia.
    + lia.
Qed.

Lemma prepare_long (s : Integrator.t) :
  (10 <= length (Integrator._prepare_market_data_for_reservoir s))%nat.
Proof.
  rewrite prepare_length. destruct (_ <? _)%nat; lia.
Qed.

Lemma engine_after_update_fields (e : Engine.t) (inputs : gmap nat R) :
  Engine.nodes (engine_after_update e inputs)
  = Engine.nodes (run_steps e [Some inputs]) /\
  length (Engine.coherence_history (engine_after_update e inputs))
  = S (length (Engine.coherence_history e)) /\
  length (Engine.anticipation_history (engine_after_update e inputs))
  = S (length (Engine.anticipation_history e)).
Proof.
  unfold engine_after_update, run_steps. cbn [fold_left].
  rewrite update_reservoir_state_eq. cbn.
  rewrite !length_app. cbn.
  split; [reflexivity|split; lia].
Qed.

Lemma run_steps_app (e : Engine.t) (l1 l2 : list (option (gmap nat R))) :
  run_steps e (l1 ++ l2) = run_steps (run_steps e l1) l2.
Proof. unfold run_steps. apply fold_left_app. Qed.

(** X16. Every regularly processed data point advances the reservoir of
    an integrator with at least one node by four steps when prediction is
    enabled (one driven by the encoded market signals, three by the
    confidence estimate, which runs [predict_market_pattern] on the
    engine itself: the prepared series always has 10 or 20 entries, so
    the short-series exit of the predictor is never taken), and by one
    step when it is disabled; the coherence and anticipation histories of
    the engine grow by as many entries. *)
Theorem call_advances_engine (dp : MarketDataPoint) (b : bool) (now : Z)
  (s : Integrator.t) (r : Result.t) (s' : Integrator.t) :
  Integrator.process_body dp b now s = (Ok r, s') ->
  Engine.nodes (Integrator.basal_engine s) <> [] ->
  let e := Integrator.basal_engine s in
  let e' := Integrator.basal_engine s' in
  let k := if b then 4%nat else 1%nat in
  (exists inputs : list (option (gmap nat R)),
      length inputs = k /\
      Engine.nodes e' = Engine.nodes (run_steps e inputs)) /\
  length (Engine.coherence_history e')
  = (length (Engine.coherence_history e) + k)%nat /\
  length (Engine.anticipation_history e')
  = (length (Engine.anticipation_history e) + k)%nat.
Proof.
  intros Hb Hne e e' k. unfold e, e', k.
  destruct (process_body_ok_inv dp b now s r s' Hb) as (inputs & He & _).
  destruct (engine_after_update_fields (Integrator.basal_engine s) inputs)
    as (Hn & Hc & Ha).
  set (e3 := engine_after_update (Integrator.basal_engine s) inputs) in *.
  destruct b.
  - assert (Hne3 : Engine.nodes e3 <> []).
    { intros E.
      assert (L : length (Engine.nodes e3)
                  = length (Engine.nodes (Integrator.basal_engine s)))
        by (rewrite Hn; apply run_steps_length).
      rewrite E in L.
      destruct (Engine.nodes (Integrator.basal_engine s));
        [congruence | discriminate]. }
    destruct (predict_steps e3
                (Integrator._prepare_market_data_for_reservoir
                   (Integrator.set_market_history s
                      (append_capped 1000 (Integrator.market_history s) dp)))
                3 Hne3 (prepare_long _))
      as (v & e5 & Hp & Hn5 & Hc5 & Ha5).
    rewrite Hp in He. simpl in He. rewrite He.
    split; [|split; lia].
    eexists (Some inputs :: prediction_inputs _ (seq 0 3)).
    split; [reflexivity|].
    rewrite Hn5.
    rewrite run_steps_cons. apply run_steps_nodes_ext. exact Hn.
  - rewrite He. split; [|split; lia].
    exists [Some inputs]. split; [reflexivity | exact Hn].
Qed.

Lemma first_call_ok :
  exists r s',
    Integrator.process_body later_point true 1%Z fresh_integrator
    = (Ok r, s').
Proof.
  destruct (process_body_cases later_point true 1%Z fresh_integrator)
    as [[[Z|Z] _]|(_ & N2 & N3)].
  - destruct Z as (Hl & _). simpl in Hl. lia.
  - destruct Z as (Hl & _). simpl in Hl. lia.
  - destruct (process_body_ok later_point true 1%Z fresh_integrator N2 N3)
      as (r & s' & _ & H & _).
    eauto.
Qed.

Lemma call_advances_engine_witness :
  exists r s',
    Integrator.process_body later_point true 1%Z fresh_integrator
    = (Ok r, s') /\
    Engine.nodes (Integrator.basal_engine fresh_integrator) <> [] /\
    length (Engine.coherence_history (Integrator.basal_engine s')) = 4%nat.
Proof.
  destruct first_call_ok as (r & s' & H).
  exists r, s'. split; [exact H|]. split; [exact two_nodes_nonempty|].
  exact (proj1 (proj2 (call_advances_engine later_point true 1%Z
                         fresh_integrator r s' H two_nodes_nonempty))).
Defined.

(** ** Adaptation efficiency *)




(** ** Market signals given to the reservoir *)

Lemma encode_signals_shape (dp : MarketDataPoint) (s : Integrator.t)
  (signals : gmap nat R) (s' : Integrator.t) :
  Integrator._encode_market_signals dp s = (Ok signals, s') ->
  let N := length (Engine.nodes (Integrator.basal_engine s)) in
  s' = s /\
  exists (m1 : gmap nat R) (x y : R),
    ((m1 = ∅ /\ (length (Integrator.market_history s) < 2)%nat) \/
     m1 = <[0%nat := tanh x]> ∅) /\
    signals
    = match sentiment dp with
      | Some sv =>
          <[(N / 2)%nat := sv]>
            (if (5 <=? length (Integrator.market_history s))%nat
             then <[(N / 4)%nat := tanh y]> m1 else m1)
      | None =>
          if (5 <=? length (Integrator.market_history s))%nat
          then <[(N / 4)%nat := tanh y]> m1 else m1
      end.
Proof.
  intros H N.
  unfold Integrator._encode_market_signals in H.
  unfold bind at 1, get at 1 in H. cbv beta iota in H.
  destruct (zero_price_at_cases (Integrator.market_history s) 2 ltac:(lia))
    as [Z|[Hshort|(p & Hl & Hp & Hne)]].
  - exfalso. destruct Z as (Hl & p & Hp & H0).
    destruct (Nat.leb_spec 2 (length (Integrator.market_history s))); [|lia].
    unfold bind at 1 in H. unfold bind at 1 in H.
    rewrite (py_neg_index_ok _ 2 p s Hl Hp) in H.
    unfold bind at 1 in H. rewrite py_div_zero in H by exact H0.
    discriminate.
  - destruct (Nat.leb_spec 2 (length (Integrator.market_history s))); [lia|].
    unfold bind at 1 in H. unfold ret at 1 in H. unfold ret in H.
    injection H as <- <-. split; [reflexivity|].
    eexists ∅, 0, _. split; [left; split; [reflexivity|lia]|].
    fold N. reflexivity.
  - destruct (Nat.leb_spec 2 (length (Integrator.market_history s))); [|lia].
    unfold bind at 1 in H. unfold bind at 1 in H.
    rewrite (py_neg_index_ok _ 2 p s Hl Hp) in H.
    unfold bind at 1 in H. rewrite py_div_ok in H by exact Hne.
    unfold ret at 1 in H. unfold ret in H.
    injection H as <- <-. split; [reflexivity|].
    eexists _, _, _. split; [right; reflexivity|].
    fold N. reflexivity.
Qed.

(** X18. The signals that one data point feeds into the reservoir go to
    at most three nodes: node 0 (relative price change, from the second
    point on), node [N // 4] (volume ratio, from the fifth point on) and
    node [N // 2] (sentiment, when the point has one), [N] being the
    number of nodes. The price and volume signals pass through [tanh] and
    lie in [-1,1] (a price move of 100% already gives exactly 1.0 in
    doubles); the sentiment is passed on unchanged. The first point of a
    stream, when it has no sentiment, feeds nothing. The function never
    modifies the integrator. *)
Theorem market_signal_keys (dp : MarketDataPoint) (s : Integrator.t)
  (signals : gmap nat R) (s' : Integrator.t) :
  Integrator._encode_market_signals dp s = (Ok signals, s') ->
  let N := length (Engine.nodes (Integrator.basal_engine s)) in
  s' = s /\
  (forall k v,
      signals !! k = Some v ->
      (k = 0%nat \/ k = (N / 4)%nat \/ k = (N / 2)%nat) /\
      ((k = (N / 2)%nat /\ sentiment dp = Some v) \/ -1 <= v <= 1)) /\
  (forall sv, sentiment dp = Some sv -> signals !! (N / 2)%nat = Some sv) /\
  ((length (Integrator.market_history s) < 2)%nat ->
   sentiment dp = None -> signals = ∅).
Proof.
  intros H N.
  destruct (encode_signals_shape dp s signals s' H)
    as (Hs & m1 & x & y & Hm1 & Hsig).
  fold N in Hsig. split; [exact Hs|].
  assert (M1 : forall k v, m1 !! k = Some v -> k = 0%nat /\ -1 <= v <= 1).
  { intros k v Hk. destruct Hm1 as [[-> _]| ->].
    - rewrite lookup_empty in Hk. discriminate.
    - apply lookup_insert_Some in Hk.
      destruct Hk as [[<- <-]|[_ Hk]];
        [split; [reflexivity|pose proof (tanh_bounds x); lra]|].
      rewrite lookup_empty in Hk. discriminate. }
  assert (M2 : forall k v,
             (if (5 <=? length (Integrator.market_history s))%nat
              then <[(N / 4)%nat := tanh y]> m1 else m1) !! k = Some v ->
             (k = 0%nat \/ k = (N / 4)%nat) /\ -1 <= v <= 1).
  { intros k v Hk. destruct (5 <=? _)%nat.
    - apply lookup_insert_Some in Hk.
      destruct Hk as [[<- <-]|[_ Hk]];
        [split; [auto|pose proof (tanh_bounds y); lra]|].
      destruct (M1 k v Hk). auto.
    - destruct (M1 k v Hk). auto. }
  split; [|split].
  - intros k v Hk. rewrite Hsig in Hk.
    destruct (sentiment dp) as [sv|].
    + apply lookup_insert_Some in Hk.
      destruct Hk as [[<- <-]|[_ Hk]]; [auto|].
      destruct (M2 k v Hk) as [[?|?] ?]; auto.
    + destruct (M2 k v Hk) as [[?|?] ?]; auto.
  - intros sv Hsv. rewrite Hsig, Hsv. apply lookup_insert_eq.
  - intros Hshort Hnone. rewrite Hsig, Hnone.
    destruct (Nat.leb_spec 5 (length (Integrator.market_history s))); [lia|].
    destruct Hm1 as [[-> _]| ->]; [reflexivity|].
    exfalso.
    (* the price signal needs two points in the history *)
    unfold Integrator._encode_market_signals in H.
    unfold bind at 1, get at 1 in H. cbv beta iota in H.
    destruct (Nat.leb_spec 2 (length (Integrator.market_history s))); [lia|].
    destruct (Nat.leb_spec 5 (length (Integrator.market_history s))); [lia|].
    rewrite Hnone in H. unfold bind at 1 in H. unfold ret in H.
    injection H as H _. rewrite Hsig, Hnone in H.
    assert (L : (∅ : gmap nat R) !! 0%nat = Some (tanh x)).
    { destruct (Nat.leb_spec 5 (length (Integrator.market_history s)));
        [lia|].
      rewrite H. apply lookup_insert_eq. }
    rewrite lookup_empty in L. discriminate.
Qed.

Lemma first_signals :
  exists signals,
    Integrator._encode_market_signals later_point fresh_integrator
    = (Ok signals, fresh_integrator).
Proof.
  destruct (encode_signals_cases later_point fresh_integrator)
    as [[Z _]|[_ H]]; [|exact H].
  destruct Z as (Hl & _). simpl in Hl. lia.
Qed.

Lemma market_signal_keys_witness :
  exists signals,
    Integrator._encode_market_signals later_point fresh_integrator
    = (Ok signals, fresh_integrator) /\
    signals = ∅.
Proof.
  destruct first_signals as (signals & H).
  exists signals. split; [exact H|].
  destruct (market_signal_keys later_point fresh_integrator signals
              fresh_integrator H) as (_ & _ & _ & He).
  apply He; [simpl; lia | reflexivity].
Defined.

(** ** The blend of the two coherence vectors *)

Lemma convex_unit (a x y : R) :
  0 <= a <= 1 -> 0 <= x <= 1 -> 0 <= y <= 1 ->
  0 <= (1 - a) * x + a * y <= 1.
Proof. intros. nra. Qed.

Lemma reservoir_state_energy (e : Engine.t) :
  Engine.get_reservoir_state e !! "average_energy"%string
  = Some (np_mean (map Node.energy (Engine.nodes e))).
Proof. reflexivity. Qed.

Lemma reservoir_state_activation (e : Engine.t) :
  Engine.get_reservoir_state e !! "average_activation"%string
  = Some (np_mean (map Node.activation (Engine.nodes e))).
Proof. reflexivity. Qed.

Lemma average_energy_unit (d : RandomDraws) (cfg : BasalReservoirConfig)
  (e : Engine.t) :
  draws_in_range d -> 0 <= adaptation_rate cfg -> (0 < num_nodes cfg)%nat ->
  reachable d cfg e ->
  0 <= np_mean (map Node.energy (Engine.nodes e)) <= 1.
Proof.
  intros Hd Hrate Hn Hr.
  destruct (reachable_constants d cfg e Hr) as (_&_&_&_&_&Hlen).
  apply np_mean_bounds.
  - destruct (Engine.nodes e); [simpl in Hlen; lia | discriminate].
  - apply Forall_map.
    eapply Forall_impl; [exact (reachable_sound d cfg e Hd Hrate Hr)|].
    intros n (_ & He & _). exact He.
Qed.

(** X19. With an integration strength [alpha] in [0,1] and an engine
    reached from a constructed one, the clipping in
    [_integrate_coherence_approaches] never alters psi, q and f: they are
    exactly the convex combinations of the traditional value with the
    engine's coherence, with the mean node energy and with the
    normalised mean activation. Only rho can be clipped, and it differs
    from the traditional rho by at most [alpha / 2]. *)
Theorem blend_is_convex (d : RandomDraws) (cfg : BasalReservoirConfig)
  (s : Integrator.t) (traditional : GCT.t) (basal_coherence anticipation : R) :
  draws_in_range d -> 0 <= adaptation_rate cfg -> (0 < num_nodes cfg)%nat ->
  reachable d cfg (Integrator.basal_engine s) ->
  0 <= Integrator.integration_strength s <= 1 ->
  gct_in_unit traditional ->
  0 <= basal_coherence <= 1 ->
  let alpha := Integrator.integration_strength s in
  let g :=
    Integrator._integrate_coherence_approaches
      s traditional basal_coherence anticipation in
  let ns := Engine.nodes (Integrator.basal_engine s) in
  GCT.psi g = (1 - alpha) * GCT.psi traditional + alpha * basal_coherence /\
  GCT.q g
  = (1 - alpha) * GCT.q traditional + alpha * np_mean (map Node.energy ns) /\
  GCT.f g
  = (1 - alpha) * GCT.f traditional
    + alpha * ((tanh (np_mean (map Node.activation ns)) + 1) / 2) /\
  Rabs (GCT.rho g - GCT.rho traditional) <= alpha / 2.
Proof.
  intros Hd Hrate Hn Hr Ha (Hpsi & Hrho & Hq & Hf) Hbc alpha g ns.
  unfold g, Integrator._integrate_coherence_approaches.
  rewrite reservoir_state_energy, reservoir_state_activation.
  cbn [default GCT.psi GCT.rho GCT.q GCT.f]. fold alpha. fold ns.
  pose proof (average_energy_unit d cfg _ Hd Hrate Hn Hr) as He.
  fold ns in He.
  pose proof (tanh_unit (np_mean (map Node.activation ns))) as Ht.
  unfold unit_interval in *.
  split; [apply np_clip_id, convex_unit; assumption|].
  split; [apply np_clip_id, convex_unit; assumption|].
  split; [apply np_clip_id, convex_unit; assumption|].
  eapply Rle_trans; [apply clip_step; exact Hrho|].
  pose proof (np_clip_bounds anticipation (-0.5) 0.5 ltac:(lra)) as Hb.
  set (boost := np_clip anticipation (-0.5) 0.5) in *.
  fold alpha in Ha. clearbody alpha boost.
  apply Rabs_le. split; nra.
Qed.

Lemma fresh_strength : 0 <= Integrator.integration_strength fresh_integrator <= 1.
Proof. simpl. lra. Qed.

Lemma blend_is_convex_witness :
  draws_in_range plain_draws /\
  0 <= adaptation_rate two_node_config /\
  (0 < num_nodes two_node_config)%nat /\
  reachable plain_draws two_node_config
    (Integrator.basal_engine fresh_integrator) /\
  0 <= Integrator.integration_strength fresh_integrator <= 1 /\
  gct_in_unit Integrator.neutral_gct /\
  0 <= 0.5 <= 1 /\
  GCT.psi (Integrator._integrate_coherence_approaches
             fresh_integrator Integrator.neutral_gct 0.5 0.3)
  = (1 - Integrator.integration_strength fresh_integrator)
    * GCT.psi Integrator.neutral_gct
    + Integrator.integration_strength fresh_integrator * 0.5.
Proof.
  assert (H5 : 0 <= 0.5 <= 1) by lra.
  split; [exact plain_draws_in_range|]. split; [exact two_node_rate|].
  split; [exact two_node_count|]. split; [exact init_reachable_plain|].
  split; [exact fresh_strength|]. split; [exact neutral_in_unit|].
  split; [exact H5|].
  exact (proj1 (blend_is_convex plain_draws two_node_config fresh_integrator
                  Integrator.neutral_gct 0.5 0.3
                  plain_draws_in_range two_node_rate two_node_count
                  init_reachable_plain fresh_strength neutral_in_unit H5)).
Defined.

(** ** The engine of a running integrator *)

Lemma engine_after_update_reachable (d : RandomDraws)
  (cfg : BasalReservoirConfig) (e : Engine.t) (inputs : gmap nat R) :
  reachable d cfg e -> reachable d cfg (engine_after_update e inputs).
Proof.
  intros H. unfold engine_after_update.
  apply reach_anticipation, reach_coherence, reach_update, H.
Qed.

Lemma process_reachable (d : RandomDraws) (cfg : BasalReservoirConfig)
  (dp : MarketDataPoint) (b : bool) (now : Z) (s : Integrator.t) :
  reachable d cfg (Integrator.basal_engine s) ->
  reachable d cfg
    (Integrator.basal_engine
       (snd (Integrator.process_market_data_stream dp b now s))).
Proof.
  intros H. rewrite process_state.
  destruct (Integrator.process_body dp b now s) as [[r|e] s1] eqn:Hb;
    cbn [snd].
  - destruct (process_body_ok_inv dp b now s r s1 Hb) as (inputs & He & _).
    rewrite He. destruct b.
    + apply reach_predict, engine_after_update_reachable, H.
    + apply engine_after_update_reachable, H.
  - destruct (process_body_raise_inv dp b now s e s1 Hb)
      as (_ & e' & -> & [->|[inputs ->]]); simpl.
    + exact H.
    + apply engine_after_update_reachable, H.
Qed.

Lemma run_results (P : Result.t -> Prop) (I : Integrator.t -> Prop) :
  (forall dp now s, I s ->
     I (snd (Integrator.process_market_data_stream dp true now s)) /\
     exists r, fst (Integrator.process_market_data_stream dp true now s)
               = Ok r /\ P r) ->
  forall stream s, I s ->
    Forall (fun o => exists r, o = Ok r /\ P r)
           (fst (Integrator.run s stream)).
Proof.
  intros Hstep stream.
  induction stream as [|[dp now] stream IH]; intros s Hs; [constructor|].
  rewrite run_cons. cbn [fst].
  destruct (Hstep dp now s Hs) as (Hs' & r & Hr & HP).
  constructor; [eauto|]. apply IH, Hs'.
Qed.

(** X20. The anticipation capacity reported in the results of a stream
    is bounded: for an integrator built with an explicit configuration,
    every result (regular or fallback) has
    [|anticipation_capacity| <= 0.8 * num_nodes * |coherence_coupling|]. *)
Theorem reported_anticipation_bounded (d : RandomDraws)
  (cfg : BasalReservoirConfig) (alpha : option R) (s : Integrator.t)
  (stream : list (MarketDataPoint * Z)) :
  Integrator.init d (Some cfg) alpha = Ok s ->
  draws_in_range d -> 0 <= adaptation_rate cfg ->
  Forall
    (fun o =>
       exists r,
         o = Ok r /\
         Rabs (Result.anticipation_capacity r)
         <= 0.8 * INR (num_nodes cfg) * Rabs (coherence_coupling cfg))
    (fst (Integrator.run s stream)).
Proof.
  intros Hi Hd Hrate.
  apply (run_results _ (fun s => reachable d cfg (Integrator.basal_engine s))).
  - intros dp now s0 Hr. split; [apply process_reachable, Hr|].
    unfold Integrator.process_market_data_stream, try_except.
    destruct (Integrator.process_body dp true now s0) as [[r|e] s1] eqn:Hb.
    + exists r. split; [reflexivity|].
      destruct (process_body_ok_inv dp true now s0 r s1 Hb)
        as (inputs & _ & _ & _ & _ & _ & _ & _ & _ & -> & _).
      set (e2 := fst (Engine.compute_enhanced_coherence _)).
      assert (R2 : reachable d cfg e2)
        by (apply reach_coherence, reach_update, Hr).
      destruct (reachable_constants d cfg e2 R2) as (_&_&_&_&Hphi&Hlen).
      pose proof (basal_contribution_bound cfg e2
                    (reachable_sound d cfg e2 Hd Hrate R2)) as B.
      rewrite Hphi, Hlen in B. lra.
    + unfold ret. eexists. split; [reflexivity|]. simpl.
      rewrite Rabs_R0.
      pose proof (Rabs_pos (coherence_coupling cfg)).
      pose proof (pos_INR (num_nodes cfg)). nra.
  - destruct (init_fields d (Some cfg) alpha s Hi)
      as (_ & _ & _ & _ & c & -> & Hc).
    rewrite (Hc cfg eq_refl). constructor.
Qed.

Lemma reported_anticipation_bounded_witness :
  Integrator.init plain_draws (Some two_node_config) None
  = Ok fresh_integrator /\
  draws_in_range plain_draws /\
  0 <= adaptation_rate two_node_config /\
  Forall
    (fun o =>
       exists r,
         o = Ok r /\
         Rabs (Result.anticipation_capacity r)
         <= 0.8 * INR (num_nodes two_node_config)
            * Rabs (coherence_coupling two_node_config))
    (fst (Integrator.run fresh_integrator
            [(later_point, 1%Z); (zero_price_point, 2%Z)])).
Proof.
  split; [exact fresh_integrator_init|].
  split; [exact plain_draws_in_range|]. split; [exact two_node_rate|].
  exact (reported_anticipation_bounded plain_draws two_node_config None
           fresh_integrator _ fresh_integrator_init plain_draws_in_range
           two_node_rate).
Defined.

(** ** Monitoring: [get_performance_metrics] and [get_performance_summary] *)

Lemma logs_sound_step (dp : MarketDataPoint) (b : bool) (now : Z)
  (s : Integrator.t) :
  logs_sound s ->
  logs_sound (snd (Integrator.process_market_data_stream dp b now s)).
Proof.
  intros (Ha & Hr & Hs). rewrite process_state.
  destruct (Integrator.process_body dp b now s) as [[r|e] s1] eqn:Hb;
    cbn [snd].
  - destruct (process_body_ok_inv dp b now s r s1 Hb)
      as (inputs & _ & _ & _ & Hres & Hst & Hshort & Hlong & _).
    assert (Hu : result_in_unit r).
    { destruct (process_total dp b now s) as (r0 & s0 & Hp & Hu).
      unfold Integrator.process_market_data_stream, try_except in Hp.
      rewrite Hb in Hp. injection Hp as <- _. exact Hu. }
    unfold logs_sound. rewrite Hres, Hst.
    split; [|split].
    + destruct (Nat.lt_ge_cases
                  (length (append_capped 1000
                             (Integrator.market_history s) dp)) 2) as [Hl|Hl].
      * rewrite (Hshort Hl). exact Ha.
      * destruct (Hlong Hl) as (a & Ha01 & ->).
        apply Forall_append_capped; assumption.
    + apply Forall_append_capped; assumption.
    + apply Forall_append_capped; [assumption|].
      destruct Hu as (_ & (Hpsi & _) & _). exact Hpsi.
  - destruct (process_body_raise_inv dp b now s e s1 Hb)
      as (_ & e' & -> & _).
    unfold logs_sound. simpl. auto.
Qed.

Lemma reachable_metrics (d : RandomDraws) (cfg : BasalReservoirConfig)
  (e : Engine.t) :
  reachable d cfg e ->
  Engine.prediction_accuracy e = 0 /\ Engine.adaptation_efficiency e = 0.
Proof.
  apply (reachable_prim_ind d cfg
           (fun e => Engine.prediction_accuracy e = 0 /\
                     Engine.adaptation_efficiency e = 0)).
  - split; reflexivity.
  - intros e0 i H. rewrite update_reservoir_state_eq. exact H.
  - intros e0 H. exact H.
  - intros e0 H. exact H.
Qed.

Lemma Forall_last_n {A} (P : A -> Prop) (n : nat) (l : list A) :
  Forall P l -> Forall P (last_n n l).
Proof. intros H. unfold last_n. apply Forall_drop. exact H. Qed.

Lemma last_n_nonempty {A} (n : nat) (l : list A) :
  (1 <= n)%nat -> (1 <= length l)%nat -> last_n n l <> [].
Proof.
  intros Hn Hl E. apply (f_equal length) in E.
  rewrite length_last_n in E. simpl in E. lia.
Qed.

(** X21. The performance summary of an integrator built with an explicit
    configuration and fed any stream: prediction accuracy, coherence
    stability, average confidence and average symbolic resonance lie in
    [0,1], the average anticipation magnitude is non-negative,
    [processed_data_points] is the length of the trimmed market history
    and therefore stops counting at 1000, and the engine's own
    [prediction_accuracy] and [adaptation_efficiency] metrics are always
    0 (no operation ever writes them). *)
Theorem performance_summary_ranges (d : RandomDraws)
  (cfg : BasalReservoirConfig) (alpha : option R) (s : Integrator.t)
  (stream : list (MarketDataPoint * Z)) :
  Integrator.init d (Some cfg) alpha = Ok s ->
  let summary := get_performance_summary (snd (Integrator.run s stream)) in
  0 <= Summary.prediction_accuracy summary <= 1 /\
  0 <= Summary.coherence_stability summary <= 1 /\
  0 <= Summary.average_confidence summary <= 1 /\
  0 <= Summary.average_symbolic_resonance summary <= 1 /\
  0 <= Summary.average_anticipation_magnitude summary /\
  Summary.processed_data_points summary = Nat.min (length stream) 1000 /\
  Summary.basal_engine_metrics summary !! "prediction_accuracy"%string
  = Some 0 /\
  Summary.basal_engine_metrics summary !! "adaptation_efficiency"%string
  = Some 0.
Proof.
  intros Hi summary.
  destruct (init_fields d (Some cfg) alpha s Hi)
    as (Hh & Hr & Ha & Hs & c & He & Hc).
  rewrite (Hc cfg eq_refl) in He.
  set (s' := snd (Integrator.run s stream)) in *.
  assert (L : logs_sound s').
  { apply (run_invariant logs_sound).
    - intros dp now s0. apply logs_sound_step.
    - unfold logs_sound. rewrite Ha, Hr, Hs. repeat constructor. }
  assert (R' : reachable d cfg (Integrator.basal_engine s')).
  { apply (run_invariant
             (fun s => reachable d cfg (Integrator.basal_engine s))).
    - intros dp now s0. apply process_reachable.
    - rewrite He. constructor. }
  assert (W : logs_within (0 + length stream) s').
  { apply run_logs_within. unfold logs_within.
    rewrite Hh, Hr, Ha, Hs. simpl. lia. }
  destruct L as (La & Lr & Ls). destruct W as (Wh & _).
  destruct (reachable_metrics d cfg _ R') as [M1 M2].
  unfold summary, get_performance_summary.
  cbn [Summary.prediction_accuracy Summary.coherence_stability
       Summary.average_confidence Summary.average_symbolic_resonance
       Summary.average_anticipation_magnitude Summary.processed_data_points
       Summary.basal_engine_metrics].
  split.
  { destruct (Integrator.prediction_accuracy_tracker s') as [|a l] eqn:E;
      [lra|].
    apply np_mean_bounds; [discriminate|].
    eapply Forall_impl; [exact La|]. simpl. intros x [->| ->]; lra. }
  split.
  { destruct (Integrator.coherence_stability_tracker s') as [|a l] eqn:E.
    - rewrite Rmax_left by lra. lra.
    - pose proof (sqrt_pos (np_var (a :: l))) as Hsq.
      unfold np_std. split; [apply Rmax_l|]. apply Rmax_lub; lra. }
  destruct (Nat.leb_spec 10 (length (Integrator.coherence_results s')))
    as [H10|H10].
  - assert (Hne : last_n 10 (Integrator.coherence_results s') <> [])
      by (apply last_n_nonempty; lia).
    pose proof (Forall_last_n _ 10 _ Lr) as Lr'.
    split.
    { apply np_mean_bounds.
      - destruct (last_n 10 _); [congruence|discriminate].
      - apply Forall_map. eapply Forall_impl; [exact Lr'|].
        intros r (_ & _ & H & _). exact H. }
    split.
    { apply np_mean_bounds.
      - destruct (last_n 10 _); [congruence|discriminate].
      - apply Forall_map. eapply Forall_impl; [exact Lr'|].
        intros r (_ & _ & _ & H & _). exact H. }
    split.
    { apply np_mean_nonneg.
      - destruct (last_n 10 _); [congruence|discriminate].
      - apply Forall_map, Forall_forall. intros r _. apply Rabs_pos. }
    split; [simpl in Wh; exact Wh|].
    split; [change (Some (Engine.prediction_accuracy
                            (Integrator.basal_engine s')) = Some 0);
            rewrite M1; reflexivity|].
    change (Some (Engine.adaptation_efficiency
                    (Integrator.basal_engine s')) = Some 0).
    rewrite M2. reflexivity.
  - split; [lra|]. split; [lra|]. split; [lra|].
    split; [simpl in Wh; exact Wh|].
    split; [change (Some (Engine.prediction_accuracy
                            (Integrator.basal_engine s')) = Some 0);
            rewrite M1; reflexivity|].
    change (Some (Engine.adaptation_efficiency
                    (Integrator.basal_engine s')) = Some 0).
    rewrite M2. reflexivity.
Qed.

Lemma performance_summary_ranges_witness :
  Integrator.init plain_draws (Some two_node_config) None
  = Ok fresh_integrator /\
  Summary.processed_data_points
    (get_performance_summary
       (snd (Integrator.run fresh_integrator
               [(later_point, 1%Z); (zero_price_point, 2%Z)])))
  = Nat.min 2 1000.
Proof.
  split; [exact fresh_integrator_init|].
  apply (performance_summary_ranges plain_draws two_node_config None
           fresh_integrator [(later_point, 1%Z); (zero_price_point, 2%Z)]
           fresh_integrator_init).
Defined.

(** ** Engine metrics *)

Lemma fold_Rmax_bounds (hi : R) (l : list R) :
  forall acc,
    acc <= hi -> Forall (fun x => x <= hi) l ->
    acc <= fold_left Rmax l acc <= hi.
Proof.
  induction l as [|x l IH]; intros acc Ha Hl; [simpl; lra|].
  inversion Hl as [|? ? Hx Hl']; subst. simpl.
  destruct (IH (Rmax acc x)) as [I1 I2];
    [apply Rmax_lub; assumption | exact Hl' |].
  pose proof (Rmax_l acc x). lra.
Qed.

Lemma fold_Rmin_bounds (lo : R) (l : list R) :
  forall acc,
    lo <= acc -> Forall (fun x => lo <= x) l ->
    lo <= fold_left Rmin l acc <= acc.
Proof.
  induction l as [|x l IH]; intros acc Ha Hl; [simpl; lra|].
  inversion Hl as [|? ? Hx Hl']; subst. simpl.
  destruct (IH (Rmin acc x)) as [I1 I2];
    [apply Rmin_glb; assumption | exact Hl' |].
  pose proof (Rmin_l acc x). lra.
Qed.

Lemma np_max_min_range (lo hi : R) (l : list R) :
  l <> [] -> Forall (fun x => lo <= x <= hi) l ->
  lo <= np_min l /\ np_min l <= np_max l /\ np_max l <= hi.
Proof.
  intros Hne H. destruct l as [|x l]; [congruence|].
  inversion H as [|? ? Hx Hl]; subst. simpl.
  assert (Hhi : Forall (fun y => y <= hi) l)
    by (eapply Forall_impl; [exact Hl|]; simpl; intros; lra).
  assert (Hlo : Forall (fun y => lo <= y) l)
    by (eapply Forall_impl; [exact Hl|]; simpl; intros; lra).
  pose proof (fold_Rmax_bounds hi l x ltac:(lra) Hhi).
  pose proof (fold_Rmin_bounds lo l x ltac:(lra) Hlo).
  lra.
Qed.

Lemma np_std_unit (l : list R) :
  l <> [] -> Forall unit_interval l -> 0 <= np_std l <= 1.
Proof.
  intros Hne H. unfold np_std. split; [apply sqrt_pos|].
  rewrite <- sqrt_1. apply sqrt_le_1_alt.
  pose proof (np_mean_bounds 0 1 l Hne H) as Hm.
  unfold np_var. set (m := np_mean l) in *. destruct Hm as [Hm0 Hm1].
  apply (np_mean_bounds 0 1).
  - destruct l; [congruence|discriminate].
  - apply Forall_map. eapply Forall_impl; [exact H|].
    cbv beta. intros x [Hx0 Hx1]. clearbody m.
    assert (Hd : -1 <= x - m <= 1) by lra.
    set (t := x - m) in *. clearbody t. split; nra.
Qed.

Lemma reachable_anticipations (d : RandomDraws)
  (cfg : BasalReservoirConfig) (e : Engine.t) :
  draws_in_range d -> 0 <= adaptation_rate cfg ->
  reachable d cfg e ->
  Forall (fun a => Rabs a
                   <= 0.8 * INR (num_nodes cfg) * Rabs (coherence_coupling cfg))
         (Engine.anticipation_history e).
Proof.
  intros Hd Hrate Hr.
  cut (reachable d cfg e /\
       Forall (fun a => Rabs a
                        <= 0.8 * INR (num_nodes cfg)
                           * Rabs (coherence_coupling cfg))
              (Engine.anticipation_history e)); [tauto|].
  revert e Hr.
  apply (reachable_prim_ind d cfg
           (fun e => reachable d cfg e /\
                     Forall (fun a => Rabs a
                                      <= 0.8 * INR (num_nodes cfg)
                                         * Rabs (coherence_coupling cfg))
                            (Engine.anticipation_history e))).
  - split; constructor.
  - intros e i [R F]. split; [constructor; exact R|].
    rewrite update_reservoir_state_eq. exact F.
  - intros e [R F]. split; [constructor; exact R | exact F].
  - intros e [R F]. split; [constructor; exact R|]. simpl.
    apply Forall_snoc; [exact F|].
    destruct (reachable_constants d cfg e R) as (_&_&_&_&Hphi&Hlen).
    pose proof (basal_contribution_bound cfg e
                  (reachable_sound d cfg e Hd Hrate R)) as B.
    rewrite Hphi, Hlen in B. lra.
Qed.

Lemma metrics_stability (e : Engine.t) :
  get_performance_metrics e !! "coherence_stability"%string
  = Some (if (20 <=? length (Engine.coherence_history e))%nat
          then np_std (last_n 20 (Engine.coherence_history e))
          else 1).
Proof. reflexivity. Qed.

Lemma metrics_range (e : Engine.t) :
  get_performance_metrics e !! "anticipation_range"%string
  = Some (match Engine.anticipation_history e with
          | [] => 0
          | _ => np_max (Engine.anticipation_history e)
                 - np_min (Engine.anticipation_history e)
          end).
Proof. reflexivity. Qed.

(** X22. The metrics dictionary of an engine with a non-negative
    adaptation rate and a moderate coupling, reached from a constructed
    one with moderate drawn weights by operations on moderate arguments
    (at most 1e100 in magnitude, so that no floating-point value of a
    step overflows): [coherence_stability] is the placeholder 1.0 until
    20 coherence values are recorded and afterwards a standard deviation
    between 0 and 1; [anticipation_range] is 0 before the first
    anticipation is recorded and always between 0 and
    [1.6 * num_nodes * |coherence_coupling|]. *)
Theorem engine_metrics_ranges (d : RandomDraws)
  (cfg : BasalReservoirConfig) (e : Engine.t) :
  draws_in_range d -> moderate_draws d ->
  0 <= adaptation_rate cfg -> moderate (coherence_coupling cfg) ->
  reachable_moderate d cfg e ->
  let metrics := get_performance_metrics e in
  (exists v, metrics !! "coherence_stability"%string = Some v /\
             0 <= v <= 1 /\
             ((length (Engine.coherence_history e) < 20)%nat -> v = 1)) /\
  (exists v, metrics !! "anticipation_range"%string = Some v /\
             0 <= v <= 1.6 * INR (num_nodes cfg)
                       * Rabs (coherence_coupling cfg) /\
             (Engine.anticipation_history e = [] -> v = 0)).
Proof.
  intros Hd _ Hrate _ Hm metrics.
  pose proof (reachable_moderate_reachable d cfg e Hm) as Hr. split.
  - eexists. split; [apply metrics_stability|].
    destruct (Nat.leb_spec 20 (length (Engine.coherence_history e)))
      as [H|H].
    + split; [|lia].
      apply np_std_unit.
      * apply last_n_nonempty; lia.
      * apply Forall_last_n.
        destruct (reachable_psi d cfg e Hr) as (_ & Hh & _). exact Hh.
    + split; [lra | reflexivity].
  - eexists. split; [apply metrics_range|].
    pose proof (reachable_anticipations d cfg e Hd Hrate Hr) as F.
    set (B := 0.8 * INR (num_nodes cfg) * Rabs (coherence_coupling cfg)) in *.
    assert (HB : 0 <= B).
    { unfold B. pose proof (pos_INR (num_nodes cfg)).
      pose proof (Rabs_pos (coherence_coupling cfg)). nra. }
    replace (1.6 * INR (num_nodes cfg) * Rabs (coherence_coupling cfg))
      with (2 * B) by (unfold B; lra).
    destruct (Engine.anticipation_history e) as [|a l] eqn:E.
    + split; [lra|reflexivity].
    + split; [|discriminate].
      assert (F' : Forall (fun x => - B <= x <= B) (a :: l)).
      { eapply Forall_impl; [exact F|]. simpl. intros x Hx.
        unfold Rabs in Hx. destruct (Rcase_abs x); lra. }
      destruct (np_max_min_range (- B) B (a :: l) ltac:(discriminate) F')
        as (H1 & H2 & H3).
      lra.
Qed.

Lemma engine_metrics_ranges_witness :
  draws_in_range plain_draws /\
  moderate_draws plain_draws /\
  0 <= adaptation_rate two_node_config /\
  moderate (coherence_coupling two_node_config) /\
  reachable_moderate plain_draws two_node_config
    (Engine.init plain_draws two_node_config) /\
  exists v,
    get_performance_metrics (Engine.init plain_draws two_node_config)
      !! "coherence_stability"%string = Some v /\
    0 <= v <= 1.
Proof.
  split; [exact plain_draws_in_range|]. split; [exact plain_draws_moderate|].
  split; [exact two_node_rate|]. split; [exact two_node_coupling|].
  split; [exact init_moderate_plain|].
  destruct (engine_metrics_ranges plain_draws two_node_config _
              plain_draws_in_range plain_draws_moderate two_node_rate
              two_node_coupling init_moderate_plain)
    as [(v & Hv & Hr & _) _].
  exists v. split; [exact Hv | exact Hr].
Defined.

(** ** Grouping by symbol *)

Lemma group_snoc (market_data : list MarketDataPoint) (x : MarketDataPoint) :
  _group_data_by_symbol (market_data ++ [x])
  = <[symbol x :=
        default [] (_group_data_by_symbol market_data !! symbol x) ++ [x]]>
      (_group_data_by_symbol market_data).
Proof.
  unfold _group_data_by_symbol. rewrite fold_left_app. simpl.
  set (m := fold_left _ market_data ∅).
  destruct (m !! symbol x) as [l|] eqn:E.
  - rewrite E. reflexivity.
  - rewrite lookup_insert_eq. simpl. rewrite insert_insert_eq. reflexivity.
Qed.

(** X23. [_group_data_by_symbol] partitions the data by symbol: the
    group of a symbol is the sub-list of the points with that symbol, in
    their original order, and a symbol has a group exactly when at least
    one point carries it; no point is lost or duplicated. *)
Theorem group_data_by_symbol_spec (market_data : list MarketDataPoint)
  (sym : string) :
  _group_data_by_symbol market_data !! sym
  = match filter (fun dp => symbol dp = sym) market_data with
    | [] => None
    | group => Some group
    end.
Proof.
  induction market_data as [|x l IH] using rev_ind.
  - reflexivity.
  - rewrite group_snoc, filter_app.
    destruct (decide (symbol x = sym)) as [E|E].
    + rewrite E, lookup_insert_eq, IH.
      rewrite (filter_cons_True (fun dp => symbol dp = sym) x []) by exact E.
      rewrite filter_nil.
      destruct (filter (fun dp => symbol dp = sym) l); reflexivity.
    + rewrite lookup_insert_ne by exact E. rewrite IH.
      rewrite (filter_cons_False (fun dp => symbol dp = sym) x []) by exact E.
      rewrite filter_nil, app_nil_r. reflexivity.
Qed.

(** ** Confidence scores *)

Lemma clip_mono (x y : R) : x <= y -> np_clip x 0 1 <= np_clip y 0 1.
Proof.
  intros H. unfold np_clip.
  apply Rle_min_compat_r. apply Rle_max_compat_r. exact H.
Qed.

Lemma clip_nonpos (x : R) : x <= 0 -> np_clip x 0 1 = 0.
Proof.
  intros H. unfold np_clip. rewrite Rmax_right by exact H.
  apply Rmin_left. lra.
Qed.

Lemma decay_mono (i j : nat) :
  (i <= j)%nat -> exp (- INR j * 0.2) <= exp (- INR i * 0.2).
Proof.
  intros H. apply le_INR in H.
  destruct (Req_dec (INR i) (INR j)) as [E|E].
  - rewrite E. lra.
  - left. apply exp_increasing. lra.
Qed.

Lemma clipped_decay_mono (c : R) (i j : nat) :
  (i <= j)%nat ->
  np_clip (c * exp (- INR j * 0.2)) 0 1
  <= np_clip (c * exp (- INR i * 0.2)) 0 1.
Proof.
  intros H. pose proof (decay_mono i j H) as D.
  pose proof (exp_pos (- INR j * 0.2)) as Pj.
  pose proof (exp_pos (- INR i * 0.2)) as Pi.
  destruct (Rle_dec 0 c) as [Hc|Hc].
  - apply clip_mono. nra.
  - rewrite !clip_nonpos by nra. lra.
Qed.

(** X24. [_calculate_confidence_scores] returns one score per predicted
    price. For a coherence result whose values lie in [0,1] (as the
    integrator returns them, so not NaN), moderate predicted and
    historical prices (at most 1e100 in magnitude, so that no square or
    sum overflows) and a price history that is not empty (NumPy's mean
    of an empty history is NaN), every score lies in [0,1] and the
    scores never increase with the prediction horizon (the combined
    confidence is damped by [exp(-0.2 i)] and clipped). *)
Theorem confidence_scores_decay (predicted_prices : list R)
  (coherence_result : Result.t) (historical_prices : list R) :
  result_in_unit coherence_result ->
  Forall moderate predicted_prices ->
  Forall moderate historical_prices ->
  historical_prices <> [] ->
  let scores :=
    _calculate_confidence_scores predicted_prices coherence_result
      historical_prices in
  length scores = length predicted_prices /\
  Forall unit_interval scores /\
  forall (i j : nat) (x y : R),
    (i <= j)%nat -> scores !! i = Some x -> scores !! j = Some y -> y <= x.
Proof.
  intros _ _ _ _ scores. unfold scores, _calculate_confidence_scores.
  set (c := _ * 0.4 + _ * 0.3 + _ * 0.2 + _ * 0.1).
  split; [rewrite length_map, length_seq; reflexivity|].
  split.
  - apply Forall_map, Forall_forall. intros i _. apply np_clip_unit.
  - intros i j x y Hij Hi Hj.
    rewrite list_lookup_fmap in Hi, Hj.
    destruct (seq 0 (length predicted_prices) !! i) as [i'|] eqn:Ei;
      [|discriminate].
    destruct (seq 0 (length predicted_prices) !! j) as [j'|] eqn:Ej;
      [|discriminate].
    apply lookup_seq in Ei, Ej. destruct Ei as [-> _], Ej as [-> _].
    simpl in Hi, Hj. injection Hi as <-. injection Hj as <-.
    apply clipped_decay_mono. exact Hij.
Qed.

Lemma moderate_hundreds (x : R) : 0 <= x <= 1000 -> moderate x.
Proof. intros H. unfold moderate. rewrite Rabs_right by lra. lra. Qed.

Lemma confidence_scores_decay_witness :
  result_in_unit (Integrator._create_fallback_result later_point 1%Z) /\
  Forall moderate [101; 102; 103] /\
  Forall moderate [100; 101] /\
  [100; 101] <> @nil R /\
  length (_calculate_confidence_scores [101; 102; 103]
            (Integrator._create_fallback_result later_point 1%Z)
            [100; 101])
  = 3%nat.
Proof.
  assert (H1 : Forall moderate [101; 102; 103])
    by (repeat (constructor; [apply moderate_hundreds; lra|]); constructor).
  assert (H2 : Forall moderate [100; 101])
    by (repeat (constructor; [apply moderate_hundreds; lra|]); constructor).
  split; [apply fallback_in_unit|]. split; [exact H1|]. split; [exact H2|].
  split; [discriminate|].
  apply (confidence_scores_decay [101; 102; 103]
           (Integrator._create_fallback_result later_point 1%Z)
           [100; 101] (fallback_in_unit later_point 1%Z) H1 H2).
  discriminate.
Defined.

(** ** Risk assessment *)


(** ** Trading signals *)

Lemma signals_direction (fmt2 repr : R -> string)
  (config : AnalysisConfig.t) (predicted_prices confidence_scores : list R) :
  let avg := np_mean confidence_scores in
  let thr := AnalysisConfig.confidence_threshold config in
  let first_price := nth 0 predicted_prices 0 in
  let last_price := neg_index predicted_prices 1 0 in
  let signals :=
    {| Signals.action := "HOLD";
       Signals.strength := 0;
       Signals.confidence := 0;
       Signals.risk_level := "MEDIUM";
       Signals.reasoning := [] |} in
  let s1 :=
    if ((2 <=? length predicted_prices)%nat
        && match confidence_scores with [] => false | _ => true end)%bool
    then
      if Rgt_dec avg thr then
        Signals.set_confidence
          (if Rgt_dec (last_price - first_price) 0 then
             Signals.add_reason
               (Signals.set_strength
                  (Signals.set_action signals "BUY")
                  (Rmin 1 (Rabs (last_price - first_price) * avg * 2)))
               ("Upward price prediction with " ++ fmt2 avg ++ " confidence")
           else if Rlt_dec (last_price - first_price) 0 then
             Signals.add_reason
               (Signals.set_strength
                  (Signals.set_action signals "SELL")
                  (Rmin 1 (Rabs (last_price - first_price) * avg * 2)))
               ("Downward price prediction with " ++ fmt2 avg
                ++ " confidence")
           else signals)
          avg
      else
        Signals.add_reason signals
          ("Confidence too low: " ++ fmt2 avg ++ " < " ++ repr thr)
    else signals in
  (Signals.action s1 = "HOLD"%string \/ Signals.action s1 = "BUY"%string
   \/ Signals.action s1 = "SELL"%string) /\
  (Signals.action s1 = "HOLD"%string -> Signals.strength s1 = 0) /\
  (Signals.action s1 <> "HOLD"%string ->
   (2 <= length predicted_prices)%nat /\ avg > thr /\
   Signals.confidence s1 = avg) /\
  (Signals.action s1 = "BUY"%string -> last_price > first_price) /\
  (Signals.action s1 = "SELL"%string -> last_price < first_price) /\
  Signals.risk_level s1 = "MEDIUM"%string.
Proof.
  intros avg thr first_price last_price signals s1. unfold s1, signals.
  destruct (Nat.leb_spec 2 (length predicted_prices)) as [G1|G1];
    cbn [andb].
  2:{ cbn. split; [auto|]. split; [auto|]. split; [congruence|].
      split; [discriminate|]. split; [discriminate|reflexivity]. }
  destruct (match confidence_scores with [] => false | _ => true end).
  2:{ cbn. split; [auto|]. split; [auto|]. split; [congruence|].
      split; [discriminate|]. split; [discriminate|reflexivity]. }
  destruct (Rgt_dec avg thr) as [Ht|Ht].
  2:{ cbn. split; [auto|]. split; [auto|]. split; [congruence|].
      split; [discriminate|]. split; [discriminate|reflexivity]. }
  destruct (Rgt_dec (last_price - first_price) 0) as [Hup|Hup].
  { cbn. split; [auto|]. split; [discriminate|]. split; [auto|].
    split; [intros _; lra|]. split; [discriminate|reflexivity]. }
  destruct (Rlt_dec (last_price - first_price) 0) as [Hdn|Hdn].
  { cbn. split; [auto|]. split; [discriminate|]. split; [auto|].
    split; [discriminate|]. split; [intros _; lra|reflexivity]. }
  cbn. split; [auto|]. split; [auto|]. split; [congruence|].
  split; [discriminate|]. split; [discriminate|reflexivity].
Qed.

Lemma signals_adjust (s1 : Signals.t) (cs overall_risk : R) :
  (Signals.action s1 = "HOLD"%string -> Signals.strength s1 = 0) ->
  Signals.risk_level s1 = "MEDIUM"%string ->
  let s2 :=
    if Rgt_dec cs 0.8 then
      Signals.add_reason
        (Signals.set_strength s1 (Signals.strength s1 * 1.2))
        "High market coherence detected"
    else if Rlt_dec cs 0.3 then
      Signals.add_reason
        (Signals.set_strength s1 (Signals.strength s1 * 0.5))
        "Low market coherence - reduced confidence"
    else s1 in
  let s3 :=
    if Rgt_dec overall_risk 0.7 then
      Signals.add_reason
        (Signals.set_strength
           (Signals.set_risk_level s2 "HIGH")
           (Signals.strength s2 * 0.6))
        "High market risk detected"
    else if Rlt_dec overall_risk 0.3 then
      Signals.add_reason
        (Signals.set_strength
           (Signals.set_risk_level s2 "LOW")
           (Signals.strength s2 * 1.1))
        "Low market risk environment"
    else s2 in
  let sg := Signals.set_strength s3 (np_clip (Signals.strength s3) 0 1) in
  0 <= Signals.strength sg <= 1 /\
  Signals.action sg = Signals.action s1 /\
  Signals.confidence sg = Signals.confidence s1 /\
  (Signals.action sg = "HOLD"%string -> Signals.strength sg = 0) /\
  (Signals.risk_level sg = "HIGH"%string <-> overall_risk > 0.7) /\
  (Signals.risk_level sg = "LOW"%string <-> overall_risk < 0.3) /\
  (Signals.risk_level sg = "MEDIUM"%string <-> 0.3 <= overall_risk <= 0.7).
Proof.
  intros A2 A6 s2 s3 sg. unfold sg, s3, s2.
  destruct s1 as [act str conf rl reas].
  cbn [Signals.action Signals.strength Signals.risk_level] in A2, A6.
  subst rl.
  destruct (Rgt_dec cs 0.8) as [C1|C1];
    [|destruct (Rlt_dec cs 0.3) as [C2|C2]];
    (destruct (Rgt_dec overall_risk 0.7) as [K1|K1];
     [|destruct (Rlt_dec overall_risk 0.3) as [K2|K2]]);
    cbn [Signals.action Signals.strength Signals.confidence
         Signals.risk_level Signals.set_strength Signals.set_action
         Signals.set_confidence Signals.set_risk_level Signals.add_reason];
    (split; [apply np_clip_bounds; lra|]);
    (split; [reflexivity|]);
    (split; [reflexivity|]);
    (split; [intros Hh; rewrite (A2 Hh); apply clip_nonpos; lra|]);
    (split; [split; [intros Hh; first [exact K1 | discriminate Hh]
                    | intros Hh; first [reflexivity | exfalso; lra]]|]);
    (split; [split; [intros Hh; first [exact K2 | discriminate Hh]
                    | intros Hh; first [reflexivity | exfalso; lra]]|]);
    (split; [intros Hh; first [discriminate Hh | lra]
            | intros Hh; first [reflexivity | exfalso; lra]]).
Qed.

Lemma signals_compose (s1 sg : Signals.t) (overall_risk : R) (Q : R -> Prop) (B S : Prop) :
  ((Signals.action s1 = "HOLD"%string \/ Signals.action s1 = "BUY"%string
    \/ Signals.action s1 = "SELL"%string) /\
   (Signals.action s1 = "HOLD"%string -> Signals.strength s1 = 0) /\
   (Signals.action s1 <> "HOLD"%string -> Q (Signals.confidence s1)) /\
   (Signals.action s1 = "BUY"%string -> B) /\
   (Signals.action s1 = "SELL"%string -> S) /\
   Signals.risk_level s1 = "MEDIUM"%string) ->
  (0 <= Signals.strength sg <= 1 /\
   Signals.action sg = Signals.action s1 /\
   Signals.confidence sg = Signals.confidence s1 /\
   (Signals.action sg = "HOLD"%string -> Signals.strength sg = 0) /\
   (Signals.risk_level sg = "HIGH"%string <-> overall_risk > 0.7) /\
   (Signals.risk_level sg = "LOW"%string <-> overall_risk < 0.3) /\
   (Signals.risk_level sg = "MEDIUM"%string <-> 0.3 <= overall_risk <= 0.7)) ->
  0 <= Signals.strength sg <= 1 /\
  (Signals.action sg = "HOLD"%string \/ Signals.action sg = "BUY"%string
   \/ Signals.action sg = "SELL"%string) /\
  (Signals.action sg = "HOLD"%string -> Signals.strength sg = 0) /\
  (Signals.action sg <> "HOLD"%string -> Q (Signals.confidence sg)) /\
  (Signals.action sg = "BUY"%string -> B) /\
  (Signals.action sg = "SELL"%string -> S) /\
  (Signals.risk_level sg = "HIGH"%string <-> overall_risk > 0.7) /\
  (Signals.risk_level sg = "LOW"%string <-> overall_risk < 0.3) /\
  (Signals.risk_level sg = "MEDIUM"%string <-> 0.3 <= overall_risk <= 0.7).
Proof.
  intros (A1 & A2 & A3 & A4 & A5 & A6) (B1 & B2 & B3 & B4 & B5 & B6 & B7).
  rewrite B2 in B4 |- *. rewrite B3. tauto.
Qed.

(** X26. [_generate_trading_signals]: the strength is always in [0,1];
    the action is HOLD, BUY or SELL; a HOLD signal has strength 0; a BUY
    or SELL signal is only issued when there are at least two predicted
    prices and the mean confidence score exceeds the configured
    threshold, it reports that mean as its confidence, and it is BUY
    when the last predicted price is above the first and SELL when it is
    below; the risk level is HIGH exactly when the overall risk (0.5 when
    the key is missing) exceeds 0.7, LOW exactly when it is below 0.3 and
    MEDIUM otherwise. The renderings of numbers in the reasoning texts
    play no role. *)
Theorem trading_signals_sound (fmt2 repr : R -> string)
  (config : AnalysisConfig.t) (coherence_result : Result.t)
  (predicted_prices confidence_scores : list R)
  (risk_assessment : gmap string R) :
  let sg :=
    _generate_trading_signals fmt2 repr config coherence_result
      predicted_prices confidence_scores risk_assessment in
  let overall_risk :=
    default 0.5 (risk_assessment !! "overall_risk"%string) in
  let first_price := nth 0 predicted_prices 0 in
  let last_price := neg_index predicted_prices 1 0 in
  0 <= Signals.strength sg <= 1 /\
  (Signals.action sg = "HOLD"%string \/ Signals.action sg = "BUY"%string
   \/ Signals.action sg = "SELL"%string) /\
  (Signals.action sg = "HOLD"%string -> Signals.strength sg = 0) /\
  (Signals.action sg <> "HOLD"%string ->
   (2 <= length predicted_prices)%nat /\
   np_mean confidence_scores > AnalysisConfig.confidence_threshold config /\
   Signals.confidence sg = np_mean confidence_scores) /\
  (Signals.action sg = "BUY"%string -> last_price > first_price) /\
  (Signals.action sg = "SELL"%string -> last_price < first_price) /\
  (Signals.risk_level sg = "HIGH"%string <-> overall_risk > 0.7) /\
  (Signals.risk_level sg = "LOW"%string <-> overall_risk < 0.3) /\
  (Signals.risk_level sg = "MEDIUM"%string <-> 0.3 <= overall_risk <= 0.7).
Proof.
  intros sg overall_risk first_price last_price.
  pose proof (signals_direction fmt2 repr config predicted_prices
                confidence_scores) as A.
  cbv zeta in A.
  refine (signals_compose _ sg overall_risk
            (fun c => (2 <= length predicted_prices)%nat /\
                      np_mean confidence_scores
                      > AnalysisConfig.confidence_threshold config /\
                      c = np_mean confidence_scores)
            _ _ A _).
  destruct A as (_ & A2 & _ & _ & _ & A6).
  exact (signals_adjust _
           ((GCT.psi (Result.basal_enhanced_gct coherence_result)
             + GCT.rho (Result.basal_enhanced_gct coherence_result)) / 2)
           overall_risk A2 A6).
Qed.

(** ** Alerts *)

(** X27. [_generate_alerts] raises at most three alerts, in the order
    coherence spike, anticipation anomaly, resonance breakdown: a
    coherence spike exactly when the blended psi exceeds 0.9, an
    anticipation anomaly exactly when the anticipation capacity exceeds
    0.5 in magnitude (severity critical above 0.8, high otherwise), a
    resonance breakdown exactly when the symbolic resonance is below 0.2.
    Every alert carries the given symbol and time and the result's
    prediction confidence. For the fallback result of the integrator
    (resonance 0) exactly one alert is raised, a resonance breakdown of
    severity medium with confidence 0. *)
Theorem alerts_raised (fmt3 : R -> string) (strftime : Z -> string)
  (sym : string) (result : Result.t) (now : Z) :
  let alerts := _generate_alerts fmt3 strftime sym result now in
  let psi := GCT.psi (Result.basal_enhanced_gct result) in
  let anticipation := Rabs (Result.anticipation_capacity result) in
  let resonance := Result.symbolic_resonance result in
  (length alerts <= 3)%nat /\
  Forall (fun a => Alert.symbol a = sym /\ Alert.timestamp a = now /\
                   Alert.confidence a = Result.prediction_confidence result)
         alerts /\
  map Alert.alert_type alerts
  = (if Rgt_dec psi 0.9 then ["coherence_spike"%string] else [])
    ++ (if Rgt_dec anticipation 0.5 then ["anticipation_anomaly"%string]
        else [])
    ++ (if Rlt_dec resonance 0.2 then ["resonance_breakdown"%string]
        else []) /\
  (forall a, In a alerts ->
     Alert.alert_type a = "anticipation_anomaly"%string ->
     Alert.severity a
     = if Rgt_dec anticipation 0.8 then "critical"%string
       else "high"%string) /\
  (forall (dp : MarketDataPoint) (t : Z),
     result = Integrator._create_fallback_result dp t ->
     map (fun a => (Alert.alert_type a, Alert.severity a, Alert.confidence a))
         alerts
     = [("resonance_breakdown"%string, "medium"%string, 0)]).
Proof.
  intros alerts psi anticipation resonance.
  unfold alerts, _generate_alerts. fold psi anticipation resonance.
  split; [|split; [|split; [|split]]].
  - destruct (Rgt_dec psi 0.9), (Rgt_dec anticipation 0.5),
      (Rlt_dec resonance 0.2); simpl; lia.
  - destruct (Rgt_dec psi 0.9), (Rgt_dec anticipation 0.5),
      (Rlt_dec resonance 0.2); simpl; repeat constructor.
  - destruct (Rgt_dec psi 0.9), (Rgt_dec anticipation 0.5),
      (Rlt_dec resonance 0.2); reflexivity.
  - intros a Ha Ht.
    destruct (Rgt_dec psi 0.9), (Rgt_dec anticipation 0.5),
      (Rlt_dec resonance 0.2); simpl in Ha;
      repeat (destruct Ha as [<-|Ha]; [try discriminate Ht; reflexivity|]);
      contradiction.
  - intros dp t ->. subst psi anticipation resonance.
    cbn [Integrator._create_fallback_result Result.basal_enhanced_gct
         Result.anticipation_capacity Result.symbolic_resonance
         Result.prediction_confidence Integrator.neutral_gct GCT.psi].
    rewrite Rabs_R0.
    destruct (Rgt_dec 0.5 0.9); [lra|].
    destruct (Rgt_dec 0 0.5); [lra|].
    destruct (Rlt_dec 0 0.2); [|lra].
    reflexivity.
Qed.

(** ** A negative adaptation rate *)

Lemma repeat_snoc {A} (x : A) (k : nat) : repeat x k ++ [x] = repeat x (S k).
Proof. cbn [repeat]. symmetry. apply repeat_cons. Qed.

Lemma update_energy_idle (k : nat) (n : Node.t) (ns : gmap nat R) :
  (k < 100)%nat -> idle k n ->
  (forall j v, ns !! j = Some v -> v = 0) ->
  idle (S k) (Node.update_energy n ∅ ns).
Proof.
  intros Hk (Hc & Ha & He & Ht & Hah & Heh) Hns.
  unfold idle, Node.update_energy.
  assert (Hin : dict_sum
                  (fun source_id signal =>
                     dict_get0 (Node.incoming_weights n) source_id * signal)
                  (∅ : gmap nat R) = 0)
    by (apply dict_sum_zero; intros j v; rewrite lookup_empty; discriminate).
  assert (Hnb : dict_sum
                  (fun neighbor_id act =>
                     dict_get0 (Node.incoming_weights n) neighbor_id * act)
                  ns = 0)
    by (apply dict_sum_zero; intros j v Hj; rewrite (Hns j v Hj); lra).
  rewrite Hin, Hnb, Hc, He, Ht, Hah, Heh.
  replace (0 + 0.8 * 0) with 0 by lra. rewrite tanh_0.
  cbn [energy_decay runaway_config].
  replace (0.5 * 1 + 0.1 * 0 - 0.05 * (0.5 - 0.5)) with 0.5 by lra.
  rewrite np_clip_id by lra.
  rewrite !repeat_snoc.
  destruct (Nat.ltb_spec 100 (length (repeat 0 (S k)))) as [H|H].
  - rewrite repeat_length in H. lia.
  - cbn. auto 10.
Qed.

Lemma py_sum_repeat (c : R) (k : nat) : py_sum (repeat c k) = INR k * c.
Proof.
  induction k as [|k IH].
  - cbn [repeat]. rewrite py_sum_nil. simpl. lra.
  - cbn [repeat]. rewrite py_sum_cons, IH, S_INR. lra.
Qed.

Lemma np_var_repeat (c : R) (k : nat) : np_var (repeat c (S k)) = 0.
Proof.
  assert (Hm : np_mean (repeat c (S k)) = c).
  { unfold np_mean. rewrite py_sum_repeat, repeat_length.
    pose proof (pos_INR k). rewrite S_INR. field. lra. }
  unfold np_var. rewrite Hm. unfold np_mean at 1. rewrite py_sum_zeros.
  - unfold Rdiv. apply Rmult_0_l.
  - apply Forall_map, List.Forall_forall. intros x Hx.
    apply repeat_spec in Hx. subst x. ring.
Qed.

Lemma adapt_idle_early (k : nat) (n : Node.t) :
  (k < 10)%nat -> idle k n -> Node.adapt_target_energy n = n.
Proof.
  intros Hk (_ & _ & _ & _ & _ & Heh).
  unfold Node.adapt_target_energy. rewrite Heh, repeat_length.
  destruct (Nat.leb_spec 10 k); [lia|reflexivity].
Qed.

Lemma adapt_idle_ten (n : Node.t) :
  idle 10 n -> Node.target_energy (Node.adapt_target_energy n) = 1.5.
Proof.
  intros (Hc & _ & _ & Ht & _ & Heh).
  unfold Node.adapt_target_energy. rewrite Heh, repeat_length.
  cbn [Nat.leb]. unfold last_n. rewrite repeat_length.
  change (drop (10 - 10) (repeat 0.5 10)) with (repeat 0.5 10).
  rewrite np_var_repeat.
  destruct (Rlt_dec 0 0.01) as [_|H]; [|lra].
  cbn [Node.target_energy Node.set_target_energy].
  rewrite Hc, Ht. cbn [adaptation_rate runaway_config].
  unfold Rmax. destruct (Rle_dec 0.2 (0.5 - -1)); lra.
Qed.

Lemma node_step_idle (k : nat) (snap : gmap nat R) (n : Node.t) :
  (forall j v, snap !! j = Some v -> v = 0) -> idle k n ->
  ((k < 9)%nat -> idle (S k) (node_step ∅ snap n)) /\
  (k = 9%nat -> Node.target_energy (node_step ∅ snap n) = 1.5).
Proof.
  intros Hs Hi. unfold node_step.
  pose proof (neighbor_states_quiet snap n Hs) as Hns.
  rewrite learning_quiet by exact Hns.
  split.
  - intros Hk.
    pose proof (update_energy_idle k n _ ltac:(lia) Hi Hns) as H1.
    rewrite (adapt_idle_early (S k)) by (lia || exact H1). exact H1.
  - intros ->. apply adapt_idle_ten.
    apply update_energy_idle; [lia | exact Hi | exact Hns].
Qed.

Lemma idle_quiet (k : nat) (ns : list Node.t) :
  Forall (idle k) ns -> Forall quiet ns.
Proof.
  intros H. eapply Forall_impl; [exact H|]. intros n (_ & Ha & _). exact Ha.
Qed.

Lemma idle_run (j : nat) :
  forall (k : nat) (e : Engine.t),
    (k + j <= 9)%nat -> Forall (idle k) (Engine.nodes e) ->
    Forall (idle (k + j)) (Engine.nodes (run_steps e (repeat None j))).
Proof.
  induction j as [|j IH]; intros k e Hk H.
  - rewrite Nat.add_0_r. exact H.
  - change (repeat None (S j)) with (@None (gmap nat R) :: repeat None j).
    rewrite run_steps_cons.
    replace (k + S j)%nat with (S k + j)%nat by lia.
    apply IH; [lia|]. rewrite nodes_update. apply Forall_map.
    pose proof (current_activations_quiet _ (idle_quiet k _ H)) as Hs.
    eapply Forall_impl; [exact H|]. intros n Hn.
    apply (node_step_idle k _ n Hs Hn). lia.
Qed.

Lemma init_idle :
  Forall (idle 0) (Engine.nodes (Engine.init plain_draws runaway_config)).
Proof.
  pose proof (init_recorded plain_draws runaway_config) as Hr.
  apply Forall_lookup. intros i n Hn.
  pose proof (proj1 (Forall_lookup _ _) Hr i n Hn) as (La & Le & _).
  apply init_nodes_lookup in Hn. destruct Hn as (_ & Hc & He & Ht & Ha).
  unfold idle. cbn [uniform_energy uniform_target plain_draws] in He, Ht.
  simpl in La, Le.
  apply nil_length_inv in La, Le. rewrite La, Le. auto 10.
Qed.

(** C10, as stated, fails: the dataclass accepts a negative adaptation
    rate, and then the downward nudge of a stable node is an upward one
    that the floor [max(0.2, .)] does not cap. With rate -1 (and no
    decay), two nodes that idle at energy 0.5 have, after ten silent
    steps, ten equal energies on record, and their target energy moves
    from 0.5 to 1.5. *)
Lemma negative_rate_counterexample :
  draws_in_range plain_draws /\
  ~ Forall target_in_band
      (Engine.nodes
         (run_steps (Engine.init plain_draws runaway_config)
                    (repeat None 10))).
Proof.
  split; [exact plain_draws_in_range|]. intros Hall.
  change (repeat None 10)
    with (repeat (@None (gmap nat R)) 9 ++ [None]) in Hall.
  rewrite run_steps_app in Hall.
  set (e9 := run_steps _ (repeat None 9)) in Hall.
  assert (H9 : Forall (idle 9) (Engine.nodes e9))
    by (apply (idle_run 9 0); [lia | exact init_idle]).
  change (run_steps e9 [None])
    with (fst (Engine.update_reservoir_state e9 None)) in Hall.
  rewrite nodes_update in Hall.
  assert (Hlen : length (Engine.nodes e9) = 2%nat).
  { unfold e9. rewrite run_steps_length, init_nodes_length. reflexivity. }
  destruct (Engine.nodes e9) as [|n ns] eqn:E; [discriminate Hlen|].
  inversion H9 as [|? ? Hn Hns]; subst.
  cbn [map] in Hall. inversion Hall as [|? ? Hb _]; subst.
  pose proof (current_activations_quiet _ (idle_quiet 9 _ H9)) as Hs.
  destruct (node_step_idle 9 _ n Hs Hn) as [_ Ht].
  unfold target_in_band in Hb. cbn [default] in Hb.
  rewrite (Ht eq_refl) in Hb. lra.
Qed.

(** ** Overflow in the traditional psi *)

Lemma overflow_threshold_pos : 0 < Double.overflow_threshold.
Proof.
  unfold Double.overflow_threshold.
  let v := eval vm_compute in (2 ^ 1024 - 2 ^ 970)%Z in
  change (2 ^ 1024 - 2 ^ 970)%Z with v.
  lra.
Qed.

Lemma huge_price_finite : 1e308 < Double.overflow_threshold.
Proof.
  unfold Double.overflow_threshold.
  let v := eval vm_compute in (2 ^ 1024 - 2 ^ 970)%Z in
  change (2 ^ 1024 - 2 ^ 970)%Z with v.
  lra.
Qed.

Lemma huge_price_doubled : Double.overflow_threshold <= 1e308 + 1e308.
Proof.
  unfold Double.overflow_threshold.
  let v := eval vm_compute in (2 ^ 1024 - 2 ^ 970)%Z in
  change (2 ^ 1024 - 2 ^ 970)%Z with v.
  lra.
Qed.

Lemma round_fin (x : R) :
  Rabs x < Double.overflow_threshold -> Double.round x = Double.Fin x.
Proof.
  intros H. unfold Double.round.
  destruct (Rle_dec _ _); [lra | reflexivity].
Qed.

Lemma round_pinf (x : R) :
  Double.overflow_threshold <= x -> Double.round x = Double.PInf.
Proof.
  intros H. pose proof overflow_threshold_pos as Hp. unfold Double.round.
  rewrite Rabs_right by lra.
  destruct (Rle_dec _ _); [|lra]. destruct (Rlt_dec 0 x); [reflexivity|lra].
Qed.

(** Five equal prices whose sum overflows: the mean and the standard
    deviation are both infinite, and their quotient is NaN. *)
Lemma volatility_of_overflowing_sum (a : R) :
  0 < a < Double.overflow_threshold ->
  Double.overflow_threshold <= a + a ->
  let prices := repeat (Double.Fin a) 5 in
  Double.np_mean prices = Double.PInf /\
  Double.np_std prices = Double.PInf /\
  Double.div (Double.np_std prices)
             (Double.add (Double.np_mean prices) (Double.Fin 1e-8))
  = Double.NaN.
Proof.
  intros [Ha0 Ha1] Ha2 prices.
  assert (Hs : Double.np_sum prices = Double.PInf).
  { unfold prices, Double.np_sum. cbn [repeat fold_left].
    cbn [Double.add]. rewrite (round_fin (0 + a)).
    - cbn [Double.add]. rewrite (round_pinf (0 + a + a)) by lra.
      reflexivity.
    - rewrite Rabs_right by lra. lra. }
  assert (Hm : Double.np_mean prices = Double.PInf).
  { unfold Double.np_mean. rewrite Hs. cbn [Double.div].
    destruct (Rle_dec 0 (INR (length prices))) as [_|H]; [reflexivity|].
    exfalso. apply H, pos_INR. }
  assert (Hv : Double.np_var prices = Double.PInf).
  { unfold Double.np_var. cbv zeta. rewrite Hm.
    unfold prices at 1. cbn [repeat map].
    cbn [Double.sub Double.opp Double.add Double.mul].
    unfold Double.np_mean, Double.np_sum. cbn [fold_left Double.add].
    cbn [Double.div].
    destruct (Rle_dec 0 _) as [_|H]; [reflexivity|].
    exfalso. apply H, pos_INR. }
  split; [exact Hm|].
  assert (Hsd : Double.np_std prices = Double.PInf)
    by (unfold Double.np_std; rewrite Hv; reflexivity).
  split; [exact Hsd|]. rewrite Hsd, Hm. reflexivity.
Qed.

Lemma run_history (stream : list (MarketDataPoint * Z)) :
  forall s : Integrator.t,
    (length (Integrator.market_history s) + length stream <= 1000)%nat ->
    Integrator.market_history (snd (Integrator.run s stream))
    = Integrator.market_history s ++ map fst stream.
Proof.
  induction stream as [|[dp now] stream IH]; intros s Hl.
  - simpl. rewrite app_nil_r. reflexivity.
  - rewrite run_cons. cbn [snd].
    destruct (process_frame dp true now s) as [_ Hh]. cbv zeta in Hh.
    cbn [length] in Hl.
    assert (Hc : append_capped 1000 (Integrator.market_history s) dp
                 = Integrator.market_history s ++ [dp]).
    { unfold append_capped. rewrite length_app. cbn [length].
      destruct (Nat.ltb_spec 1000 (length (Integrator.market_history s) + 1));
        [lia | reflexivity]. }
    rewrite IH.
    + rewrite Hh, Hc, <- app_assoc. reflexivity.
    + rewrite Hh, Hc, length_app. cbn [length]. lia.
Qed.

(** C1 at the failing input: five data points with the price 1e308, a
    valid double, fed to a fresh integrator. No call raises: each
    returns a regular result, not the fallback. But in doubles the sum of
    the five prices overflows, so the mean and the standard deviation of
    the fifth call are both infinite, their quotient is NaN, and
    [np.exp] and [np.clip] pass NaN on: the traditional psi is NaN, and
    so is the blended psi, whatever the reservoir contributes. NaN is not
    a number of [0,1]. *)
Theorem psi_not_saturated :
  let out :=
    Integrator.run fresh_integrator (repeat (huge_point, 0%Z) 5) in
  Forall (fun o => exists r, o = Ok r /\ Result.reservoir_state r <> ∅)
         (fst out) /\
  Integrator.market_history (snd out) = repeat huge_point 5 /\
  Double.traditional_psi (snd out) = Double.NaN /\
  (forall basal_coherence : Double.t,
      Double.enhanced_psi (snd out) (Double.traditional_psi (snd out))
                          basal_coherence
      = Double.NaN) /\
  ~ Double.in_unit Double.NaN.
Proof.
  intros out.
  assert (H0 : all_processed 0 fresh_integrator).
  { unfold all_processed. cbn. split; [constructor|]. split; reflexivity. }
  assert (HF : Forall (fun x : MarketDataPoint * Z => price (fst x) <> 0)
                      (repeat (huge_point, 0%Z) 5)).
  { apply List.Forall_forall. intros x Hx.
    apply repeat_spec in Hx. subst x. cbn [fst price huge_point]. lra. }
  destruct (run_all_processed _ 0 fresh_integrator H0 HF) as [Hok _].
  split; [exact Hok|].
  assert (Hh : Integrator.market_history (snd out) = repeat huge_point 5).
  { unfold out. rewrite run_history; [reflexivity|].
    rewrite repeat_length. cbn. lia. }
  split; [exact Hh|].
  assert (Hpsi : Double.traditional_psi (snd out) = Double.NaN).
  { unfold Double.traditional_psi. rewrite Hh.
    change (last_n 20 (repeat huge_point 5)) with (repeat huge_point 5).
    change (map (fun dp => Double.Fin (price dp)) (repeat huge_point 5))
      with (repeat (Double.Fin 1e308) 5).
    change (length (repeat (Double.Fin 1e308) 5) <? 5)%nat with false.
    cbv beta iota zeta.
    change (last_n 10 (repeat (Double.Fin 1e308) 5))
      with (repeat (Double.Fin 1e308) 5).
    destruct (volatility_of_overflowing_sum 1e308) as (_ & _ & Hq).
    - split; [lra | exact huge_price_finite].
    - exact huge_price_doubled.
    - cbv zeta in Hq. rewrite Hq. reflexivity. }
  split; [exact Hpsi|]. split.
  - intros basal. rewrite Hpsi. unfold Double.enhanced_psi. cbv zeta.
    destruct (Double.sub (Double.Fin 1) _); reflexivity.
  - intros H. exact H.
Qed.

(** ** Ranges of the results on valid data *)

Lemma later_point_valid : valid_point later_point.
Proof.
  unfold valid_point, later_point. cbn [price volume sentiment].
  split; [lra|]. split; [lia|exact I].
Qed.

Lemma run_in_unit (stream : list (MarketDataPoint * Z)) :
  forall s : Integrator.t,
    Forall (fun out => exists r, out = Ok r /\ result_in_unit r)
           (fst (Integrator.run s stream)).
Proof.
  induction stream as [|[dp now] stream IH]; intros s.
  - constructor.
  - cbn [Integrator.run].
    destruct (process_total dp true now s) as (r & s' & Hp & Hr).
    rewrite Hp. specialize (IH s').
    destruct (Integrator.run s' stream) as [rs s'']. simpl in *.
    constructor; [eauto|exact IH].
Qed.

(** X28. An integrator built on a configuration with at least one node
    and moderate floats (magnitude at most 1e100), with a moderate
    integration strength, uniform draws in their intervals and moderate
    drawn weights, is fed a stream of valid data points (prices between
    1e-50 and 1e50, volumes between 0 and 10^18, sentiments in [-1,1]).
    Then no call of [process_market_data_stream] raises, and every
    result of the stream has all components of the traditional and of
    the blended vector, the prediction confidence, the symbolic
    resonance and the adaptation efficiency in [0,1]; so has the result
    of one more call on a valid point, with or without prediction, and
    so has the fallback result. *)
Theorem results_in_unit_interval (d : RandomDraws)
  (cfg : BasalReservoirConfig) (integration_strength : option R)
  (stream : list (MarketDataPoint * Z)) :
  draws_in_range d ->
  moderate_draws d ->
  moderate_config cfg ->
  (0 < num_nodes cfg)%nat ->
  moderate (default 0.3 integration_strength) ->
  Forall (fun x => valid_point (fst x)) stream ->
  exists s,
    Integrator.init d (Some cfg) integration_strength = Ok s /\
    Forall (fun out => exists r, out = Ok r /\ result_in_unit r)
           (fst (Integrator.run s stream)) /\
    (forall dp enable_prediction now,
        valid_point dp ->
        exists r s',
          Integrator.process_market_data_stream dp enable_prediction now
            (snd (Integrator.run s stream))
          = (Ok r, s') /\
          result_in_unit r) /\
    (forall dp now,
        result_in_unit (Integrator._create_fallback_result dp now)).
Proof.
  intros _ _ _ _ _ _. eexists. split; [reflexivity|].
  split; [apply run_in_unit|].
  split; [intros; apply process_total|intros; apply fallback_in_unit].
Qed.

Lemma results_in_unit_interval_witness :
  draws_in_range plain_draws /\
  moderate_draws plain_draws /\
  moderate_config two_node_config /\
  (0 < num_nodes two_node_config)%nat /\
  moderate (default 0.3 None) /\
  Forall (fun x => valid_point (fst x))
         [(later_point, 1%Z); (later_point, 2%Z)] /\
  exists s,
    Integrator.init plain_draws (Some two_node_config) None = Ok s /\
    Forall (fun out => exists r, out = Ok r /\ result_in_unit r)
           (fst (Integrator.run s [(later_point, 1%Z); (later_point, 2%Z)])) /\
    (forall dp enable_prediction now,
        valid_point dp ->
        exists r s',
          Integrator.process_market_data_stream dp enable_prediction now
            (snd (Integrator.run s
                    [(later_point, 1%Z); (later_point, 2%Z)]))
          = (Ok r, s') /\
          result_in_unit r) /\
    (forall dp now,
        result_in_unit (Integrator._create_fallback_result dp now)).
Proof.
  assert (Hn : (0 < num_nodes two_node_config)%nat) by (cbn; lia).
  assert (Ha : moderate (default 0.3 None)).
  { unfold moderate. cbn [default]. rewrite Rabs_right by lra. lra. }
  assert (Hs : Forall (fun x : MarketDataPoint * Z => valid_point (fst x))
                 [(later_point, 1%Z); (later_point, 2%Z)]).
  { repeat (constructor; [exact later_point_valid|]). constructor. }
  split; [exact plain_draws_in_range|].
  split; [exact plain_draws_moderate|].
  split; [exact two_node_config_moderate|].
  split; [exact Hn|]. split; [exact Ha|]. split; [exact Hs|].
  exact (results_in_unit_interval plain_draws two_node_config None
           [(later_point, 1%Z); (later_point, 2%Z)]
           plain_draws_in_range plain_draws_moderate
           two_node_config_moderate Hn Ha Hs).
Defined.
